(** * Portfolio page script (assets/js/app.js): model and verified properties

    The script keeps two process-wide variables ([appData], [currentLang]),
    fetches one JSON document per locale and projects it into a fixed set of
    DOM targets.  This development embeds the script as state-passing
    functions over an explicit page state and proves the properties stated
    for the loader, the renderer, the locale toggle and the scroll handler.

    Modelling boundary (what the browser provides and the script only uses):
    - a JavaScript value is a parsed JSON value, [undefined], or a built-in
      function or prototype object that a property read reaches; an object
      is the list of its entries, each key once; numbers are integers of
      magnitude below 2^53, which JavaScript prints in full, and strings
      are sequences of bytes, whose length and index properties are the
      JavaScript ones for ASCII strings;
    - a property read sees the own properties of the value first and then
      the members of its built-in prototype and of [Object.prototype]
      (ECMAScript 2024 with Annex B); a built-in function converts to a
      string as V8 prints it;
    - the DOM is a store of string properties addressed by node and property
      name, next to the read-only markup structure the script queries; the
      queried nodes are distinct, each is of the kind its assigned property
      belongs to (an image for [src], an anchor for [href]), and markup
      assigned through [innerHTML] is kept as the assigned string: it
      neither adds nor removes an element the script queries;
    - pixel offsets and the scroll position are integers;
    - an async function runs to completion without other handlers
      interleaving at its awaits. *)

From Stdlib Require Import ZArith DecimalString.
From stdpp Require Import gmap strings list pretty.

Open Scope string_scope.
Local Set Warnings "-register-all".

(** ** JavaScript values *)

Inductive value :=
  | VUndefined
  | VNull
  | VBool (b : bool)
  | VNum (n : Z)
  | VStr (s : string)
  | VArr (items : list value)
  | VObj (fields : list (string * value))
  | VNative (shown : string).   (* a built-in function or prototype object,
                                   by its string conversion *)

Inductive error :=
  | TypeError
  | SyntaxError
  | JsError (message : string).

Inductive outcome (A : Type) :=
  | Ok (a : A)
  | Throw (e : error).
Arguments Ok {A} a.
Arguments Throw {A} e.

Global Instance outcome_ret : MRet outcome := fun _ a => Ok a.
Global Instance outcome_bind : MBind outcome := fun _ _ f o =>
  match o with
  | Ok a => f a
  | Throw e => Throw e
  end.

Global Instance outcome_fmap : FMap outcome := fun _ _ f o =>
  match o with
  | Ok a => Ok (f a)
  | Throw e => Throw e
  end.

Definition dq : string := String (Ascii.ascii_of_nat 34) EmptyString.

(** Concatenation of the chunks of a template literal. *)
Definition cat (chunks : list string) : string := String.concat EmptyString chunks.

(** A literal chunk that contains double quotes, given as the pieces
    between the quotes. *)
Definition qq (pieces : list string) : string := String.concat dq pieces.

(** Truthiness, as tested by [if (v)] and [v ? a : b]. *)
Definition truthy (v : value) : bool :=
  match v with
  | VUndefined | VNull => false
  | VBool b => b
  | VNum n => negb (n =? 0)%Z
  | VStr s => negb (String.eqb s EmptyString)
  | VArr _ | VObj _ | VNative _ => true
  end.

Fixpoint assoc (k : string) (fields : list (string * value)) : option value :=
  match fields with
  | [] => None
  | (k', v) :: rest => if String.eqb k' k then Some v else assoc k rest
  end.

(** The string a string conversion yields when it completes: an array is
    joined with commas, [null] and [undefined] elements left empty; an
    object gives the text of [Object.prototype.toString]. *)
Fixpoint toStr (v : value) : string :=
  match v with
  | VUndefined => "undefined"
  | VNull => "null"
  | VBool true => "true"
  | VBool false => "false"
  | VNum n => pretty n
  | VStr s => s
  | VArr items =>
      String.concat ","
        (map (fun x => match x with
                       | VUndefined | VNull => EmptyString
                       | _ => toStr x
                       end) items)
  | VObj _ => "[object Object]"
  | VNative shown => shown
  end.

(** Whether the string conversion completes.  The conversion of an object
    calls its [toString] member: an own [toString] entry of a parsed object
    is not a function and hides the inherited method, and the inherited
    [valueOf] returns the object itself, so the conversion throws.  The
    conversion of an array converts its elements. *)
Fixpoint converts (v : value) : bool :=
  match v with
  | VObj fields => match assoc "toString" fields with
                   | Some _ => false
                   | None => true
                   end
  | VArr items =>
      forallb (fun x => match x with
                        | VUndefined | VNull => true
                        | _ => converts x
                        end) items
  | _ => true
  end.

(** String conversion, as applied by a template literal to each
    substitution and by the string-valued DOM setters. *)
Definition toString (v : value) : outcome string :=
  if converts v then Ok (toStr v) else Throw TypeError.

(** A property name that is a canonical array index. *)
Definition arrayIndex (k : string) : option nat :=
  match NilZero.uint_of_string k with
  | Some d =>
      let n := Nat.of_uint d in
      if String.eqb (NilZero.string_of_uint (Nat.to_uint n)) k then Some n else None
  | None => None
  end.

(** The string-keyed members of the built-in prototypes. *)
Definition objectMembers : list string :=
  [ "constructor"; "__defineGetter__"; "__defineSetter__"; "hasOwnProperty";
    "__lookupGetter__"; "__lookupSetter__"; "isPrototypeOf";
    "propertyIsEnumerable"; "toString"; "valueOf"; "__proto__";
    "toLocaleString" ].

Definition arrayMembers : list string :=
  [ "constructor"; "at"; "concat"; "copyWithin"; "fill"; "find"; "findIndex";
    "findLast"; "findLastIndex"; "lastIndexOf"; "pop"; "push"; "reverse";
    "shift"; "unshift"; "slice"; "sort"; "splice"; "includes"; "indexOf";
    "join"; "keys"; "entries"; "values"; "forEach"; "filter"; "flat";
    "flatMap"; "map"; "every"; "some"; "reduce"; "reduceRight"; "toReversed";
    "toSorted"; "toSpliced"; "with"; "toLocaleString"; "toString" ].

Definition stringMembers : list string :=
  [ "constructor"; "anchor"; "at"; "big"; "blink"; "bold"; "charAt";
    "charCodeAt"; "codePointAt"; "concat"; "endsWith"; "fontcolor";
    "fontsize"; "fixed"; "includes"; "indexOf"; "isWellFormed"; "italics";
    "lastIndexOf"; "link"; "localeCompare"; "match"; "matchAll"; "normalize";
    "padEnd"; "padStart"; "repeat"; "replace"; "replaceAll"; "search";
    "slice"; "small"; "split"; "strike"; "sub"; "substr"; "substring"; "sup";
    "startsWith"; "toString"; "toWellFormed"; "trim"; "trimStart";
    "trimLeft"; "trimEnd"; "trimRight"; "toLocaleLowerCase";
    "toLocaleUpperCase"; "toLowerCase"; "toUpperCase"; "valueOf" ].

Definition numberMembers : list string :=
  [ "constructor"; "toExponential"; "toFixed"; "toPrecision"; "toString";
    "valueOf"; "toLocaleString" ].

Definition booleanMembers : list string := [ "constructor"; "toString"; "valueOf" ].

Definition nativeFunction (name : string) : value :=
  VNative (cat ["function "; name; "() { [native code] }"]).

(** The name of the function a member denotes: [trimLeft] and [trimRight]
    are the functions [trimStart] and [trimEnd]. *)
Definition memberName (k : string) : string :=
  if String.eqb k "trimLeft" then "trimStart"
  else if String.eqb k "trimRight" then "trimEnd"
  else k.

(** A read that finds no own property goes up the prototype chain: the
    prototype of the value's kind, with members [members], constructor
    [ctor] and string conversion [shown], and then [Object.prototype].
    [__proto__] yields the prototype itself. *)
Definition inherited (members : list string) (ctor shown : string) (k : string) : value :=
  if String.eqb k "__proto__" then VNative shown
  else if String.eqb k "constructor" then nativeFunction ctor
  else if bool_decide (k ∈ members) || bool_decide (k ∈ objectMembers)
       then nativeFunction (memberName k)
  else VUndefined.

(** [v[k]] and [v.k]: a read on [null] or [undefined] throws; the others
    find an own property or an inherited member, or yield [undefined].
    The script reads no property of a built-in function or prototype. *)
Definition getField (v : value) (k : string) : outcome value :=
  match v with
  | VUndefined | VNull => Throw TypeError
  | VObj fields =>
      Ok (match assoc k fields with
          | Some x => x
          | None => inherited [] "Object" "[object Object]" k
          end)
  | VArr items =>
      if String.eqb k "length" then Ok (VNum (Z.of_nat (length items)))
      else Ok (match arrayIndex k ≫= (fun i => items !! i) with
               | Some x => x
               | None => inherited arrayMembers "Array" EmptyString k
               end)
  | VStr s =>
      if String.eqb k "length" then Ok (VNum (Z.of_nat (String.length s)))
      else Ok (match arrayIndex k ≫= (fun i => String.get i s) with
               | Some c => VStr (String c EmptyString)
               | None => inherited stringMembers "String" EmptyString k
               end)
  | VNum _ => Ok (inherited numberMembers "Number" "0" k)
  | VBool _ => Ok (inherited booleanMembers "Boolean" "false" k)
  | VNative _ => Ok VUndefined
  end.

Fixpoint mapM {A B : Type} (f : A -> outcome B) (l : list A) : outcome (list B) :=
  match l with
  | [] => Ok []
  | x :: rest =>
      match f x with
      | Ok y => match mapM f rest with
                | Ok ys => Ok (y :: ys)
                | Throw e => Throw e
                end
      | Throw e => Throw e
      end
  end.

(** [v.map(f).join('')]: only an array has a callable [map]. *)
Definition mapJoin (v : value) (f : value -> outcome string) : outcome string :=
  match v with
  | VArr items =>
      match mapM f items with
      | Ok strs => Ok (cat strs)
      | Throw e => Throw e
      end
  | _ => Throw TypeError
  end.

(** ** Page state *)

Inductive node :=
  | ById (id : string)
  | NavLink (i : nat)
  | HeroBtn (i : nat)
  | ContactTitle (i : nat)
  | SubsectionTitle.

Global Instance node_eq_dec : EqDecision node.
Proof. solve_decision. Defined.

Global Instance node_countable : Countable node.
Proof.
  refine (inj_countable'
    (fun n => match n with
              | ById s => inl s
              | NavLink i => inr (inl i)
              | HeroBtn i => inr (inr (inl i))
              | ContactTitle i => inr (inr (inr (inl i)))
              | SubsectionTitle => inr (inr (inr (inr tt)))
              end)
    (fun x => match x with
              | inl s => ById s
              | inr (inl i) => NavLink i
              | inr (inr (inl i)) => HeroBtn i
              | inr (inr (inr (inl i))) => ContactTitle i
              | inr (inr (inr (inr tt))) => SubsectionTitle
              end) _).
  by intros [].
Defined.

(** A [.nav-link] anchor: its [data-nav] and [href] attributes. *)
Record navLink := { dataNav : option string; href : option string }.

(** A [.section] or [.hero] block: layout offset and [id] attribute. *)
Record section := { offsetTop : Z; clientHeight : Z; sectionId : option string }.

(** The markup the script queries but never changes. *)
Record layout := {
  ids : gset string;            (* elements found by getElementById *)
  navLinks : list navLink;      (* querySelectorAll('.nav-link') *)
  heroBtns : nat;               (* querySelectorAll('.hero-cta .btn') *)
  contactTitles : nat;          (* querySelectorAll('.contact-item h3') *)
  subsectionTitle : bool;       (* querySelector('#education .subsection-title') *)
  sections : list section       (* querySelectorAll('.section, .hero') *)
}.

(** The [#lang-toggle] button; [langText] is the text of its [.lang-text]
    child when there is one. *)
Record toggleCtl := {
  disabled : bool;
  opacity : string;
  langText : option string
}.

Inductive task := AnimateProgressBars.

Inductive fetchResult :=
  | NetworkFailure
  | Response (ok : bool) (body : option value).

Abbreviation network := (string -> fetchResult).
Abbreviation store := (gmap (node * string) string).

Record state := {
  appData : value;
  currentLang : string;
  htmlLang : string;                      (* document.documentElement.lang *)
  markup : layout;
  props : store;                          (* string properties of the queried nodes *)
  navClasses : gmap nat (list string);    (* classList of each nav link *)
  langToggle : option toggleCtl;
  scrollY : Z;
  alerts : list string;
  console : list (string * error);
  timers : list (nat * task)
}.

Definition set_appData (v : value) (s : state) : state :=
  {| appData := v; currentLang := currentLang s; htmlLang := htmlLang s;
     markup := markup s; props := props s; navClasses := navClasses s;
     langToggle := langToggle s; scrollY := scrollY s; alerts := alerts s;
     console := console s; timers := timers s |}.

Definition set_currentLang (l : string) (s : state) : state :=
  {| appData := appData s; currentLang := l; htmlLang := htmlLang s;
     markup := markup s; props := props s; navClasses := navClasses s;
     langToggle := langToggle s; scrollY := scrollY s; alerts := alerts s;
     console := console s; timers := timers s |}.

Definition set_htmlLang (l : string) (s : state) : state :=
  {| appData := appData s; currentLang := currentLang s; htmlLang := l;
     markup := markup s; props := props s; navClasses := navClasses s;
     langToggle := langToggle s; scrollY := scrollY s; alerts := alerts s;
     console := console s; timers := timers s |}.

Definition set_props (p : store) (s : state) : state :=
  {| appData := appData s; currentLang := currentLang s; htmlLang := htmlLang s;
     markup := markup s; props := p; navClasses := navClasses s;
     langToggle := langToggle s; scrollY := scrollY s; alerts := alerts s;
     console := console s; timers := timers s |}.

Definition set_navClasses (c : gmap nat (list string)) (s : state) : state :=
  {| appData := appData s; currentLang := currentLang s; htmlLang := htmlLang s;
     markup := markup s; props := props s; navClasses := c;
     langToggle := langToggle s; scrollY := scrollY s; alerts := alerts s;
     console := console s; timers := timers s |}.

Definition set_langToggle (t : option toggleCtl) (s : state) : state :=
  {| appData := appData s; currentLang := currentLang s; htmlLang := htmlLang s;
     markup := markup s; props := props s; navClasses := navClasses s;
     langToggle := t; scrollY := scrollY s; alerts := alerts s;
     console := console s; timers := timers s |}.

Definition set_alerts (a : list string) (s : state) : state :=
  {| appData := appData s; currentLang := currentLang s; htmlLang := htmlLang s;
     markup := markup s; props := props s; navClasses := navClasses s;
     langToggle := langToggle s; scrollY := scrollY s; alerts := a;
     console := console s; timers := timers s |}.

Definition set_console (c : list (string * error)) (s : state) : state :=
  {| appData := appData s; currentLang := currentLang s; htmlLang := htmlLang s;
     markup := markup s; props := props s; navClasses := navClasses s;
     langToggle := langToggle s; scrollY := scrollY s; alerts := alerts s;
     console := c; timers := timers s |}.

Definition set_timers (t : list (nat * task)) (s : state) : state :=
  {| appData := appData s; currentLang := currentLang s; htmlLang := htmlLang s;
     markup := markup s; props := props s; navClasses := navClasses s;
     langToggle := langToggle s; scrollY := scrollY s; alerts := alerts s;
     console := console s; timers := t |}.

(** The scroll position is set by the browser. *)
Definition set_scrollY (y : Z) (s : state) : state :=
  {| appData := appData s; currentLang := currentLang s; htmlLang := htmlLang s;
     markup := markup s; props := props s; navClasses := navClasses s;
     langToggle := langToggle s; scrollY := y; alerts := alerts s;
     console := console s; timers := timers s |}.

(** ** Statements with effects: state passing with exceptions.
    A throw keeps the state reached so far. *)

Definition M (A : Type) : Type := state -> outcome A * state.

Global Instance M_ret : MRet M := fun _ a s => (Ok a, s).
Global Instance M_bind : MBind M := fun _ _ f m s =>
  match m s with
  | (Ok a, s') => f a s'
  | (Throw e, s') => (Throw e, s')
  end.

Definition throw {A} (e : error) : M A := fun s => (Throw e, s).
Definition gets {A} (f : state -> A) : M A := fun s => (Ok (f s), s).
Definition modify (f : state -> state) : M unit := fun s => (Ok tt, f s).
Definition liftO {A} (o : outcome A) : M A := fun s => (o, s).

(** ** Data loading *)

Record response := { resp_ok : bool; resp_body : option value }.

(** [await fetch(file)] *)
Definition fetch (net : network) (file : string) : M response :=
  match net file with
  | NetworkFailure => throw TypeError
  | Response o b => mret {| resp_ok := o; resp_body := b |}
  end.

(** [await response.json()] *)
Definition json (r : response) : M value :=
  match resp_body r with
  | Some v => mret v
  | None => throw SyntaxError
  end.

Definition dataFileOf (lang : string) : string := cat ["_data/data-"; lang; ".json"].

Definition loadLanguage (net : network) (lang : string) : M unit :=
  let dataFile := dataFileOf lang in
  r ← fetch net dataFile;
  if negb (resp_ok r) then throw (JsError (cat ["Failed to load "; dataFile]))
  else
    data ← json r;
    modify (set_appData data);;
    modify (set_currentLang lang);;
    modify (set_htmlLang (if String.eqb lang "cn" then "zh-CN" else "en")).

(** ** DOM access *)

Definition getElementById (id : string) : M (option node) :=
  gets (fun s => if decide (id ∈ ids (markup s)) then Some (ById id) else None).

(** [list[i]] on a node list of [count] elements: [undefined] past the end. *)
Definition item (count : nat) (mk : nat -> node) (i : nat) : option node :=
  if decide (i < count) then Some (mk i) else None.

(** [el.p = v] for a string property; assigning on [null] or [undefined]
    throws. *)
Definition setProp (el : option node) (p : string) (v : string) : M unit :=
  match el with
  | None => throw TypeError
  | Some n => modify (fun s => set_props (<[(n, p) := v]> (props s)) s)
  end.

(** The text a [textContent] assignment stores when it completes: the
    setter treats [null] and [undefined] as the empty string. *)
Definition textOf (v : value) : string :=
  match v with
  | VUndefined | VNull => EmptyString
  | _ => toStr v
  end.

(** The conversion the [textContent] setter applies. *)
Definition toText (v : value) : outcome string :=
  match v with
  | VUndefined | VNull => Ok EmptyString
  | _ => toString v
  end.

(** A substitution [${v.k}] of a template literal: the property is read
    and converted to a string, and either step can throw.  The read value
    is passed on; the template prints it with [toStr], the string the
    completed conversion yields. *)
Definition substituted (v : value) (k : string) : outcome value :=
  x ← getField v k;
  _ ← toString x;
  Ok x.

(** [document.getElementById(id).p = rhs], where [rhs] is the right-hand
    side with the conversion the setter applies.  The read, the test of the
    element and the conversion each throw a TypeError and change nothing,
    so the order in which they are tried is immaterial. *)
Definition assignById (id p : string) (rhs : outcome string) : M unit :=
  el ← getElementById id;
  v ← liftO rhs;
  setProp el p v.

Fixpoint forEach {A : Type} (l : list A) (f : A -> M unit) : M unit :=
  match l with
  | [] => mret tt
  | x :: rest => f x;; forEach rest f
  end.

Definition setTimeout (t : task) (delay : nat) : M unit :=
  modify (fun s => set_timers ((timers s ++ [(delay, t)])%list) s).

(** A property key: [undefined] converts to its name. *)
Definition propKey (k : option string) : string := default "undefined" k.

(** [s.replace(pat, '')] with a string pattern: the first occurrence goes. *)
Fixpoint removeFirst (pat s : string) : string :=
  if String.prefix pat s then String.substring (String.length pat) (String.length s - String.length pat) s
  else match s with
       | EmptyString => EmptyString
       | String c rest => String c (removeFirst pat rest)
       end.

Definition replaceHttps (v : value) : outcome string :=
  match v with
  | VStr s => Ok (removeFirst "https://" s)
  | _ => Throw TypeError
  end.

(** ** Render functions *)

Definition renderNav : M unit :=
  data ← gets appData;
  nav ← liftO (getField data "nav");
  links ← gets (fun s => imap pair (navLinks (markup s)));
  forEach links (fun '(i, link) =>
    let key := propKey (dataNav link) in
    v ← liftO (getField nav key);
    if truthy v then
      label ← liftO (getField nav key ≫= toText);
      setProp (Some (NavLink i)) "textContent" label
    else mret tt).

Definition renderHero : M unit :=
  data ← gets appData;
  profile ← liftO (getField data "profile");
  assignById "avatar" "src" (getField profile "avatar" ≫= toString);;
  assignById "name" "textContent" (getField profile "name" ≫= toText);;
  assignById "title" "textContent" (getField profile "title" ≫= toText);;
  assignById "intro" "textContent" (getField profile "intro" ≫= toText);;
  btns ← gets (fun s => item (heroBtns (markup s)) HeroBtn);
  lang ← gets currentLang;
  if String.eqb lang "cn" then
    setProp (btns 0) "textContent" "查看项目";;
    setProp (btns 1) "textContent" "联系我"
  else
    setProp (btns 0) "textContent" "View Projects";;
    setProp (btns 1) "textContent" "Contact Me".

Definition tagSpan (tag : value) : outcome string :=
  _ ← toString tag;
  Ok (cat [qq ["<span class="; "tag"; ">"]; toStr tag; "</span>"]).

Definition renderAbout : M unit :=
  data ← gets appData;
  profile ← liftO (getField data "profile");
  assignById "bio" "textContent" (getField profile "bio" ≫= toText);;
  tagsHTML ← liftO (tags ← getField profile "tags"; mapJoin tags tagSpan);
  assignById "tags" "innerHTML" (Ok tagsHTML).

Definition techTag (tech : value) : outcome string :=
  _ ← toString tech;
  Ok (cat [qq ["<span class="; "tech-tag"; ">"]; toStr tech; "</span>"]).

Definition skillCard (skill : value) : outcome string :=
  icon ← substituted skill "icon";
  category ← substituted skill "category";
  level ← substituted skill "level";
  proficiency ← substituted skill "proficiency";
  description ← substituted skill "description";
  technologies ← getField skill "technologies";
  techHTML ← mapJoin technologies techTag;
  Ok (cat [qq ["
    <div class="; "skill-card"; ">
      <div class="; "skill-header"; ">
        <div class="; "skill-icon"; ">
          <ion-icon name="; EmptyString];
       toStr icon;
       qq [EmptyString; "></ion-icon>
        </div>
        <div class="; "skill-title"; ">
          <div class="; "skill-name"; ">"];
       toStr category;
       qq ["</div>
          <div class="; "skill-level"; ">"];
       toStr level;
       qq ["</div>
        </div>
      </div>
      <div class="; "skill-progress"; ">
        <div class="; "skill-progress-bar"; " data-progress="; EmptyString];
       toStr proficiency;
       qq [EmptyString; " style="; "width: 0%"; "></div>
      </div>
      <div class="; "skill-description"; ">"];
       toStr description;
       qq ["</div>
      <div class="; "skill-technologies"; ">
        "];
       techHTML;
       "
      </div>
    </div>
  "]).

(** The progress-bar animation is scheduled here; its callback runs after
    the render pass and is outside the modelled functions. *)
Definition renderSkills : M unit :=
  data ← gets appData;
  skills ← liftO (getField data "skills");
  skillsHTML ← liftO (mapJoin skills skillCard);
  assignById "skills-grid" "innerHTML" (Ok skillsHTML);;
  setTimeout AnimateProgressBars 100.

Definition respItem (resp : value) : outcome string :=
  _ ← toString resp;
  Ok (cat ["<li>"; toStr resp; "</li>"]).

(** The interpolation [project.responsibilities ? `...` : ''] *)
Definition responsibilitiesBlock (lang : string) (project : value) : outcome string :=
  r ← getField project "responsibilities";
  if truthy r then
    responsibilities ← getField project "responsibilities";
    items ← mapJoin responsibilities respItem;
    Ok (cat [qq ["
        <div class="; "project-responsibilities"; ">
          <h4>"];
       if String.eqb lang "cn" then "职责：" else "Responsibilities:";
       "</h4>
          <ul>
            ";
       items;
       "
          </ul>
        </div>
      "])
  else Ok EmptyString.

(** The interpolation [project.achievements ? `...` : ''] *)
Definition achievementsBlock (lang : string) (project : value) : outcome string :=
  a ← getField project "achievements";
  if truthy a then
    achievements ← substituted project "achievements";
    Ok (cat [qq ["
        <div class="; "project-achievements"; ">
          <h4>"];
       if String.eqb lang "cn" then "成果：" else "Achievements:";
       "</h4>
          <p>";
       toStr achievements;
       "</p>
        </div>
      "])
  else Ok EmptyString.

Definition projectHead (link name company role period description : value) : string :=
  cat [qq ["
    <div class="; "project-card"; ">
      <div class="; "project-header"; ">
        <div>
          <a href="; EmptyString];
       toStr link;
       qq [EmptyString; " target="; "_blank"; " class="; "project-name"; ">
            "];
       toStr name;
       qq ["
          </a>
          <div class="; "project-meta"; ">
            <span>
              <ion-icon name="; "business-outline"; "></ion-icon>
              "];
       toStr company;
       qq ["
            </span>
            <span>
              <ion-icon name="; "person-outline"; "></ion-icon>
              "];
       toStr role;
       qq ["
            </span>
          </div>
        </div>
        <div class="; "project-period"; ">"];
       toStr period;
       qq ["</div>
      </div>

      <div class="; "project-description"; ">"];
       toStr description;
       "</div>

      "].

Definition projectMid : string := "

      ".

Definition projectTail (techHTML : string) : string :=
  cat [qq ["

      <div class="; "project-technologies"; ">
        "];
       techHTML;
       "
      </div>
    </div>
  "].

(** One fragment of [projects.map(project => `...`)]: the template's chunks
    in order, [projectHead] up to the responsibilities interpolation,
    [projectMid] between the two optional blocks, [projectTail] after. *)
Definition projectCard (lang : string) (project : value) : outcome string :=
  link ← substituted project "link";
  name ← substituted project "name";
  company ← substituted project "company";
  role ← substituted project "role";
  period ← substituted project "period";
  description ← substituted project "description";
  respHTML ← responsibilitiesBlock lang project;
  achHTML ← achievementsBlock lang project;
  technologies ← getField project "technologies";
  techHTML ← mapJoin technologies techTag;
  Ok (cat [projectHead link name company role period description;
           respHTML; projectMid; achHTML; projectTail techHTML]).

Definition renderProjects : M unit :=
  data ← gets appData;
  projects ← liftO (getField data "projects");
  lang ← gets currentLang;
  projectsHTML ← liftO (mapJoin projects (projectCard lang));
  assignById "projects-timeline" "innerHTML" (Ok projectsHTML).

Definition educationItem (edu : value) : outcome string :=
  degree ← substituted edu "degree";
  university ← substituted edu "university";
  college ← substituted edu "college";
  major ← substituted edu "major";
  period ← substituted edu "period";
  Ok (cat [qq ["
    <div class="; "education-item"; ">
      <div class="; "education-header"; ">
        <div>
          <div class="; "education-degree"; ">"];
       toStr degree;
       " | ";
       toStr university;
       qq ["</div>
          <div class="; "education-university"; ">"];
       toStr college;
       qq ["</div>
          <div class="; "education-major"; ">"];
       toStr major;
       qq ["</div>
        </div>
        <div class="; "education-period"; ">"];
       toStr period;
       "</div>
      </div>
    </div>
  "]).

Definition campusItem (camp : value) : outcome string :=
  organization ← substituted camp "organization";
  d ← getField camp "department";
  departmentPart ←
    (if truthy d then
       department ← substituted camp "department";
       Ok (cat [" · "; toStr department])
     else Ok EmptyString);
  position ← substituted camp "position";
  period ← substituted camp "period";
  description ← substituted camp "description";
  Ok (cat [qq ["
    <div class="; "campus-item"; ">
      <div class="; "campus-header"; ">
        <div>
          <div class="; "campus-org"; ">"];
       toStr organization;
       departmentPart;
       qq ["</div>
          <div class="; "campus-position"; ">"];
       toStr position;
       qq ["</div>
        </div>
        <div class="; "campus-period"; ">"];
       toStr period;
       qq ["</div>
      </div>
      <div class="; "campus-description"; ">"];
       toStr description;
       "</div>
    </div>
  "]).

Definition renderEducation : M unit :=
  data ← gets appData;
  education ← liftO (getField data "education");
  educationHTML ← liftO (entries ← getField education "education";
                         mapJoin entries educationItem);
  assignById "education-list" "innerHTML" (Ok educationHTML);;
  campusHTML ← liftO (campus ← getField education "campus";
                      mapJoin campus campusItem);
  assignById "campus-list" "innerHTML" (Ok campusHTML);;
  hasTitle ← gets (fun s => subsectionTitle (markup s));
  lang ← gets currentLang;
  if (hasTitle : bool) then
    setProp (Some SubsectionTitle) "textContent"
      (if String.eqb lang "cn" then "校园经历" else "Campus Experience")
  else mret tt.

Definition otherItem (entry : string * value) : outcome string :=
  _ ← toString entry.2;
  Ok (cat [qq ["
    <div class="; "other-item"; ">
      <strong>"];
       entry.1;
       "</strong>
      <p>";
       toStr entry.2;
       "</p>
    </div>
  "]).

Definition renderContact : M unit :=
  data ← gets appData;
  profile ← liftO (getField data "profile");
  assignById "contact-email" "textContent"
    (contact ← getField profile "contact"; getField contact "email" ≫= toText);;
  assignById "contact-phone" "textContent"
    (contact ← getField profile "contact"; getField contact "phone" ≫= toText);;
  githubLink ← getElementById "contact-github";
  github ← liftO (contact ← getField profile "contact";
                  getField contact "github" ≫= toString);
  setProp githubLink "href" github;;
  setProp githubLink "textContent" "GGyongfeng";;
  websiteLink ← getElementById "contact-website";
  website ← liftO (contact ← getField profile "contact";
                   getField contact "website" ≫= toString);
  setProp websiteLink "href" website;;
  websiteText ← liftO (contact ← getField profile "contact";
                       website ← getField contact "website";
                       replaceHttps website);
  setProp websiteLink "textContent" websiteText;;
  titles ← gets (fun s => item (contactTitles (markup s)) ContactTitle);
  lang ← gets currentLang;
  (if String.eqb lang "cn" then
     setProp (titles 0) "textContent" "邮箱";;
     setProp (titles 1) "textContent" "电话";;
     setProp (titles 2) "textContent" "GitHub";;
     setProp (titles 3) "textContent" "网站"
   else
     setProp (titles 0) "textContent" "Email";;
     setProp (titles 1) "textContent" "Phone";;
     setProp (titles 2) "textContent" "GitHub";;
     setProp (titles 3) "textContent" "Website" : M unit);;
  other ← liftO (getField profile "other");
  let otherLabels :=
    if String.eqb lang "cn" then ["政治身份"; "个人优势"; "奖项荣誉"; "语言能力"]
    else ["Political Status"; "Strengths"; "Awards"; "Language"] in
  otherValues ← liftO (political ← getField other "political";
                       advantages ← getField other "advantages";
                       awards ← getField other "awards";
                       language ← getField other "language";
                       Ok [political; advantages; awards; language]);
  otherHTML ← liftO (cat <$> mapM otherItem (zip otherLabels otherValues));
  assignById "other-info" "innerHTML" (Ok otherHTML).

Definition renderFooter : M unit :=
  data ← gets appData;
  profile ← liftO (getField data "profile");
  assignById "footer-github" "href"
    (contact ← getField profile "contact"; getField contact "github" ≫= toString);;
  assignById "footer-website" "href"
    (contact ← getField profile "contact"; getField contact "website" ≫= toString).

Definition renderAll : M unit :=
  renderNav;;
  renderHero;;
  renderAbout;;
  renderSkills;;
  renderProjects;;
  renderEducation;;
  renderContact;;
  renderFooter.

(** ** Locale toggle *)

(** [try { body } catch (error) { handler } finally { fin }] *)
Definition tryCatchFinally (body : M unit) (handler : error -> M unit) (fin : M unit) : M unit :=
  fun s =>
    let '(r, s1) :=
      match body s with
      | (Ok a, s') => (Ok a, s')
      | (Throw e, s') => handler e s'
      end in
    match fin s1 with
    | (Ok _, s2) => (r, s2)
    | (Throw e, s2) => (Throw e, s2)
    end.

(** A write on the [#lang-toggle] button; the button missing, the write
    throws. *)
Definition onToggle (f : toggleCtl -> outcome toggleCtl) : M unit :=
  fun s =>
    match langToggle s with
    | None => (Throw TypeError, s)
    | Some c =>
        match f c with
        | Ok c' => (Ok tt, set_langToggle (Some c') s)
        | Throw e => (Throw e, s)
        end
    end.

Definition setDisabled (b : bool) (c : toggleCtl) : outcome toggleCtl :=
  Ok {| disabled := b; opacity := opacity c; langText := langText c |}.

Definition setOpacity (o : string) (c : toggleCtl) : outcome toggleCtl :=
  Ok {| disabled := disabled c; opacity := o; langText := langText c |}.

(** [langToggle.querySelector('.lang-text').textContent = t] *)
Definition setLangText (t : string) (c : toggleCtl) : outcome toggleCtl :=
  match langText c with
  | None => Throw TypeError
  | Some _ => Ok {| disabled := disabled c; opacity := opacity c; langText := Some t |}
  end.

Definition consoleError (msg : string) (e : error) : M unit :=
  modify (fun s => set_console ((console s ++ [(msg, e)])%list) s).

Definition alert (msg : string) : M unit :=
  modify (fun s => set_alerts ((alerts s ++ [msg])%list) s).

Definition switchFailedNotice : string := "切换语言失败 / Failed to switch language".

Definition otherLang (lang : string) : string :=
  if String.eqb lang "cn" then "en" else "cn".

Definition toggleLanguage (net : network) : M unit :=
  cur ← gets currentLang;
  let newLang := otherLang cur in
  onToggle (setDisabled true);;
  onToggle (setOpacity "0.5");;
  tryCatchFinally
    (loadLanguage net newLang;;
     renderAll;;
     onToggle (setLangText (if String.eqb newLang "cn" then "EN" else "中文")))
    (fun e =>
       consoleError "Failed to switch language:" e;;
       alert switchFailedNotice)
    (onToggle (setDisabled false);;
     onToggle (setOpacity "1")).

(** ** Active navigation link *)

(** [getAttribute]: [null] when the attribute is missing. *)
Definition attr (a : option string) : value :=
  match a with
  | Some s => VStr s
  | None => VNull
  end.

(** [a === b] for an attribute value and a string. *)
Definition strictEqStr (a : value) (b : string) : bool :=
  match a with
  | VStr s => String.eqb s b
  | _ => false
  end.

Definition lookahead : Z := 100.

(** The [sections.forEach] pass: the local [current] after the loop. *)
Definition currentSection (y : Z) (secs : list section) : value :=
  foldl (fun current sec =>
           if (y >=? offsetTop sec - lookahead)%Z then attr (sectionId sec)
           else current)
        (VStr EmptyString) secs.

Definition classListRemove (i : nat) (token : string) : M unit :=
  modify (fun s =>
    set_navClasses
      (<[i := filter (fun c => c ≠ token) (default [] (navClasses s !! i))]> (navClasses s)) s).

Definition classListAdd (i : nat) (token : string) : M unit :=
  modify (fun s =>
    let cl := default [] (navClasses s !! i) in
    set_navClasses
      (<[i := if decide (token ∈ cl) then cl else (cl ++ [token])%list]> (navClasses s)) s).

Definition updateActiveNavLink : M unit :=
  secs ← gets (fun s => sections (markup s));
  links ← gets (fun s => imap pair (navLinks (markup s)));
  y ← gets scrollY;
  let current := currentSection y secs in
  forEach links (fun '(i, link) =>
    classListRemove i "active";;
    if strictEqStr (attr (href link)) (cat ["#"; toStr current])
    then classListAdd i "active"
    else mret tt).

(** ** The document shape of the data model, as the specification words it:
    a tree-shaped document with the required top-level fields [nav],
    [profile], [skills], [projects] and [education]. *)
Definition spec_documentShape (v : value) : bool :=
  match v with
  | VObj fields =>
      forallb (fun k => bool_decide (is_Some (assoc k fields)))
              ["nav"; "profile"; "skills"; "projects"; "education"]
  | _ => false
  end.

(** The failure condition of the loader as the specification words it: the
    request does not succeed, or the body is not parseable as the expected
    document shape. *)
Definition spec_loadFails (r : fetchResult) : Prop :=
  match r with
  | NetworkFailure => True
  | Response o body =>
      o = false ∨ ¬ ∃ v, body = Some v ∧ spec_documentShape v = true
  end.

(** The failure condition the loader implements. *)
Definition loadFails (r : fetchResult) : Prop :=
  match r with
  | NetworkFailure => True
  | Response o body => o = false ∨ body = None
  end.

(** ** Sample pages and data sets *)

Definition sampleLayout : layout := {|
  ids := list_to_set
    ["avatar"; "name"; "title"; "intro"; "bio"; "tags"; "skills-grid";
     "projects-timeline"; "education-list"; "campus-list"; "contact-email";
     "contact-phone"; "contact-github"; "contact-website"; "other-info";
     "footer-github"; "footer-website"];
  navLinks :=
    [ {| dataNav := Some "home"; href := Some "#hero" |};
      {| dataNav := Some "about"; href := Some "#about" |};
      {| dataNav := Some "skills"; href := Some "#skills" |} ];
  heroBtns := 2;
  contactTitles := 4;
  subsectionTitle := true;
  sections :=
    [ {| offsetTop := 0; clientHeight := 500; sectionId := Some "hero" |};
      {| offsetTop := 500; clientHeight := 700; sectionId := Some "about" |};
      {| offsetTop := 1200; clientHeight := 800; sectionId := Some "skills" |} ]
|}.

Definition sampleToggle : toggleCtl :=
  {| disabled := false; opacity := "1"; langText := Some "EN" |}.

(** The page as first served: nothing loaded, default locale, the nav links
    carrying the text of the markup. *)
Definition samplePage : state := {|
  appData := VNull;
  currentLang := "cn";
  htmlLang := "zh-CN";
  markup := sampleLayout;
  props := list_to_map
    [ ((NavLink 0, "textContent"), "首页");
      ((NavLink 1, "textContent"), "关于");
      ((NavLink 2, "textContent"), "技能") ];
  navClasses := ∅;
  langToggle := Some sampleToggle;
  scrollY := 0;
  alerts := [];
  console := [];
  timers := []
|}.

Definition sampleProject (extra : list (string * value)) : value :=
  VObj ([ ("name", VStr "Portal"); ("link", VStr "https://example.org/portal");
          ("company", VStr "ACME"); ("role", VStr "Developer");
          ("period", VStr "2023"); ("description", VStr "Internal portal");
          ("technologies", VArr [VStr "Vue"; VStr "Go"]) ] ++ extra)%list.

Definition sampleData (home : string) (name : string) : value :=
  VObj
    [ ("nav", VObj [ ("home", VStr home); ("about", VStr "About"); ("skills", VStr "Skills") ]);
      ("profile",
        VObj [ ("name", VStr name); ("title", VStr "Engineer");
               ("intro", VStr "Hello"); ("bio", VStr "Bio");
               ("avatar", VStr "assets/avatar.png");
               ("tags", VArr [VStr "web"; VStr "systems"]);
               ("contact",
                 VObj [ ("email", VStr "me@example.org"); ("phone", VStr "000");
                        ("github", VStr "https://github.com/GGyongfeng");
                        ("website", VStr "https://example.org") ]);
               ("other",
                 VObj [ ("political", VStr "p"); ("advantages", VStr "a");
                        ("awards", VStr "w"); ("language", VStr "l") ]) ]);
      ("skills",
        VArr [ VObj [ ("category", VStr "Frontend"); ("level", VStr "Advanced");
                      ("proficiency", VNum 90); ("icon", VStr "code-outline");
                      ("description", VStr "UI work");
                      ("technologies", VArr [VStr "Vue"]) ] ]);
      ("projects",
        VArr [ sampleProject [ ("responsibilities", VArr [VStr "Design"]);
                               ("achievements", VStr "Shipped") ];
               sampleProject [] ]);
      ("education",
        VObj [ ("education",
                 VArr [ VObj [ ("degree", VStr "BSc"); ("university", VStr "U");
                               ("college", VStr "C"); ("major", VStr "CS");
                               ("period", VStr "2019-2023") ] ]);
               ("campus",
                 VArr [ VObj [ ("organization", VStr "Union");
                               ("department", VStr "Tech");
                               ("position", VStr "Lead"); ("period", VStr "2021");
                               ("description", VStr "Ran events") ] ]) ]) ].

(** A page with one nav link whose [data-nav] key, [constructor], is not
    an entry of the [nav] mapping of the loaded data set. *)
Definition sampleForeignKey : state := {|
  appData := VObj [ ("nav", VObj [ ("home", VStr "Home") ]) ];
  currentLang := "en";
  htmlLang := "en";
  markup := {| ids := ∅;
               navLinks := [ {| dataNav := Some "constructor"; href := Some "#hero" |} ];
               heroBtns := 0; contactTitles := 0; subsectionTitle := false;
               sections := [] |};
  props := {[ (NavLink 0, "textContent") := "Home" ]};
  navClasses := ∅;
  langToggle := None;
  scrollY := 0;
  alerts := [];
  console := [];
  timers := []
|}.

(** A server that answers every request with the same response. *)
Definition always (r : fetchResult) : network := fun _ => r.

(** A server with one document per locale file. *)
Definition serving (cn en : value) : network := fun file =>
  if String.eqb file (dataFileOf "cn") then Response true (Some cn)
  else if String.eqb file (dataFileOf "en") then Response true (Some en)
  else Response false None.

(** * Notions used in the statements and proofs *)

(** A section qualifies when the scroll position has reached its top
    offset less the lookahead. *)
Definition qualifies (y : Z) (sec : section) : bool :=
  (y >=? offsetTop sec - lookahead)%Z.

(** The class list of a nav link after the [navLinks.forEach] pass. *)
Definition activeClassList (current : value) (link : navLink) (cl : list string) : list string :=
  let cl' := filter (fun c => c ≠ "active") cl in
  if strictEqStr (attr (href link)) (cat ["#"; toStr current])
  then (if decide ("active" ∈ cl') then cl' else (cl' ++ ["active"])%list)
  else cl'.

Definition classesOf (s : state) (i : nat) : list string :=
  default [] (navClasses s !! i).

(** A render function reads the active data set, the active locale and the
    markup, and its only effects are assignments to the DOM store and timer
    registrations.  [RendAt s T m] records this for [m] run from any state
    with the data, locale and markup of [s]: the run amounts to a fixed list
    of writes, on targets among [T], and on all of [T] when it completes. *)

Abbreviation target := (node * string)%type.
Abbreviation write := (target * string)%type.

(** The store after a list of assignments, in order. *)
Definition applyWrites (ws : list write) (p : store) : store :=
  foldl (fun p w => <[w.1 := w.2]> p) p ws.

(** The state after a list of assignments and timer registrations. *)
Definition commit (ws : list write) (tm : list (nat * task)) (s : state) : state :=
  set_timers ((timers s ++ tm)%list) (set_props (applyWrites ws (props s)) s).

(** Two states with the same data set, locale and markup. *)
Definition sameView (s t : state) : Prop :=
  appData s = appData t ∧ currentLang s = currentLang t ∧ markup s = markup t.

Definition RendAt {A : Type} (s : state) (T : list target) (m : M A) : Prop :=
  ∃ ws tm o,
    (∀ t, sameView s t -> m t = (o, commit ws tm t))
    ∧ ws.*1 ⊆ T
    ∧ ((∃ a, o = Ok a) -> T ⊆ ws.*1).

Definition nullish (v : value) : bool :=
  match v with
  | VUndefined | VNull => true
  | _ => false
  end.

(** The text a link receives from the [nav] mapping, if any. *)
Definition navText (nav : value) (link : navLink) : option string :=
  match getField nav (propKey (dataNav link)) with
  | Ok v => if truthy v then Some (textOf v) else None
  | Throw _ => None
  end.

(** The assignments of a complete [navLinks.forEach] pass of [renderNav],
    for the links [l] numbered from [k]. *)
Definition navWrites (nav : value) (k : nat) (l : list navLink) : list write :=
  omap (fun '(i, link) => (fun t => ((NavLink i, "textContent"), t)) <$> navText nav link)
       (imap (fun i x => (k + i, x)) l).

(** The value a property read yields on a value that can be read. *)
Definition fieldOf (v : value) (k : string) : value :=
  match getField v k with
  | Ok x => x
  | Throw _ => VUndefined
  end.

(** The label a link takes from the [nav] mapping, if it takes one, can
    be converted to text. *)
Definition navConverts (nav : value) (link : navLink) : bool :=
  let v := fieldOf nav (propKey (dataNav link)) in
  negb (truthy v) || converts v.

(** The links the pass handles: those before the first one whose label
    cannot be converted. *)
Fixpoint navHandled (nav : value) (l : list navLink) : list navLink :=
  match l with
  | [] => []
  | link :: rest => if navConverts nav link then link :: navHandled nav rest else []
  end.

(** How the pass ends. *)
Definition navOutcome (nav : value) (l : list navLink) : outcome unit :=
  match l with
  | [] => Ok tt
  | _ => if nullish nav then Throw TypeError
         else if forallb (navConverts nav) l then Ok tt
         else Throw TypeError
  end.

Definition navTargets (data : value) (mk : layout) : list target :=
  match getField data "nav" with
  | Ok nav => (navWrites nav 0 (navLinks mk)).*1
  | Throw _ => []
  end.

(** The targets each render function assigns when it completes. *)
Definition tc : string := "textContent".

Definition heroTargets : list target :=
  [ (ById "avatar", "src"); (ById "name", tc); (ById "title", tc);
    (ById "intro", tc); (HeroBtn 0, tc); (HeroBtn 1, tc) ].

Definition aboutTargets : list target :=
  [ (ById "bio", tc); (ById "tags", "innerHTML") ].

Definition skillsTargets : list target := [ (ById "skills-grid", "innerHTML") ].

Definition projectsTargets : list target := [ (ById "projects-timeline", "innerHTML") ].

Definition educationTargets (mk : layout) : list target :=
  [ (ById "education-list", "innerHTML"); (ById "campus-list", "innerHTML") ]
  ++ (if subsectionTitle mk then [ (SubsectionTitle, tc) ] else []).

Definition contactTargets : list target :=
  [ (ById "contact-email", tc); (ById "contact-phone", tc);
    (ById "contact-github", "href"); (ById "contact-github", tc);
    (ById "contact-website", "href"); (ById "contact-website", tc);
    (ContactTitle 0, tc); (ContactTitle 1, tc); (ContactTitle 2, tc);
    (ContactTitle 3, tc); (ById "other-info", "innerHTML") ].

Definition footerTargets : list target :=
  [ (ById "footer-github", "href"); (ById "footer-website", "href") ].

(** The targets of a render pass that do not depend on the data set. *)
Definition fixedTargets (mk : layout) : list target :=
  heroTargets ++ aboutTargets ++ skillsTargets ++ projectsTargets
  ++ educationTargets mk ++ contactTargets ++ footerTargets.

Definition renderTargets (data : value) (mk : layout) : list target :=
  navTargets data mk ++ fixedTargets mk.

(** The entry has the field, as a key of the JSON object. *)
Definition hasField (k : string) (v : value) : bool :=
  match v with
  | VObj fields => bool_decide (is_Some (assoc k fields))
  | _ => false
  end.

Fixpoint contains (pat s : string) : bool :=
  String.prefix pat s ||
  match s with
  | EmptyString => false
  | String _ rest => contains pat rest
  end.

(** The opening tags of the two optional blocks. *)
Definition respMarker : string := qq ["<div class="; "project-responsibilities"; ">"].
Definition achMarker : string := qq ["<div class="; "project-achievements"; ">"].

(** The first literal chunk of each optional block. *)
Definition respOpen : string := qq ["
        <div class="; "project-responsibilities"; ">
          <h4>"].
Definition achOpen : string := qq ["
        <div class="; "project-achievements"; ">
          <h4>"].


(** The button as [toggleLanguage] leaves it, while it loads, and the state
    right after a successful load. *)
Definition enabled (c : toggleCtl) (label : option string) : toggleCtl :=
  {| disabled := false; opacity := "1"; langText := label |}.

Definition busy (c : toggleCtl) : toggleCtl :=
  {| disabled := true; opacity := "0.5"; langText := langText c |}.

Definition loaded (data : value) (lang : string) (s : state) : state :=
  set_htmlLang (if String.eqb lang "cn" then "zh-CN" else "en")
    (set_currentLang lang (set_appData data s)).

(** A nav link takes a label from the data set: its key has a truthy entry
    in the [nav] mapping. *)
Definition navLabelled (data : value) (link : navLink) : Prop :=
  ∃ nav v, getField data "nav" = Ok nav
           ∧ getField nav (propKey (dataNav link)) = Ok v
           ∧ truthy v = true.

(** ** What a render pass needs and what it assigns

    For each render function: the test that decides whether it runs to its
    end ([...Ready], a conjunction over the data set and the markup) and
    the assignments it then makes, in order ([...Writes]). *)

Definition isOk {A : Type} (o : outcome A) : bool :=
  match o with
  | Ok _ => true
  | Throw _ => false
  end.

Definition okVal (o : outcome string) : string :=
  match o with
  | Ok x => x
  | Throw _ => EmptyString
  end.

Definition hasId (mk : layout) (id : string) : bool := bool_decide (id ∈ ids mk).

(** A value a property can be read from: neither [null] nor [undefined]. *)
Definition readable (v : value) : bool := negb (nullish v).

Definition isCn (lang : string) : bool := String.eqb lang "cn".

Definition assign (k : target) (v : string) (s : state) : state :=
  set_props (<[k := v]> (props s)) s.

Definition navReady (data : value) (mk : layout) : bool :=
  readable data
  && match navLinks mk with
     | [] => true
     | _ => readable (fieldOf data "nav")
     end
  && forallb (navConverts (fieldOf data "nav")) (navLinks mk).

Definition navWritesOf (data : value) (mk : layout) : list write :=
  navWrites (fieldOf data "nav") 0 (navLinks mk).

Definition heroReady (data : value) (mk : layout) : bool :=
  let profile := fieldOf data "profile" in
  readable data
  && readable profile
  && converts (fieldOf profile "avatar") && hasId mk "avatar"
  && converts (fieldOf profile "name") && hasId mk "name"
  && converts (fieldOf profile "title") && hasId mk "title"
  && converts (fieldOf profile "intro") && hasId mk "intro"
  && bool_decide (0 < heroBtns mk)%nat && bool_decide (1 < heroBtns mk)%nat.

Definition heroWrites (data : value) (lang : string) : list write :=
  let profile := fieldOf data "profile" in
  [ ((ById "avatar", "src"), toStr (fieldOf profile "avatar"));
    ((ById "name", tc), textOf (fieldOf profile "name"));
    ((ById "title", tc), textOf (fieldOf profile "title"));
    ((ById "intro", tc), textOf (fieldOf profile "intro"));
    ((HeroBtn 0, tc), if isCn lang then "查看项目" else "View Projects");
    ((HeroBtn 1, tc), if isCn lang then "联系我" else "Contact Me") ].

Definition aboutReady (data : value) (mk : layout) : bool :=
  let profile := fieldOf data "profile" in
  readable data
  && readable profile
  && converts (fieldOf profile "bio") && hasId mk "bio"
  && isOk (mapJoin (fieldOf profile "tags") tagSpan)
  && hasId mk "tags".

Definition aboutWrites (data : value) : list write :=
  let profile := fieldOf data "profile" in
  [ ((ById "bio", tc), textOf (fieldOf profile "bio"));
    ((ById "tags", "innerHTML"), okVal (mapJoin (fieldOf profile "tags") tagSpan)) ].

Definition skillsReady (data : value) (mk : layout) : bool :=
  readable data
  && isOk (mapJoin (fieldOf data "skills") skillCard)
  && hasId mk "skills-grid".

Definition skillsWrites (data : value) : list write :=
  [ ((ById "skills-grid", "innerHTML"), okVal (mapJoin (fieldOf data "skills") skillCard)) ].

Definition projectsReady (data : value) (lang : string) (mk : layout) : bool :=
  readable data
  && isOk (mapJoin (fieldOf data "projects") (projectCard lang))
  && hasId mk "projects-timeline".

Definition projectsWrites (data : value) (lang : string) : list write :=
  [ ((ById "projects-timeline", "innerHTML"),
     okVal (mapJoin (fieldOf data "projects") (projectCard lang))) ].

Definition educationReady (data : value) (mk : layout) : bool :=
  let education := fieldOf data "education" in
  readable data
  && readable education
  && isOk (mapJoin (fieldOf education "education") educationItem)
  && hasId mk "education-list"
  && isOk (mapJoin (fieldOf education "campus") campusItem)
  && hasId mk "campus-list".

Definition educationWrites (data : value) (lang : string) (mk : layout) : list write :=
  let education := fieldOf data "education" in
  [ ((ById "education-list", "innerHTML"),
     okVal (mapJoin (fieldOf education "education") educationItem));
    ((ById "campus-list", "innerHTML"),
     okVal (mapJoin (fieldOf education "campus") campusItem)) ]
  ++ (if subsectionTitle mk
      then [ ((SubsectionTitle, tc), if isCn lang then "校园经历" else "Campus Experience") ]
      else []).

Definition contactReady (data : value) (mk : layout) : bool :=
  let profile := fieldOf data "profile" in
  let contact := fieldOf profile "contact" in
  let other := fieldOf profile "other" in
  readable data
  && readable profile
  && readable contact
  && converts (fieldOf contact "email") && hasId mk "contact-email"
  && converts (fieldOf contact "phone") && hasId mk "contact-phone"
  && converts (fieldOf contact "github") && hasId mk "contact-github"
  && converts (fieldOf contact "website") && hasId mk "contact-website"
  && isOk (replaceHttps (fieldOf contact "website"))
  && bool_decide (0 < contactTitles mk)%nat && bool_decide (1 < contactTitles mk)%nat
  && bool_decide (2 < contactTitles mk)%nat && bool_decide (3 < contactTitles mk)%nat
  && readable other
  && forallb converts [ fieldOf other "political"; fieldOf other "advantages";
                        fieldOf other "awards"; fieldOf other "language" ]
  && hasId mk "other-info".

Definition otherLabelsOf (lang : string) : list string :=
  if isCn lang then ["政治身份"; "个人优势"; "奖项荣誉"; "语言能力"]
  else ["Political Status"; "Strengths"; "Awards"; "Language"].

Definition contactWrites (data : value) (lang : string) : list write :=
  let profile := fieldOf data "profile" in
  let contact := fieldOf profile "contact" in
  let other := fieldOf profile "other" in
  [ ((ById "contact-email", tc), textOf (fieldOf contact "email"));
    ((ById "contact-phone", tc), textOf (fieldOf contact "phone"));
    ((ById "contact-github", "href"), toStr (fieldOf contact "github"));
    ((ById "contact-github", tc), "GGyongfeng");
    ((ById "contact-website", "href"), toStr (fieldOf contact "website"));
    ((ById "contact-website", tc), okVal (replaceHttps (fieldOf contact "website")));
    ((ContactTitle 0, tc), if isCn lang then "邮箱" else "Email");
    ((ContactTitle 1, tc), if isCn lang then "电话" else "Phone");
    ((ContactTitle 2, tc), "GitHub");
    ((ContactTitle 3, tc), if isCn lang then "网站" else "Website");
    ((ById "other-info", "innerHTML"),
     okVal (cat <$> mapM otherItem
                      (zip (otherLabelsOf lang)
                           [ fieldOf other "political"; fieldOf other "advantages";
                             fieldOf other "awards"; fieldOf other "language" ]))) ].

Definition footerReady (data : value) (mk : layout) : bool :=
  let profile := fieldOf data "profile" in
  let contact := fieldOf profile "contact" in
  readable data
  && readable profile
  && readable contact
  && converts (fieldOf contact "github") && hasId mk "footer-github"
  && converts (fieldOf contact "website") && hasId mk "footer-website".

Definition footerWrites (data : value) : list write :=
  let contact := fieldOf (fieldOf data "profile") "contact" in
  [ ((ById "footer-github", "href"), toStr (fieldOf contact "github"));
    ((ById "footer-website", "href"), toStr (fieldOf contact "website")) ].

Definition renderReady (data : value) (lang : string) (mk : layout) : bool :=
  navReady data mk
  && (heroReady data mk
  && (aboutReady data mk
  && (skillsReady data mk
  && (projectsReady data lang mk
  && (educationReady data mk
  && (contactReady data mk
  && footerReady data mk)))))).

(** The assignments of a complete render pass to the targets other than
    the nav links, and all of them. *)
Definition fixedWrites (data : value) (lang : string) (mk : layout) : list write :=
  heroWrites data lang ++ aboutWrites data ++ skillsWrites data
  ++ projectsWrites data lang ++ educationWrites data lang mk
  ++ contactWrites data lang ++ footerWrites data.

Definition renderWrites (data : value) (lang : string) (mk : layout) : list write :=
  navWritesOf data mk ++ fixedWrites data lang mk.

(** How a pass runs from [s]: to its end with the assignments [ws] and the
    timers [tm] when [ready], and otherwise to a throw after a prefix of
    them. *)
Definition passRuns (m : M unit) (s : state) (ready : bool)
    (ws : list write) (tm : list (nat * task)) : Prop :=
  if ready then m s = (Ok tt, commit ws tm s)
  else ∃ e ws' tm', m s = (Throw e, commit ws' tm' s)
                    ∧ ws' `prefix_of` ws ∧ tm' `prefix_of` tm.

(** The element ids the render passes assign to. *)
Definition requiredIds : list string :=
  [ "avatar"; "name"; "title"; "intro"; "bio"; "tags"; "skills-grid";
    "projects-timeline"; "education-list"; "campus-list"; "contact-email";
    "contact-phone"; "contact-github"; "contact-website"; "other-info";
    "footer-github"; "footer-website" ].

Definition isArray (v : value) : bool :=
  match v with
  | VArr _ => true
  | _ => false
  end.


(** The sample page with the English sample data loaded, and with a data
    set that has a profile without tags. *)
Definition sampleLoaded : state := loaded (sampleData "Home" "Ann") "en" samplePage.

Definition sampleTruncated : state :=
  loaded (VObj [ ("nav", VObj [ ("home", VStr "Home") ]);
                 ("profile", VObj [ ("name", VStr "Ann") ]) ]) "en" samplePage.

(** * The page around the render targets: overlay, menu, listeners and
    appearance animation

    The start-up handler, [hideLoading], [initializeEventListeners], the
    listeners it registers and [addScrollAnimations] work on parts of the
    page the functions above do not touch.  [page] adds them to [state]:
    the class lists of the elements found by id, the inline styles of the
    [.section] elements, the targets handed to the intersection observer,
    the registered listeners and the timers of [hideLoading], which are
    kept apart from the timers of [renderSkills].  The [#lang-toggle]
    button is in the page when [langToggle] holds it.  The listener of the
    in-page anchors is registered; its body (selector lookup and smooth
    scrolling) is the browser's and is not modelled.  The browser provides
    [IntersectionObserver]; an observer entry is its target and its
    [isIntersecting] flag. *)

(** A [classList]: an ordered set of tokens. *)
Definition tokensAdd (token : string) (cl : list string) : list string :=
  if decide (token ∈ cl) then cl else (cl ++ [token])%list.

Definition tokensRemove (token : string) (cl : list string) : list string :=
  filter (fun c => c ≠ token) cl.

Definition tokensToggle (token : string) (cl : list string) : list string :=
  if decide (token ∈ cl) then tokensRemove token cl else (cl ++ [token])%list.

(** What a listener is registered on. *)
Inductive eventTarget :=
  | OnElement (id : string)
  | OnNavLink (i : nat)
  | OnWindow
  | OnAnchor (i : nat).

(** The registered functions; a closure carries the elements it captured. *)
Inductive listener :=
  | ToggleLanguage
  | ToggleMenu (navToggle navMenu : option string)
  | CloseMenu (navToggle navMenu : option string)
  | ScrollStyling
  | SmoothScroll.

Global Instance eventTarget_eq_dec : EqDecision eventTarget.
Proof. solve_decision. Defined.

Global Instance listener_eq_dec : EqDecision listener.
Proof. solve_decision. Defined.

Abbreviation registration := (eventTarget * string * listener)%type.

Record page := {
  core : state;
  anchors : nat;                          (* querySelectorAll('a[href^="#"]') *)
  sectionEls : nat;                       (* querySelectorAll('.section') *)
  classes : gmap string (list string);    (* classList of the elements found by id *)
  styles : gmap (nat * string) string;    (* style properties of the .section elements *)
  observed : list nat;                    (* observer.observe(section) *)
  listeners : list registration;
  overlayTimers : list (nat * option string)  (* delay and captured element *)
}.

Definition set_core (s : state) (p : page) : page :=
  {| core := s; anchors := anchors p; sectionEls := sectionEls p;
     classes := classes p; styles := styles p; observed := observed p;
     listeners := listeners p; overlayTimers := overlayTimers p |}.

Definition set_classes (c : gmap string (list string)) (p : page) : page :=
  {| core := core p; anchors := anchors p; sectionEls := sectionEls p;
     classes := c; styles := styles p; observed := observed p;
     listeners := listeners p; overlayTimers := overlayTimers p |}.

Definition set_styles (st : gmap (nat * string) string) (p : page) : page :=
  {| core := core p; anchors := anchors p; sectionEls := sectionEls p;
     classes := classes p; styles := st; observed := observed p;
     listeners := listeners p; overlayTimers := overlayTimers p |}.

Definition set_observed (o : list nat) (p : page) : page :=
  {| core := core p; anchors := anchors p; sectionEls := sectionEls p;
     classes := classes p; styles := styles p; observed := o;
     listeners := listeners p; overlayTimers := overlayTimers p |}.

Definition set_listeners (l : list registration) (p : page) : page :=
  {| core := core p; anchors := anchors p; sectionEls := sectionEls p;
     classes := classes p; styles := styles p; observed := observed p;
     listeners := l; overlayTimers := overlayTimers p |}.

Definition set_overlayTimers (t : list (nat * option string)) (p : page) : page :=
  {| core := core p; anchors := anchors p; sectionEls := sectionEls p;
     classes := classes p; styles := styles p; observed := observed p;
     listeners := listeners p; overlayTimers := t |}.

(** Statements over the page; a throw keeps the page reached so far. *)
Definition MP (A : Type) : Type := page -> outcome A * page.

Global Instance MP_ret : MRet MP := fun _ a p => (Ok a, p).
Global Instance MP_bind : MBind MP := fun _ _ f m p =>
  match m p with
  | (Ok a, p') => f a p'
  | (Throw e, p') => (Throw e, p')
  end.

(** A statement of the functions above, run on the page. *)
Definition onCore {A} (m : M A) : MP A := fun p =>
  match m (core p) with
  | (o, s) => (o, set_core s p)
  end.

Definition throwP {A} (e : error) : MP A := fun p => (Throw e, p).
Definition getsP {A} (f : page -> A) : MP A := fun p => (Ok (f p), p).
Definition modifyP (f : page -> page) : MP unit := fun p => (Ok tt, f p).

Fixpoint forEachP {A : Type} (l : list A) (f : A -> MP unit) : MP unit :=
  match l with
  | [] => mret tt
  | x :: rest => f x;; forEachP rest f
  end.

(** [try { body } catch (error) { handler }] *)
Definition tryCatch (body : MP unit) (handler : error -> MP unit) : MP unit :=
  fun p =>
    match body p with
    | (Ok a, p') => (Ok a, p')
    | (Throw e, p') => handler e p'
    end.

(** [document.getElementById(id)] for an element addressed by its id. *)
Definition elementById (id : string) : MP (option string) :=
  getsP (fun p => if decide (id ∈ ids (markup (core p))) then Some id else None).

(** A [classList] method on an element; on [null] the call throws. *)
Definition onClassList (el : option string) (f : list string -> list string) : MP unit :=
  match el with
  | None => throwP TypeError
  | Some id =>
      modifyP (fun p =>
        set_classes (<[id := f (default [] (classes p !! id))]> (classes p)) p)
  end.

(** [target.addEventListener(type, f)]: on [null] the call throws; a
    function already registered on the target for the type is not
    registered again, and every evaluation of a function expression is a
    function of its own. *)
Definition addEventListener (target : option eventTarget) (type : string)
    (f : listener) : MP unit :=
  match target with
  | None => throwP TypeError
  | Some t =>
      modifyP (fun p =>
        if decide (f = ToggleLanguage ∧ (t, type, f) ∈ listeners p) then p
        else set_listeners ((listeners p ++ [(t, type, f)])%list) p)
  end.

Definition hideLoading : MP unit :=
  loading ← elementById "loading";
  modifyP (fun p => set_overlayTimers ((overlayTimers p ++ [(300, loading)])%list) p).

(** The function [hideLoading] hands to [setTimeout]. *)
Definition overlayTimeout (loading : option string) : MP unit :=
  onClassList loading (tokensAdd "hidden").

(** The click listener of [#nav-toggle]. *)
Definition toggleMenu (navToggle navMenu : option string) : MP unit :=
  onClassList navToggle (tokensToggle "active");;
  onClassList navMenu (tokensToggle "active").

(** The click listener of a nav link. *)
Definition closeMenu (navToggle navMenu : option string) : MP unit :=
  onClassList navToggle (tokensRemove "active");;
  onClassList navMenu (tokensRemove "active").

(** The scroll listener of the window. *)
Definition onScroll : MP unit :=
  nav ← elementById "nav";
  y ← onCore (gets scrollY);
  (if (y >? 50)%Z then onClassList nav (tokensAdd "scrolled")
   else onClassList nav (tokensRemove "scrolled"));;
  onCore updateActiveNavLink.

Definition initializeEventListeners : MP unit :=
  langToggle ← getsP (fun p => match langToggle (core p) with
                               | Some _ => Some "lang-toggle"
                               | None => None
                               end);
  addEventListener (OnElement <$> langToggle) "click" ToggleLanguage;;
  navToggle ← elementById "nav-toggle";
  navMenu ← elementById "nav-menu";
  addEventListener (OnElement <$> navToggle) "click" (ToggleMenu navToggle navMenu);;
  links ← getsP (fun p => imap pair (navLinks (markup (core p))));
  forEachP links (fun '(i, link) =>
    addEventListener (Some (OnNavLink i)) "click" (CloseMenu navToggle navMenu));;
  addEventListener (Some OnWindow) "scroll" ScrollStyling;;
  n ← getsP anchors;
  forEachP (seq 0 n) (fun i =>
    addEventListener (Some (OnAnchor i)) "click" SmoothScroll).

Definition setStyle (i : nat) (prop v : string) : MP unit :=
  modifyP (fun p => set_styles (<[(i, prop) := v]> (styles p)) p).

Definition observe (i : nat) : MP unit :=
  modifyP (fun p => set_observed ((observed p ++ [i])%list) p).

(** The callback of the intersection observer; an entry is a target and
    its [isIntersecting]. *)
Definition onIntersection (entries : list (nat * bool)) : MP unit :=
  forEachP entries (fun '(i, isIntersecting) =>
    if (isIntersecting : bool) then
      setStyle i "opacity" "1";;
      setStyle i "transform" "translateY(0)"
    else mret tt).

Definition addScrollAnimations : MP unit :=
  n ← getsP sectionEls;
  forEachP (seq 0 n) (fun i =>
    setStyle i "opacity" "0";;
    setStyle i "transform" "translateY(30px)";;
    setStyle i "transition" "opacity 0.6s ease, transform 0.6s ease";;
    observe i).

(** The [DOMContentLoaded] listener. *)
Definition onDOMContentLoaded (net : network) : MP unit :=
  tryCatch
    (lang ← onCore (gets currentLang);
     onCore (loadLanguage net lang);;
     onCore renderAll;;
     hideLoading;;
     initializeEventListeners;;
     addScrollAnimations)
    (fun e =>
       onCore (consoleError "Failed to initialize app:" e);;
       hideLoading).

(** The sample page as served, with its chrome: two in-page anchors next
    to the nav links and two [.section] blocks. *)
Definition sampleChrome (s : state) : page := {|
  core := s;
  anchors := 5;
  sectionEls := 2;
  classes := ∅;
  styles := ∅;
  observed := [];
  listeners := [];
  overlayTimers := []
|}.

(** A page state with more elements addressed by id. *)
Definition withIds (extra : list string) (s : state) : state :=
  {| appData := appData s; currentLang := currentLang s; htmlLang := htmlLang s;
     markup := {| ids := ids (markup s) ∪ list_to_set extra;
                  navLinks := navLinks (markup s);
                  heroBtns := heroBtns (markup s);
                  contactTitles := contactTitles (markup s);
                  subsectionTitle := subsectionTitle (markup s);
                  sections := sections (markup s) |};
     props := props s; navClasses := navClasses s; langToggle := langToggle s;
     scrollY := scrollY s; alerts := alerts s; console := console s;
     timers := timers s |}.

(** *** Notions used in the statements about the page *)

Definition classesAt (p : page) (id : string) : list string :=
  default [] (classes p !! id).

(** The element [getElementById] finds for an id. *)
Definition found (s : state) (id : string) : option string :=
  if decide (id ∈ ids (markup s)) then Some id else None.

(** The document the start-up load obtains, if it does. *)
Definition startupData (net : network) (s : state) : option value :=
  match net (dataFileOf (currentLang s)) with
  | Response true (Some data) => Some data
  | _ => None
  end.

(** The start-up load succeeds and its document renders on the page. *)
Definition startupRenders (net : network) (s : state) : bool :=
  match startupData net s with
  | Some data => renderReady data (currentLang s) (markup s)
  | None => false
  end.

(** The page has the two elements [initializeEventListeners] registers
    listeners on by id. *)
Definition wirable (s : state) : bool :=
  match langToggle s with
  | Some _ => hasId (markup s) "nav-toggle"
  | None => false
  end.

Definition toggleRegistration : registration :=
  (OnElement "lang-toggle", "click", ToggleLanguage).

(** The closures a complete [initializeEventListeners] registers, in
    order, and all its registrations on a page where [toggleLanguage] is
    not registered yet. *)
Definition closureWiring (s : state) (anchorCount : nat) : list registration :=
  ([ (OnElement "nav-toggle", "click",
      ToggleMenu (Some "nav-toggle") (found s "nav-menu")) ]
   ++ imap (fun i _ =>
              (OnNavLink i, "click",
               CloseMenu (Some "nav-toggle") (found s "nav-menu")))
           (navLinks (markup s))
   ++ [ (OnWindow, "scroll", ScrollStyling) ]
   ++ map (fun i => (OnAnchor i, "click", SmoothScroll)) (seq 0 anchorCount))%list.

Definition wiring (s : state) (anchorCount : nat) : list registration :=
  toggleRegistration :: closureWiring s anchorCount.

(** The registration of [toggleLanguage] on a page: none when it is
    registered already. *)
Definition toggleWiring (p : page) : list registration :=
  if decide (toggleRegistration ∈ listeners p) then [] else [toggleRegistration].

(** The page after the [catch] block of the start-up handler. *)
Definition startupFailed (e : error) (p : page) : page :=
  set_overlayTimers ((overlayTimers p ++ [(300, found (core p) "loading")])%list)
    (set_core
       (set_console ((console (core p) ++ [("Failed to initialize app:", e)])%list)
          (core p)) p).

(** The style values [addScrollAnimations] assigns and those the observer
    callback assigns. *)
Definition hiddenValue (prop : string) : option string :=
  if String.eqb prop "opacity" then Some "0"
  else if String.eqb prop "transform" then Some "translateY(30px)"
  else if String.eqb prop "transition" then Some "opacity 0.6s ease, transform 0.6s ease"
  else None.

Definition shownValue (prop : string) : option string :=
  if String.eqb prop "opacity" then Some "1"
  else if String.eqb prop "transform" then Some "translateY(0)"
  else None.

(** A click on the menu trigger or on a nav link. *)
Inductive menuClick := ClickTrigger | ClickLink.

Definition menuListener (c : menuClick) : MP unit :=
  match c with
  | ClickTrigger => toggleMenu (Some "nav-toggle") (Some "nav-menu")
  | ClickLink => closeMenu (Some "nav-toggle") (Some "nav-menu")
  end.

(** The menu after a run of clicks: a trigger click flips it, a link click
    closes it. *)
Definition menuOpen (clicks : list menuClick) (open : bool) : bool :=
  foldl (fun o c => match c with
                    | ClickTrigger => negb o
                    | ClickLink => false
                    end) open clicks.

Definition isActive (p : page) (id : string) : bool :=
  bool_decide ("active" ∈ classesAt p id).

(** A section was reported intersecting in one of the batches. *)
Definition seen (batches : list (list (nat * bool))) (i : nat) : bool :=
  bool_decide ((i, true) ∈ concat batches).

(** The sample page with the overlay, the nav bar, the menu and its
    trigger. *)
Definition samplePageFull : page :=
  sampleChrome (withIds ["loading"; "nav"; "nav-toggle"; "nav-menu"] samplePage).

(** * Verified properties *)

(** ** Statements, reads and conversions *)

Lemma bind_gets {A B : Type} (g : state -> A) (f : A -> M B) (s : state) :
  (gets g ≫= f) s = f (g s) s.
Proof. done. Qed.

Lemma bind_liftO_ok {A B : Type} (a : A) (f : A -> M B) (s : state) :
  (liftO (Ok a) ≫= f) s = f a s.
Proof. done. Qed.

Lemma run_pair {A : Type} (m : M A) (s : state) (o : outcome A) :
  (m s).1 = o -> m s = (o, (m s).2).
Proof. intros <-. by destruct (m s). Qed.

Lemma bind_run {A B : Type} (m : M A) (f : A -> M B) (s s1 : state) (o : outcome A) :
  m s = (o, s1) ->
  (m ≫= f) s = match o with Ok a => f a s1 | Throw e => (Throw e, s1) end.
Proof. intros H. unfold mbind, M_bind. by rewrite H. Qed.

Lemma obind_ok {A B : Type} (a : A) (f : A -> outcome B) : (Ok a ≫= f) = f a.
Proof. done. Qed.

Lemma obind_throw {A B : Type} (e : error) (f : A -> outcome B) :
  (Throw e ≫= f) = Throw e.
Proof. done. Qed.

Lemma ofmap_ok {A B : Type} (a : A) (f : A -> B) : f <$> Ok a = Ok (f a).
Proof. done. Qed.

Lemma ofmap_throw {A B : Type} (e : error) (f : A -> B) :
  f <$> (Throw e : outcome A) = Throw e.
Proof. done. Qed.

Lemma bind_assoc {A B C : Type} (m : M A) (g : A -> M B) (f : B -> M C) (s : state) :
  ((m ≫= g) ≫= f) s = (m ≫= (fun a => g a ≫= f)) s.
Proof. unfold mbind, M_bind. by destruct (m s) as [[a|e] s1]. Qed.

Lemma bind_liftO_throw {A B : Type} (e : error) (f : A -> M B) (s : state) :
  (liftO (Throw e) ≫= f) s = (Throw e, s).
Proof. done. Qed.

Lemma bind_ret {A B : Type} (a : A) (f : A -> M B) (s : state) :
  (mret a ≫= f) s = f a s.
Proof. done. Qed.

Lemma getField_nullish (v : value) (k : string) :
  if nullish v then getField v k = Throw TypeError else ∃ x, getField v k = Ok x.
Proof.
  destruct v; cbn; eauto.
  - destruct (String.eqb k "length"); eauto.
  - destruct (String.eqb k "length"); eauto.
Qed.

Lemma getField_fieldOf (v : value) (k : string) :
  nullish v = false -> getField v k = Ok (fieldOf v k).
Proof.
  intros Hn. pose proof (getField_nullish v k) as H. rewrite Hn in H.
  destruct H as [x Hx]. unfold fieldOf. by rewrite Hx.
Qed.

Lemma getField_throws (v : value) (k : string) :
  nullish v = true -> getField v k = Throw TypeError.
Proof. intros Hn. pose proof (getField_nullish v k) as H. by rewrite Hn in H. Qed.

Lemma toString_ok (v : value) : converts v = true -> toString v = Ok (toStr v).
Proof. intros H. unfold toString. by rewrite H. Qed.

Lemma toString_throw (v : value) : converts v = false -> toString v = Throw TypeError.
Proof. intros H. unfold toString. by rewrite H. Qed.

Lemma toText_ok (v : value) : converts v = true -> toText v = Ok (textOf v).
Proof. intros H. destruct v; try done; by apply toString_ok. Qed.

Lemma toText_throw (v : value) : converts v = false -> toText v = Throw TypeError.
Proof. intros H. destruct v; try done; by apply toString_throw. Qed.

Lemma substituted_ok (v : value) (k : string) :
  nullish v = false -> converts (fieldOf v k) = true ->
  substituted v k = Ok (fieldOf v k).
Proof.
  intros Hn Hc. unfold substituted.
  by rewrite (getField_fieldOf _ _ Hn), obind_ok, (toString_ok _ Hc).
Qed.

Lemma substituted_throw (v : value) (k : string) :
  nullish v = true ∨ converts (fieldOf v k) = false ->
  substituted v k = Throw TypeError.
Proof.
  unfold substituted. destruct (nullish v) eqn:Hn.
  - intros _. by rewrite (getField_throws _ _ Hn).
  - intros [|Hc]; [done|].
    by rewrite (getField_fieldOf _ _ Hn), obind_ok, (toString_throw _ Hc).
Qed.

Lemma substituted_cases (v : value) (k : string) (x : value) :
  substituted v k = Ok x ->
  nullish v = false ∧ x = fieldOf v k ∧ converts x = true.
Proof.
  intros H. destruct (nullish v) eqn:Hn.
  { by rewrite substituted_throw in H by auto. }
  destruct (converts (fieldOf v k)) eqn:Hc.
  - rewrite (substituted_ok _ _ Hn Hc) in H. injection H as <-. done.
  - by rewrite substituted_throw in H by auto.
Qed.

(** ** The loader *)

Lemma loadLanguage_cases (net : network) (lang : string) (s : state) :
  match net (dataFileOf lang) with
  | Response true (Some data) =>
      loadLanguage net lang s =
        (Ok tt,
         set_htmlLang (if String.eqb lang "cn" then "zh-CN" else "en")
           (set_currentLang lang (set_appData data s)))
  | _ => ∃ e, loadLanguage net lang s = (Throw e, s)
  end.
Proof.
  unfold loadLanguage, fetch, json, mbind, M_bind, throw, mret, M_ret, modify.
  destruct (net (dataFileOf lang)) as [|[] [data|]]; simpl; eauto.
Qed.

Ltac load_cases net lang s Hc :=
  pose proof (loadLanguage_cases net lang s) as Hc;
  destruct (net (dataFileOf lang)) as [|[] [?data|]];
  [ destruct Hc as [?e Hc] | | destruct Hc as [?e Hc] .. ].

(** C1: a failing [loadLanguage] leaves the whole state as it was, so the
    active data set, the active locale code and the document language
    attribute keep their values from before the call. *)
Theorem loadLanguage_failure_keeps_state (net : network) (lang : string)
    (s s' : state) (e : error) :
  loadLanguage net lang s = (Throw e, s') ->
  s' = s ∧ appData s' = appData s ∧ currentLang s' = currentLang s
  ∧ htmlLang s' = htmlLang s.
Proof.
  intros Hrun.
  assert (s' = s) as ->; [|done].
  load_cases net lang s Hc; rewrite Hc in Hrun; congruence.
Qed.

Lemma loadLanguage_failure_keeps_state_witness :
  loadLanguage (always (Response false None)) "en" samplePage
    = (Throw (JsError "Failed to load _data/data-en.json"), samplePage)
  ∧ samplePage = samplePage
  ∧ appData samplePage = appData samplePage
  ∧ currentLang samplePage = currentLang samplePage
  ∧ htmlLang samplePage = htmlLang samplePage.
Proof.
  split; [reflexivity|].
  apply (loadLanguage_failure_keeps_state (always (Response false None)) "en"
           samplePage samplePage (JsError "Failed to load _data/data-en.json")).
  reflexivity.
Defined.

(** C3 as stated does not hold: a body that is valid JSON but has none of
    the required top-level fields is loaded without an error, so failure is
    not equivalent to "non-OK or not of the expected document shape". *)
Lemma loadLanguage_accepts_any_json :
  ¬ (∀ (net : network) (lang : string) (s : state),
        (∃ e s', loadLanguage net lang s = (Throw e, s'))
        ↔ spec_loadFails (net (dataFileOf lang))).
Proof.
  intros Hclaim.
  destruct (Hclaim (always (Response true (Some (VObj [])))) "en" samplePage)
    as [_ Hfail].
  destruct Hfail as (e & s' & Hrun).
  - right. intros (v & Hv & Hshape). injection Hv as <-. discriminate Hshape.
  - discriminate Hrun.
Qed.

(** C3, amended: [loadLanguage] raises exactly when the request fails or is
    answered non-OK, or when the body is not parseable as JSON; a parseable
    body, whatever its shape and also without any of the required top-level
    fields, is loaded: the call returns normally and the body is the active
    data set, under the requested locale code. *)
Theorem loadLanguage_raises_iff (net : network) (lang : string) (s : state) :
  ((∃ e s', loadLanguage net lang s = (Throw e, s'))
   ↔ loadFails (net (dataFileOf lang)))
  ∧ (∀ data, net (dataFileOf lang) = Response true (Some data) ->
       ∃ s', loadLanguage net lang s = (Ok tt, s')
             ∧ appData s' = data
             ∧ currentLang s' = lang)
  ∧ (∃ data, spec_documentShape data = false
             ∧ ∃ s', loadLanguage (always (Response true (Some data))) lang s = (Ok tt, s')
                     ∧ appData s' = data).
Proof.
  split; [|split].
  - unfold loadFails. load_cases net lang s Hc; split; eauto.
    + intros (e & s' & Hrun). rewrite Hc in Hrun. discriminate.
    + intros [|]; discriminate.
  - intros data Hnet. pose proof (loadLanguage_cases net lang s) as Hc.
    rewrite Hnet in Hc. eexists. split; [exact Hc|]. done.
  - exists (VObj []). split; [done|].
    pose proof (loadLanguage_cases (always (Response true (Some (VObj [])))) lang s) as Hc.
    cbn in Hc. eexists. split; [exact Hc|]. done.
Qed.

(** C8: a successful [loadLanguage lang] replaces the active data set by
    the parsed body, the active locale code by [lang] and the document
    language attribute by the mapped tag ('zh-CN' for 'cn', 'en' for 'en'),
    and every other component of the state, the rendered DOM store
    included, is as before. *)
Theorem loadLanguage_success_frame (net : network) (lang : string) (s s' : state) :
  loadLanguage net lang s = (Ok tt, s') ->
  (∃ data, net (dataFileOf lang) = Response true (Some data) ∧ appData s' = data)
  ∧ currentLang s' = lang
  ∧ (lang = "cn" -> htmlLang s' = "zh-CN")
  ∧ (lang = "en" -> htmlLang s' = "en")
  ∧ markup s' = markup s ∧ props s' = props s ∧ navClasses s' = navClasses s
  ∧ langToggle s' = langToggle s ∧ scrollY s' = scrollY s
  ∧ alerts s' = alerts s ∧ console s' = console s ∧ timers s' = timers s.
Proof.
  intros Hrun.
  load_cases net lang s Hc; rewrite Hc in Hrun; try discriminate.
  injection Hrun as <-. simpl.
  repeat split; eauto; by intros ->.
Qed.

Lemma loadLanguage_success_frame_witness :
  let s' := set_htmlLang "en" (set_currentLang "en"
              (set_appData (sampleData "Home" "Ann") samplePage)) in
  (∃ data, serving (sampleData "首页" "安") (sampleData "Home" "Ann") (dataFileOf "en")
             = Response true (Some data) ∧ appData s' = data)
  ∧ currentLang s' = "en"
  ∧ ("en" = "cn" -> htmlLang s' = "zh-CN")
  ∧ ("en" = "en" -> htmlLang s' = "en")
  ∧ markup s' = markup samplePage ∧ props s' = props samplePage
  ∧ navClasses s' = navClasses samplePage
  ∧ langToggle s' = langToggle samplePage ∧ scrollY s' = scrollY samplePage
  ∧ alerts s' = alerts samplePage ∧ console s' = console samplePage
  ∧ timers s' = timers samplePage.
Proof.
  apply (loadLanguage_success_frame
           (serving (sampleData "首页" "安") (sampleData "Home" "Ann")) "en" samplePage).
  reflexivity.
Defined.

(** ** The active navigation link *)

Lemma currentSection_last (y : Z) (secs : list section) :
  currentSection y secs =
    match last (filter (fun sec => qualifies y sec = true) secs) with
    | Some sec => attr (sectionId sec)
    | None => VStr EmptyString
    end.
Proof.
  induction secs as [|sec secs IH] using rev_ind; [done|].
  unfold currentSection in *. rewrite foldl_app, filter_app. simpl.
  rewrite IH. clear IH. rewrite filter_cons, filter_nil.
  fold (qualifies y sec).
  destruct (qualifies y sec) eqn:Hq.
  - rewrite decide_True by done. by rewrite last_snoc.
  - rewrite decide_False by done. by rewrite app_nil_r.
Qed.

Lemma forEach_links_classes (current : value) (l : list navLink) :
  ∀ (k : nat) (s : state),
    ∃ c', forEach (imap (fun i x => (k + i, x)) l)
            (fun '(i, link) =>
               classListRemove i "active";;
               if strictEqStr (attr (href link)) (cat ["#"; toStr current])
               then classListAdd i "active"
               else mret tt) s
          = (Ok tt, set_navClasses c' s)
      ∧ ∀ j, c' !! j =
          if decide (k ≤ j)%nat then
            match l !! (j - k) with
            | Some link => Some (activeClassList current link (default [] (navClasses s !! j)))
            | None => navClasses s !! j
            end
          else navClasses s !! j.
Proof.
  induction l as [|link l IH]; intros k s.
  - exists (navClasses s). split; [by destruct s|].
    intros j. case_decide; [|done]. by rewrite lookup_nil.
  - rewrite imap_cons. cbn [forEach].
    set (cl1 := activeClassList current link (default [] (navClasses s !! k))).
    set (s1 := set_navClasses (<[k := cl1]> (navClasses s)) s).
    destruct (IH (S k) s1) as (c' & Hrun & Hc').
    exists c'. split.
    + rewrite (imap_ext _ (fun i x => (S k + i, x))) by (intros; cbn; f_equal; lia).
      replace (k + 0) with k by lia.
      assert (Hstep :
        (classListRemove k "active";;
         if strictEqStr (attr (href link)) (cat ["#"; toStr current])
         then classListAdd k "active" else mret tt) s = (Ok tt, s1)).
      { unfold s1, cl1, activeClassList, classListRemove, classListAdd,
          mbind, M_bind, modify, mret, M_ret.
        destruct (strictEqStr _ _); cbn.
        - rewrite lookup_insert_eq. cbn. rewrite insert_insert_eq. done.
        - f_equal. }
      unfold mbind, M_bind in *. rewrite Hstep. rewrite Hrun.
      by destruct s.
    + intros j. rewrite Hc'. unfold s1. cbn.
      destruct (decide (j = k)) as [->|Hne].
      * rewrite decide_False by lia. rewrite decide_True by lia.
        replace (k - k) with 0 by lia. cbn. by rewrite lookup_insert_eq.
      * rewrite lookup_insert_ne by done.
        destruct (decide (S k ≤ j)%nat) as [Hle|Hle].
        -- rewrite decide_True by lia.
           replace (j - k) with (S (j - S k)) by lia. done.
        -- rewrite decide_False by lia. done.
Qed.

(** C2: [updateActiveNavLink] takes as current the id of the last section
    in document order whose top offset less 100 the scroll position has
    reached (the empty string when there is none), and leaves a nav link
    with the class [active] exactly when its [href] is [#] followed by that
    id; the other class tokens of a link are kept.  With section offsets
    [0; 500; 1200], scroll position 590 and 1090 select the second section
    and 1100 the third. *)
Theorem updateActiveNavLink_last_qualifying (s : state) :
  let current :=
    match last (filter (fun sec => qualifies (scrollY s) sec = true)
                  (sections (markup s))) with
    | Some sec => attr (sectionId sec)
    | None => VStr EmptyString
    end in
  (∃ s', updateActiveNavLink s = (Ok tt, s')
     ∧ s' = set_navClasses (navClasses s') s
     ∧ ∀ i link, navLinks (markup s) !! i = Some link ->
         ("active" ∈ classesOf s' i
            ↔ attr (href link) = VStr (cat ["#"; toStr current]))
         ∧ ∀ c, c ≠ "active" -> (c ∈ classesOf s' i ↔ c ∈ classesOf s i))
  ∧ (∀ (h0 h1 h2 : Z) (a b c : option string),
       let secs := [ {| offsetTop := 0; clientHeight := h0; sectionId := a |};
                     {| offsetTop := 500; clientHeight := h1; sectionId := b |};
                     {| offsetTop := 1200; clientHeight := h2; sectionId := c |} ] in
       currentSection 590 secs = attr b
       ∧ currentSection 1090 secs = attr b
       ∧ currentSection 1100 secs = attr c).
Proof.
  intros current. split; [|by intros].
  unfold updateActiveNavLink, mbind, M_bind, gets.
  rewrite currentSection_last. fold current.
  destruct (forEach_links_classes current (navLinks (markup s)) 0 s)
    as (c' & Hrun & Hc').
  exists (set_navClasses c' s). split; [exact Hrun|]. split; [done|].
  intros i link Hlink. unfold classesOf. cbn.
  rewrite Hc'. rewrite decide_True by lia.
  replace (i - 0) with i by lia. rewrite Hlink. cbn.
  unfold activeClassList.
  set (cl' := filter (fun c => c ≠ "active") (default [] (navClasses s !! i))).
  assert (Hno : "active" ∉ cl').
  { unfold cl'. rewrite list_elem_of_filter. tauto. }
  assert (Heq : strictEqStr (attr (href link)) (cat ["#"; toStr current]) = true
                ↔ attr (href link) = VStr (cat ["#"; toStr current])).
  { unfold strictEqStr. destruct (attr (href link)); try (by split).
    rewrite String.eqb_eq. split; congruence. }
  split.
  - destruct (strictEqStr _ _) eqn:Hs.
    + rewrite decide_False by done. split; [intros _; by apply Heq|].
      intros _. apply elem_of_app. right. by apply list_elem_of_singleton.
    + split; [done|]. intros H. apply Heq in H. discriminate.
  - intros c Hc.
    assert (Hcl : c ∈ cl' ↔ c ∈ default [] (navClasses s !! i)).
    { unfold cl'. rewrite list_elem_of_filter. tauto. }
    destruct (strictEqStr _ _); [|done].
    rewrite decide_False by done. rewrite elem_of_app, list_elem_of_singleton.
    tauto.
Qed.

(** On the sample page (sections at 0, 500 and 1200): the class lists of
    the three nav links after a scroll to 590, 1090 and 1100. *)
Example updateActiveNavLink_sample :
  let after := fun y => (updateActiveNavLink (set_scrollY y samplePage)).2 in
  map (classesOf (after 590%Z)) [0; 1; 2] = [[]; ["active"]; []]
  ∧ map (classesOf (after 1090%Z)) [0; 1; 2] = [[]; ["active"]; []]
  ∧ map (classesOf (after 1100%Z)) [0; 1; 2] = [[]; []; ["active"]].
Proof. vm_compute. done. Qed.

(** ** Render passes as write logs *)

Lemma applyWrites_app (ws1 ws2 : list write) (p : store) :
  applyWrites (ws1 ++ ws2) p = applyWrites ws2 (applyWrites ws1 p).
Proof. apply foldl_app. Qed.

Lemma applyWrites_cons (w : write) (ws : list write) (p : store) :
  applyWrites (w :: ws) p = applyWrites ws (<[w.1 := w.2]> p).
Proof. done. Qed.

Lemma applyWrites_frame (ws : list write) (k : target) :
  ∀ p : store, k ∉ ws.*1 -> applyWrites ws p !! k = p !! k.
Proof.
  induction ws as [|w ws IH]; intros p Hk; [done|].
  rewrite fmap_cons, not_elem_of_cons in Hk. destruct Hk as [Hne Hk].
  rewrite applyWrites_cons, (IH _ Hk). by rewrite lookup_insert_ne.
Qed.

Lemma applyWrites_determined (ws : list write) (k : target) :
  ∀ p q : store, k ∈ ws.*1 -> applyWrites ws p !! k = applyWrites ws q !! k.
Proof.
  induction ws as [|w ws IH]; intros p q Hk; [by apply elem_of_nil in Hk|].
  rewrite !applyWrites_cons.
  destruct (decide (k ∈ ws.*1)) as [Hin|Hout]; [by apply IH|].
  rewrite fmap_cons, elem_of_cons in Hk. destruct Hk as [->|Hk]; [|done].
  rewrite !(applyWrites_frame _ _ _ Hout). by rewrite !lookup_insert_eq.
Qed.

Lemma applyWrites_absorb (ws ws' : list write) (p : store) :
  ws'.*1 ⊆ ws.*1 ->
  applyWrites ws (applyWrites ws' (applyWrites ws p)) = applyWrites ws p.
Proof.
  intros Hsub. apply map_eq. intros k.
  destruct (decide (k ∈ ws.*1)) as [Hin|Hout].
  - by apply applyWrites_determined.
  - assert (Hout' : k ∉ ws'.*1) by (intros Hk; by apply Hout, Hsub).
    rewrite (applyWrites_frame ws _ _ Hout), (applyWrites_frame ws' _ _ Hout').
    done.
Qed.

Lemma applyWrites_idem (ws : list write) (p : store) :
  applyWrites ws (applyWrites ws p) = applyWrites ws p.
Proof.
  apply (applyWrites_absorb ws [] p). intros k Hk. by apply elem_of_nil in Hk.
Qed.

Lemma commit_nil (s : state) : commit [] [] s = s.
Proof. unfold commit. cbn. rewrite app_nil_r. by destruct s. Qed.

Lemma commit_commit (ws1 ws2 : list write) (tm1 tm2 : list (nat * task)) (s : state) :
  commit ws2 tm2 (commit ws1 tm1 s) = commit (ws1 ++ ws2) (tm1 ++ tm2) s.
Proof.
  unfold commit, set_timers, set_props. cbn.
  by rewrite applyWrites_app, app_assoc.
Qed.

Lemma sameView_commit (s t : state) ws tm : sameView s t -> sameView s (commit ws tm t).
Proof. done. Qed.

Lemma sameView_refl (s : state) : sameView s s.
Proof. done. Qed.

Section rules.
  Context {A B : Type}.
  Implicit Types (s : state) (T : list target).

Lemma RendAt_weaken s T T' (m : M A) :
    RendAt s T m -> T ⊆ T' -> T' ⊆ T -> RendAt s T' m.
  Proof.
    intros (ws & tm & o & Hrun & Hsub & Hall) H1 H2.
    exists ws, tm, o. split; [done|]. split.
    - intros k Hk. by apply H1, Hsub.
    - intros Hok k Hk. by apply (Hall Hok), H2.
  Qed.

Lemma RendAt_ret s (a : A) : RendAt s [] (mret a).
  Proof.
    exists [], [], (Ok a). split; [|split; [done|done]].
    intros t _. by rewrite commit_nil.
  Qed.

Lemma RendAt_throw s T (e : error) : RendAt s T (throw e : M A).
  Proof.
    exists [], [], (Throw e). split; [|split].
    - intros t _. by rewrite commit_nil.
    - intros k Hk. by apply elem_of_nil in Hk.
    - intros [a Ha]. discriminate.
  Qed.

Lemma RendAt_bind s T1 T2 (m : M A) (f : A -> M B) :
    RendAt s T1 m -> (∀ a, RendAt s T2 (f a)) -> RendAt s (T1 ++ T2) (m ≫= f).
  Proof.
    intros (ws1 & tm1 & o1 & Hrun1 & Hsub1 & Hall1) Hf.
    destruct o1 as [a|e].
    - destruct (Hf a) as (ws2 & tm2 & o2 & Hrun2 & Hsub2 & Hall2).
      exists (ws1 ++ ws2)%list, (tm1 ++ tm2)%list, o2. split; [|split].
      + intros t Ht. unfold mbind, M_bind. rewrite (Hrun1 t Ht).
        rewrite (Hrun2 _ (sameView_commit _ _ ws1 tm1 Ht)).
        by rewrite commit_commit.
      + rewrite fmap_app. intros k [Hk|Hk]%elem_of_app; apply elem_of_app; auto.
      + intros Hok k [Hk|Hk]%elem_of_app; rewrite fmap_app; apply elem_of_app.
        * left. apply Hall1; eauto.
        * right. by apply Hall2.
    - exists ws1, tm1, (Throw e). split; [|split].
      + intros t Ht. unfold mbind, M_bind. by rewrite (Hrun1 t Ht).
      + intros k Hk. apply elem_of_app. left. by apply Hsub1.
      + intros [b Hb]. discriminate.
  Qed.

Lemma RendAt_gets s T (g : state -> A) (f : A -> M B) :
    (∀ t, sameView s t -> g t = g s) ->
    RendAt s T (f (g s)) -> RendAt s T (gets g ≫= f).
  Proof.
    intros Hg (ws & tm & o & Hrun & Hsub & Hall).
    exists ws, tm, o. split; [|done].
    intros t Ht. unfold mbind, M_bind, gets. rewrite (Hg t Ht). by apply Hrun.
  Qed.

Lemma RendAt_liftO s T (o : outcome A) (f : A -> M B) :
    (∀ a, o = Ok a -> RendAt s T (f a)) -> RendAt s T (liftO o ≫= f).
  Proof.
    intros Hf. destruct o as [a|e].
    - destruct (Hf a eq_refl) as (ws & tm & o & Hrun & Hsub & Hall).
      exists ws, tm, o. split; [|done]. intros t Ht. by apply Hrun.
    - exists [], [], (Throw e). split; [|split].
      + intros t _. by rewrite commit_nil.
      + intros k Hk. by apply elem_of_nil in Hk.
      + intros [b Hb]. discriminate.
  Qed.
End rules.

Lemma RendAt_setProp s (el : option node) (n : node) (p v : string) :
  el = None ∨ el = Some n -> RendAt s [(n, p)] (setProp el p v).
Proof.
  intros [->| ->]; [apply RendAt_throw|].
  exists [((n, p), v)], [], (Ok tt). split; [|done].
  intros t _. unfold setProp, modify, commit. cbn. f_equal.
  rewrite app_nil_r. by destruct t.
Qed.

Lemma item_cases (count : nat) (mk : nat -> node) (i : nat) :
  item count mk i = None ∨ item count mk i = Some (mk i).
Proof. unfold item. case_decide; auto. Qed.

Lemma RendAt_assignById s (id p : string) (rhs : outcome string) :
  RendAt s [(ById id, p)] (assignById id p rhs).
Proof.
  unfold assignById, getElementById.
  apply RendAt_gets; [by intros t (_ & _ & <-)|].
  apply RendAt_liftO. intros v _.
  apply RendAt_setProp. case_decide; auto.
Qed.

Lemma RendAt_setTimeout s (t : task) (delay : nat) :
  RendAt s [] (setTimeout t delay).
Proof.
  exists [], [(delay, t)], (Ok tt). split; [|done].
  intros u _. unfold setTimeout, modify, commit. cbn. f_equal.
Qed.

(** *** The navigation pass *)

Lemma navWrites_cons (nav : value) (k : nat) (link : navLink) (l : list navLink) :
  navWrites nav k (link :: l) =
    match navText nav link with
    | Some t => ((NavLink k, "textContent"), t) :: navWrites nav (S k) l
    | None => navWrites nav (S k) l
    end.
Proof.
  unfold navWrites. rewrite imap_cons. cbn [omap list_omap].
  rewrite (imap_ext _ (fun i x => (S k + i, x))) by (intros; cbn; f_equal; lia).
  replace (k + 0) with k by lia.
  by destruct (navText nav link).
Qed.

Lemma navWrites_nullish (nav : value) (l : list navLink) :
  nullish nav = true -> ∀ k, navWrites nav k l = [].
Proof.
  intros Hn. induction l as [|link l IH]; intros k; [done|].
  rewrite navWrites_cons, IH. unfold navText.
  by rewrite (getField_throws _ _ Hn).
Qed.

Lemma navHandled_all (nav : value) (l : list navLink) :
  forallb (navConverts nav) l = true -> navHandled nav l = l.
Proof.
  induction l as [|link l IH]; [done|]. cbn.
  intros [-> Hl]%andb_prop. by rewrite IH.
Qed.

Lemma navHandled_prefix (nav : value) (l : list navLink) :
  ∀ k, navWrites nav k (navHandled nav l) `prefix_of` navWrites nav k l.
Proof.
  induction l as [|link l IH]; intros k; [done|]. cbn [navHandled].
  destruct (navConverts nav link); [|apply prefix_nil].
  rewrite !navWrites_cons. destruct (navText nav link); [|apply IH].
  apply prefix_cons, IH.
Qed.

Lemma navOutcome_ok (nav : value) (l : list navLink) :
  nullish nav = false -> forallb (navConverts nav) l = true -> navOutcome nav l = Ok tt.
Proof. intros Hn Hc. destruct l; [done|]. unfold navOutcome. by rewrite Hn, Hc. Qed.

Lemma navOutcome_handled (nav : value) (l : list navLink) (a : unit) :
  navOutcome nav l = Ok a -> navWrites nav 0 (navHandled nav l) = navWrites nav 0 l.
Proof.
  destruct l as [|link l]; [done|]. unfold navOutcome.
  destruct (nullish nav); [done|].
  destruct (forallb (navConverts nav) (link :: l)) eqn:Hc; [|done].
  intros _. by rewrite navHandled_all.
Qed.

Lemma forEach_nav (nav : value) (l : list navLink) :
  ∀ (k : nat) (t : state),
    forEach (imap (fun i x => (k + i, x)) l)
      (fun '(i, link) =>
         let key := propKey (dataNav link) in
         v ← liftO (getField nav key);
         if truthy v then
           label ← liftO (getField nav key ≫= toText);
           setProp (Some (NavLink i)) "textContent" label
         else mret tt) t
    = (navOutcome nav l, commit (navWrites nav k (navHandled nav l)) [] t).
Proof.
  induction l as [|link l IH]; intros k t.
  - cbn. by rewrite commit_nil.
  - rewrite imap_cons. cbn [forEach].
    rewrite (imap_ext _ (fun i x => (S k + i, x))) by (intros; cbn; f_equal; lia).
    replace (k + 0) with k by lia.
    unfold mbind at 1, M_bind at 1. cbv zeta.
    destruct (nullish nav) eqn:Hn.
    { rewrite navWrites_nullish by done. unfold navOutcome. rewrite Hn.
      rewrite (getField_throws _ _ Hn). cbn. by rewrite commit_nil. }
    rewrite (getField_fieldOf _ _ Hn). rewrite bind_liftO_ok.
    cbn [navHandled]. unfold navConverts at 1. cbv zeta.
    set (v := fieldOf nav (propKey (dataNav link))).
    assert (Hout : navOutcome nav (link :: l) =
              if negb (truthy v) || converts v then navOutcome nav l
              else Throw TypeError).
    { unfold navOutcome. rewrite Hn. cbn [forallb]. unfold navConverts at 1.
      cbv zeta. fold v. destruct (negb (truthy v) || converts v); [|done].
      cbn [andb]. destruct l; [done|]. done. }
    rewrite Hout. clear Hout.
    assert (Htext : navText nav link = if truthy v then Some (textOf v) else None).
    { unfold navText. by rewrite (getField_fieldOf _ _ Hn). }
    destruct (truthy v) eqn:Ht; cbn [negb orb].
    + destruct (converts v) eqn:Hc.
      * rewrite obind_ok, (toText_ok _ Hc), bind_liftO_ok.
        cbn [setProp modify]. rewrite navWrites_cons, Htext.
        etrans; [exact (IH (S k) _)|]. f_equal.
      * rewrite obind_ok, (toText_throw _ Hc). cbn. by rewrite commit_nil.
    + rewrite navWrites_cons, Htext. cbn [mret M_ret].
      exact (IH (S k) _).
Qed.

Lemma renderNav_rend (s : state) :
  RendAt s (navTargets (appData s) (markup s)) renderNav.
Proof.
  unfold renderNav.
  apply RendAt_gets; [by intros t (<- & _ & _)|].
  apply RendAt_liftO. intros nav Hnav.
  apply RendAt_gets; [by intros t (_ & _ & <-)|].
  unfold navTargets. rewrite Hnav.
  exists (navWrites nav 0 (navHandled nav (navLinks (markup s)))), [],
    (navOutcome nav (navLinks (markup s))).
  split; [intros t _; apply (forEach_nav nav _ 0 t)|]. split.
  - intros x Hx. destruct (navHandled_prefix nav (navLinks (markup s)) 0) as [rest Hrest].
    rewrite Hrest, fmap_app. apply elem_of_app. by left.
  - intros [a Ha]. by rewrite (navOutcome_handled _ _ _ Ha).
Qed.

Lemma navWrites_targets (nav : value) (l : list navLink) :
  ∀ k x, x ∈ (navWrites nav k l).*1 ->
    ∃ j, x = (NavLink j, "textContent") ∧ (k ≤ j)%nat.
Proof.
  induction l as [|link l IH]; intros k x Hx.
  - by apply elem_of_nil in Hx.
  - rewrite navWrites_cons in Hx. destruct (navText nav link).
    + rewrite fmap_cons, elem_of_cons in Hx. destruct Hx as [->|Hx]; [by exists k|].
      destruct (IH _ _ Hx) as (j & -> & Hj). exists j. split; [done|lia].
    + destruct (IH _ _ Hx) as (j & -> & Hj). exists j. split; [done|lia].
Qed.

Lemma navWrites_lookup (nav : value) (l : list navLink) :
  ∀ (k j : nat) (p : store),
    applyWrites (navWrites nav k l) p !! (NavLink j, "textContent") =
      if decide (k ≤ j)%nat then
        match l !! (j - k) with
        | Some link =>
            match navText nav link with
            | Some t => Some t
            | None => p !! (NavLink j, "textContent")
            end
        | None => p !! (NavLink j, "textContent")
        end
      else p !! (NavLink j, "textContent").
Proof.
  induction l as [|link l IH]; intros k j p.
  - cbn. case_decide; [|done]. by rewrite lookup_nil.
  - rewrite navWrites_cons.
    assert (Hfr : ∀ q, applyWrites (navWrites nav (S k) l) q !! (NavLink k, "textContent")
                       = q !! (NavLink k, "textContent")).
    { intros q. apply applyWrites_frame. intros Hx.
      apply navWrites_targets in Hx as (i & Hi & Hle). injection Hi as ->. lia. }
    destruct (decide (j = k)) as [->|Hne].
    + rewrite decide_True by lia. replace (k - k) with 0 by lia. cbn [lookup list_lookup].
      destruct (navText nav link) as [t|]; [|apply Hfr].
      rewrite applyWrites_cons, Hfr. cbn. by rewrite lookup_insert_eq.
    + assert (Hstep : ∀ q, applyWrites (navWrites nav (S k) l) q !! (NavLink j, "textContent")
                = if decide (k ≤ j)%nat then
                    match (link :: l) !! (j - k) with
                    | Some link0 =>
                        match navText nav link0 with
                        | Some t => Some t
                        | None => q !! (NavLink j, "textContent")
                        end
                    | None => q !! (NavLink j, "textContent")
                    end
                  else q !! (NavLink j, "textContent")).
      { intros q. rewrite IH. destruct (decide (S k ≤ j)%nat).
        - rewrite decide_True by lia. replace (j - k) with (S (j - S k)) by lia. done.
        - rewrite decide_False by lia. done. }
      destruct (navText nav link) as [t|]; [|apply Hstep].
      rewrite applyWrites_cons, Hstep. cbn [fst snd].
      rewrite lookup_insert_ne by congruence. done.
Qed.

(** *** The other passes *)

Ltac view_eq :=
  let Hd := fresh in let Hl := fresh in let Hm := fresh in
  intros ? (Hd & Hl & Hm); rewrite <- ?Hd, <- ?Hl, <- ?Hm; done.

Ltac rend_el :=
  first [ apply item_cases | by right | case_decide; [by right | by left] ].

Ltac rend_step :=
  first
    [ apply RendAt_assignById
    | apply RendAt_setTimeout
    | apply RendAt_ret
    | eapply RendAt_setProp; rend_el
    | apply RendAt_gets; [view_eq|]
    | apply RendAt_liftO; intros ? ?
    | eapply RendAt_bind; [|intros ?] ].

Ltac rend :=
  repeat first
    [ rend_step
    | match goal with
      | |- RendAt _ _ (if ?b then _ else _) => destruct b
      end ].

Ltac rend_as := eapply RendAt_weaken; [rend | set_solver ..].

Lemma renderHero_rend (s : state) : RendAt s heroTargets renderHero.
Proof. unfold renderHero, getElementById. rend_as. Qed.

Lemma renderAbout_rend (s : state) : RendAt s aboutTargets renderAbout.
Proof. unfold renderAbout. rend_as. Qed.

Lemma renderSkills_rend (s : state) : RendAt s skillsTargets renderSkills.
Proof. unfold renderSkills. rend_as. Qed.

Lemma renderProjects_rend (s : state) : RendAt s projectsTargets renderProjects.
Proof. unfold renderProjects. rend_as. Qed.

Lemma renderEducation_rend (s : state) :
  RendAt s (educationTargets (markup s)) renderEducation.
Proof.
  unfold renderEducation, educationTargets.
  destruct (subsectionTitle (markup s)) eqn:Htitle;
    (eapply RendAt_weaken; [repeat rend_step; rewrite Htitle; rend | set_solver ..]).
Qed.

Lemma renderContact_rend (s : state) : RendAt s contactTargets renderContact.
Proof. unfold renderContact, getElementById. rend_as. Qed.

Lemma renderFooter_rend (s : state) : RendAt s footerTargets renderFooter.
Proof. unfold renderFooter. rend_as. Qed.

Lemma renderAll_rend (s : state) :
  RendAt s (renderTargets (appData s) (markup s)) renderAll.
Proof.
  unfold renderAll, renderTargets, fixedTargets.
  repeat (apply RendAt_bind; [|intros _]).
  - apply renderNav_rend.
  - apply renderHero_rend.
  - apply renderAbout_rend.
  - apply renderSkills_rend.
  - apply renderProjects_rend.
  - apply renderEducation_rend.
  - apply renderContact_rend.
  - apply renderFooter_rend.
Qed.

(** ** The renderer *)

Lemma RendAt_twice {A : Type} (s : state) (T : list target) (m : M A) :
  RendAt s T m ->
  ∃ o s1 s2, m s = (o, s1) ∧ m s1 = (o, s2) ∧ props s2 = props s1.
Proof.
  intros (ws & tm & o & Hrun & _).
  exists o, (commit ws tm s), (commit ws tm (commit ws tm s)).
  split; [by apply Hrun|]. split; [by apply Hrun|].
  cbn. apply applyWrites_idem.
Qed.

(** C4: for every state (every active data set, active locale and page),
    a second [renderAll] directly after a first ends the same way and
    leaves every property of the DOM store as the first left it. *)
Theorem renderAll_idempotent (s : state) :
  ∃ o s1 s2,
    renderAll s = (o, s1) ∧ renderAll s1 = (o, s2) ∧ props s2 = props s1.
Proof. apply (RendAt_twice s _ renderAll (renderAll_rend s)). Qed.

Lemma renderNav_run (s : state) :
  renderNav s =
    match getField (appData s) "nav" with
    | Ok nav => (navOutcome nav (navLinks (markup s)),
                 commit (navWrites nav 0 (navHandled nav (navLinks (markup s)))) [] s)
    | Throw e => (Throw e, s)
    end.
Proof.
  unfold renderNav. rewrite bind_gets.
  destruct (getField (appData s) "nav") as [nav|e]; [|done].
  rewrite bind_liftO_ok, bind_gets.
  exact (forEach_nav nav _ 0 s).
Qed.

Lemma navHandled_lookup (nav : value) (l : list navLink) (i : nat) :
  navHandled nav l !! i =
    if forallb (navConverts nav) (take (S i) l) then l !! i else None.
Proof.
  revert i. induction l as [|link l IH]; intros i; [done|].
  cbn [navHandled take forallb]. destruct (navConverts nav link); [|done].
  cbn [andb]. destruct i as [|i]; [by destruct l|]. cbn. apply IH.
Qed.

Lemma renderNav_text (s : state) (i : nat) (link : navLink) :
  navLinks (markup s) !! i = Some link ->
  let text := fun st : state => props st !! (NavLink i, "textContent") in
  let v := fieldOf (fieldOf (appData s) "nav") (propKey (dataNav link)) in
  text (renderNav s).2 = text s
  ∨ (truthy v = true ∧ text (renderNav s).2 = Some (textOf v)
     ∧ nullish (appData s) = false ∧ nullish (fieldOf (appData s) "nav") = false).
Proof.
  intros Hlink text v. unfold text. rewrite renderNav_run.
  destruct (nullish (appData s)) eqn:Hd.
  { rewrite (getField_throws _ _ Hd). by left. }
  rewrite (getField_fieldOf _ _ Hd). cbn [snd props commit set_timers set_props].
  set (nav := fieldOf (appData s) "nav") in *.
  rewrite navWrites_lookup, decide_True by lia. replace (i - 0) with i by lia.
  rewrite navHandled_lookup.
  destruct (forallb _ _); [|by left]. rewrite Hlink.
  destruct (nullish nav) eqn:Hn.
  { unfold navText. rewrite (getField_throws _ _ Hn). by left. }
  unfold navText. rewrite (getField_fieldOf _ _ Hn). fold v.
  destruct (truthy v); [by right|by left].
Qed.

(** C9 as stated does not hold: a link whose key is absent from the
    mapping does not always keep its text.  With [nav = {home: 'Home'}] and
    a link whose [data-nav] is [constructor], the read [nav[key]] finds the
    inherited constructor function, which is truthy, and the link's text
    is overwritten. *)
Lemma renderNav_overwrites_inherited_key :
  ¬ (∀ (s : state) (i : nat) (link : navLink) (fields : list (string * value))
       (key : string),
        navLinks (markup s) !! i = Some link ->
        getField (appData s) "nav" = Ok (VObj fields) ->
        dataNav link = Some key ->
        assoc key fields = None ->
        props (renderNav s).2 !! (NavLink i, "textContent")
        = props s !! (NavLink i, "textContent")).
Proof.
  intros Hclaim.
  specialize (Hclaim sampleForeignKey 0
                {| dataNav := Some "constructor"; href := Some "#hero" |}
                [("home", VStr "Home")] "constructor"
                eq_refl eq_refl eq_refl eq_refl).
  vm_compute in Hclaim. discriminate Hclaim.
Qed.

(** C9, amended: [renderNav] overwrites the text of a nav link only when
    the read of its [data-nav] key on the [nav] mapping yields a truthy
    value, which is an entry of the mapping or, for a key the mapping does
    not have, a member inherited from the built-in prototype; the new text
    is that value's; a pass that runs to its end overwrites every such
    link.  A link whose read yields a falsy value keeps its text: so does
    a link whose key is neither in the mapping nor the name of a member of
    [Object.prototype], or maps to the empty string. *)
Theorem renderNav_overwrites_only_truthy (s : state) (i : nat) (link : navLink) :
  navLinks (markup s) !! i = Some link ->
  let text := fun st : state => props st !! (NavLink i, "textContent") in
  let s' := (renderNav s).2 in
  let v := fieldOf (fieldOf (appData s) "nav") (propKey (dataNav link)) in
  (text s' ≠ text s -> truthy v = true ∧ text s' = Some (textOf v))
  ∧ (truthy v = false -> text s' = text s)
  ∧ ((renderNav s).1 = Ok tt -> truthy v = true -> text s' = Some (textOf v))
  ∧ (∀ fields key, getField (appData s) "nav" = Ok (VObj fields) ->
                   dataNav link = Some key ->
                   (assoc key fields = None ∧ key ∉ objectMembers)
                   ∨ assoc key fields = Some (VStr EmptyString) ->
                   text s' = text s).
Proof.
  intros Hlink text s' v.
  pose proof (renderNav_text s i link Hlink) as Hcases.
  fold text v s' in Hcases.
  assert (Hfalsy : truthy v = false -> text s' = text s).
  { intros Hv. destruct Hcases as [|(Ht & _)]; [done|congruence]. }
  split; [|split; [exact Hfalsy|split]].
  - intros Hne. destruct Hcases as [|(Ht & Hs' & _)]; done.
  - intros Hok Ht. unfold s', text in *. rewrite renderNav_run in Hok |- *.
    destruct (nullish (appData s)) eqn:Hd.
    { by rewrite (getField_throws _ _ Hd) in Hok. }
    rewrite (getField_fieldOf _ _ Hd) in Hok |- *.
    set (nav := fieldOf (appData s) "nav") in *.
    cbn [fst] in Hok. cbn [snd props commit set_timers set_props].
    rewrite (navOutcome_handled _ _ _ Hok).
    rewrite navWrites_lookup, decide_True by lia. replace (i - 0) with i by lia.
    rewrite Hlink.
    assert (Hn : nullish nav = false).
    { destruct (nullish nav) eqn:Hn; [|done]. unfold v in Ht.
      unfold fieldOf at 1 in Ht. by rewrite (getField_throws _ _ Hn) in Ht. }
    unfold navText. rewrite (getField_fieldOf _ _ Hn). fold v. by rewrite Ht.
  - intros fields key Hnav Hkey Hentry. apply Hfalsy.
    assert (Hv : v = match assoc key fields with
                     | Some x => x
                     | None => inherited [] "Object" "[object Object]" key
                     end).
    { unfold v, fieldOf. rewrite Hnav, Hkey. done. }
    rewrite Hv. destruct Hentry as [[-> Hout] | ->]; [|done].
    unfold inherited.
    destruct (String.eqb key "__proto__") eqn:E1.
    { apply String.eqb_eq in E1 as ->. exfalso. apply Hout.
      apply (bool_decide_unpack _). by vm_compute. }
    destruct (String.eqb key "constructor") eqn:E2.
    { apply String.eqb_eq in E2 as ->. exfalso. apply Hout.
      apply (bool_decide_unpack _). by vm_compute. }
    rewrite (bool_decide_eq_false_2 (key ∈ [])) by apply not_elem_of_nil.
    by rewrite (bool_decide_eq_false_2 _ Hout).
Qed.

Lemma renderNav_overwrites_only_truthy_witness :
  let s := set_appData (sampleData EmptyString "Ann") samplePage in
  let text := fun st : state => props st !! (NavLink 0, "textContent") in
  let s' := (renderNav s).2 in
  (text s' ≠ text s -> truthy (VStr EmptyString) = true ∧ text s' = Some EmptyString)
  ∧ (truthy (VStr EmptyString) = false -> text s' = text s)
  ∧ ((renderNav s).1 = Ok tt -> truthy (VStr EmptyString) = true ->
     text s' = Some EmptyString)
  ∧ (∀ fields key, getField (appData s) "nav" = Ok (VObj fields) ->
                   Some "home" = Some key ->
                   (assoc key fields = None ∧ key ∉ objectMembers)
                   ∨ assoc key fields = Some (VStr EmptyString) ->
                   text s' = text s).
Proof.
  exact (renderNav_overwrites_only_truthy
           (set_appData (sampleData EmptyString "Ann") samplePage) 0
           {| dataNav := Some "home"; href := Some "#hero" |} eq_refl).
Defined.

(** On the sample page, an empty [home] label leaves the first link with
    the text of the markup while the second link takes its label. *)
Example renderNav_sample :
  let s' := (renderNav (set_appData (sampleData EmptyString "Ann") samplePage)).2 in
  props s' !! (NavLink 0, "textContent") = Some "首页"
  ∧ props s' !! (NavLink 1, "textContent") = Some "About".
Proof. vm_compute. done. Qed.

(** ** Optional project fields *)

Lemma responsibilitiesBlock_cases (lang : string) (project : value) (resp : string) :
  responsibilitiesBlock lang project = Ok resp ->
  if truthy (fieldOf project "responsibilities")
  then ∃ rest, resp = respOpen ++ rest
  else resp = EmptyString.
Proof.
  unfold responsibilitiesBlock. intros H.
  destruct (nullish project) eqn:Hn.
  { rewrite !getField_throws in H by done. cbn [mbind outcome_bind] in H. discriminate. }
  rewrite !(getField_fieldOf _ _ Hn) in H. cbn [mbind outcome_bind] in H.
  destruct (truthy (fieldOf project "responsibilities")).
  - cbn [mbind outcome_bind] in H.
    destruct (mapJoin _ respItem) as [items|]; [|discriminate].
    injection H as <-. eexists. reflexivity.
  - by injection H as <-.
Qed.

Lemma achievementsBlock_cases (lang : string) (project : value) (ach : string) :
  achievementsBlock lang project = Ok ach ->
  if truthy (fieldOf project "achievements")
  then ∃ rest, ach = achOpen ++ rest
  else ach = EmptyString.
Proof.
  unfold achievementsBlock. intros H.
  destruct (nullish project) eqn:Hn.
  { rewrite !getField_throws in H by done. cbn [mbind outcome_bind] in H. discriminate. }
  rewrite !(getField_fieldOf _ _ Hn) in H. cbn [mbind outcome_bind] in H.
  destruct (truthy (fieldOf project "achievements")).
  - destruct (substituted project "achievements") as [a|]; [|discriminate].
    cbn [mbind outcome_bind] in H. injection H as <-. eexists. reflexivity.
  - by injection H as <-.
Qed.

Lemma fieldOf_absent (fields : list (string * value)) (k : string) :
  assoc k fields = None -> k ∉ objectMembers -> fieldOf (VObj fields) k = VUndefined.
Proof.
  intros H Hout. unfold fieldOf. cbn. rewrite H. unfold inherited.
  destruct (String.eqb k "__proto__") eqn:E1.
  { apply String.eqb_eq in E1 as ->. exfalso. apply Hout.
    apply (bool_decide_unpack _). by vm_compute. }
  destruct (String.eqb k "constructor") eqn:E2.
  { apply String.eqb_eq in E2 as ->. exfalso. apply Hout.
    apply (bool_decide_unpack _). by vm_compute. }
  rewrite (bool_decide_eq_false_2 (k ∈ [])) by apply not_elem_of_nil.
  by rewrite (bool_decide_eq_false_2 _ Hout).
Qed.

(** The parts of a project fragment. *)
Lemma projectCard_parts (lang : string) (project : value) (frag : string) :
  projectCard lang project = Ok frag ->
  ∃ resp ach techHTML,
    responsibilitiesBlock lang project = Ok resp
    ∧ achievementsBlock lang project = Ok ach
    ∧ mapJoin (fieldOf project "technologies") techTag = Ok techHTML
    ∧ frag = cat [ projectHead (fieldOf project "link") (fieldOf project "name")
                     (fieldOf project "company") (fieldOf project "role")
                     (fieldOf project "period") (fieldOf project "description");
                   resp; projectMid; ach; projectTail techHTML ].
Proof.
  intros H. unfold projectCard in H.
  repeat match type of H with
         | (substituted project ?k ≫= _) = _ =>
             let E := fresh "E" in
             destruct (substituted project k) as [?x|] eqn:E; [|discriminate];
             apply substituted_cases in E as (? & -> & _);
             cbn [mbind outcome_bind] in H
         end.
  destruct (responsibilitiesBlock lang project) as [resp|] eqn:Hresp; [|discriminate].
  cbn [mbind outcome_bind] in H.
  destruct (achievementsBlock lang project) as [ach|] eqn:Hach; [|discriminate].
  cbn [mbind outcome_bind] in H.
  rewrite (getField_fieldOf project "technologies") in H by done.
  cbn [mbind outcome_bind] in H.
  destruct (mapJoin (fieldOf project "technologies") techTag) as [techHTML|] eqn:Htech;
    [|discriminate].
  cbn [mbind outcome_bind] in H. injection H as <-.
  by exists resp, ach, techHTML.
Qed.

(** C7 as stated does not hold: an entry that has an [achievements] field
    equal to the empty string gets no achievements block. *)
Lemma projectCard_block_not_by_key :
  ¬ (∀ (lang : string) (project : value) (frag : string),
        projectCard lang project = Ok frag ->
        (contains respMarker frag = true ↔ hasField "responsibilities" project = true)
        ∧ (contains achMarker frag = true ↔ hasField "achievements" project = true)).
Proof.
  intros Hclaim.
  pose (project := sampleProject [ ("achievements", VStr EmptyString) ]).
  pose (frag := match projectCard "en" project with Ok f => f | Throw _ => EmptyString end).
  assert (Hrun : projectCard "en" project = Ok frag) by (vm_compute; reflexivity).
  destruct (Hclaim "en" project frag Hrun) as [_ [_ Hach]].
  assert (Hno : contains achMarker frag = false) by (vm_compute; reflexivity).
  rewrite Hno in Hach. discriminate (Hach eq_refl).
Qed.

(** C7, amended: in the fragment rendered for a project entry, the
    responsibilities block is present exactly when the entry's
    [responsibilities] value is truthy and the achievements block exactly
    when its [achievements] value is truthy; a block that is not present
    contributes the empty string, and an entry lacking the field has no
    block. *)
Theorem projectCard_optional_blocks (lang : string) (project : value) (frag : string) :
  projectCard lang project = Ok frag ->
  ∃ resp ach techHTML,
    responsibilitiesBlock lang project = Ok resp
    ∧ achievementsBlock lang project = Ok ach
    ∧ mapJoin (fieldOf project "technologies") techTag = Ok techHTML
    ∧ frag = cat [ projectHead (fieldOf project "link") (fieldOf project "name")
                     (fieldOf project "company") (fieldOf project "role")
                     (fieldOf project "period") (fieldOf project "description");
                   resp; projectMid; ach; projectTail techHTML ]
    ∧ (if truthy (fieldOf project "responsibilities")
       then ∃ rest, resp = respOpen ++ rest else resp = EmptyString)
    ∧ (if truthy (fieldOf project "achievements")
       then ∃ rest, ach = achOpen ++ rest else ach = EmptyString)
    ∧ (∀ fields, project = VObj fields ->
                 assoc "responsibilities" fields = None -> resp = EmptyString)
    ∧ (∀ fields, project = VObj fields ->
                 assoc "achievements" fields = None -> ach = EmptyString).
Proof.
  intros (resp & ach & techHTML & Hresp & Hach & Htech & ->)%projectCard_parts.
  pose proof (responsibilitiesBlock_cases _ _ _ Hresp) as Hr.
  pose proof (achievementsBlock_cases _ _ _ Hach) as Ha.
  exists resp, ach, techHTML. do 6 (split; [done|]). split.
  - intros fields -> Hk. rewrite (fieldOf_absent _ _ Hk) in Hr; [done|].
    apply (bool_decide_unpack _). by vm_compute.
  - intros fields -> Hk. rewrite (fieldOf_absent _ _ Hk) in Ha; [done|].
    apply (bool_decide_unpack _). by vm_compute.
Qed.

Lemma projectCard_optional_blocks_witness :
  let project := sampleProject [ ("achievements", VStr "Shipped") ] in
  ∃ resp ach techHTML,
    responsibilitiesBlock "en" project = Ok resp
    ∧ achievementsBlock "en" project = Ok ach
    ∧ mapJoin (fieldOf project "technologies") techTag = Ok techHTML
    ∧ match projectCard "en" project with Ok f => f | Throw _ => EmptyString end
      = cat [ projectHead (fieldOf project "link") (fieldOf project "name")
                (fieldOf project "company") (fieldOf project "role")
                (fieldOf project "period") (fieldOf project "description");
              resp; projectMid; ach; projectTail techHTML ]
    ∧ (if truthy (fieldOf project "responsibilities")
       then ∃ rest, resp = respOpen ++ rest else resp = EmptyString)
    ∧ (if truthy (fieldOf project "achievements")
       then ∃ rest, ach = achOpen ++ rest else ach = EmptyString)
    ∧ (∀ fields, project = VObj fields ->
                 assoc "responsibilities" fields = None -> resp = EmptyString)
    ∧ (∀ fields, project = VObj fields ->
                 assoc "achievements" fields = None -> ach = EmptyString).
Proof.
  apply (projectCard_optional_blocks "en"
           (sampleProject [ ("achievements", VStr "Shipped") ])).
  vm_compute. reflexivity.
Defined.



(** The two cases on sample entries, evaluated. *)
Example optional_fields_sample :
  achievementsBlock "en" (sampleProject [ ("achievements", VStr EmptyString) ])
    = Ok EmptyString
  ∧ (∃ block, responsibilitiesBlock "en"
                (sampleProject [ ("responsibilities", VArr []) ]) = Ok block
              ∧ contains respMarker block = true
              ∧ contains "<h4>Responsibilities:</h4>" block = true
              ∧ contains "<li>" block = false).
Proof. split; [reflexivity|]. eexists. split; [reflexivity|]. by vm_compute. Qed.

(** ** The locale toggle *)

Lemma onToggle_ok (f : toggleCtl -> outcome toggleCtl) (s : state) (c c' : toggleCtl) :
  langToggle s = Some c -> f c = Ok c' ->
  onToggle f s = (Ok tt, set_langToggle (Some c') s).
Proof. intros Hc Hf. unfold onToggle. by rewrite Hc, Hf. Qed.

Lemma toggleLanguage_enter (net : network) (s : state) (c : toggleCtl) :
  langToggle s = Some c ->
  toggleLanguage net s =
    tryCatchFinally
      (loadLanguage net (otherLang (currentLang s));;
       renderAll;;
       onToggle (setLangText (if String.eqb (otherLang (currentLang s)) "cn"
                              then "EN" else "中文")))
      (fun e => consoleError "Failed to switch language:" e;; alert switchFailedNotice)
      (onToggle (setDisabled false);; onToggle (setOpacity "1"))
      (set_langToggle (Some (busy c)) s).
Proof.
  intros Hc. unfold toggleLanguage. rewrite bind_gets.
  rewrite (bind_run _ _ _ _ _ (onToggle_ok (setDisabled true) s c _ Hc eq_refl)).
  set (c1 := {| disabled := true; opacity := opacity c; langText := langText c |}).
  by rewrite (bind_run _ _ _ _ _
                (onToggle_ok (setOpacity "0.5") (set_langToggle (Some c1) s) c1 _
                   eq_refl eq_refl)).
Qed.

(** A failed load: the notice is raised and nothing but the console, the
    alerts and the button changes. *)
Lemma toggleLanguage_load_failure (net : network) (s : state) (c : toggleCtl) :
  langToggle s = Some c ->
  loadFails (net (dataFileOf (otherLang (currentLang s)))) ->
  ∃ e, toggleLanguage net s =
         (Ok tt,
          set_langToggle (Some (enabled c (langText c)))
            (set_alerts ((alerts s ++ [switchFailedNotice])%list)
               (set_console ((console s ++ [("Failed to switch language:", e)])%list) s))).
Proof.
  intros Hc Hfail. rewrite (toggleLanguage_enter net s c Hc).
  set (s1 := set_langToggle (Some (busy c)) s).
  unfold tryCatchFinally.
  assert (Hload : ∃ e, loadLanguage net (otherLang (currentLang s)) s1 = (Throw e, s1)).
  { load_cases net (otherLang (currentLang s)) s1 Hl; eauto.
    destruct Hfail; discriminate. }
  destruct Hload as [e Hload]. exists e.
  rewrite (bind_run _ _ _ _ _ Hload). reflexivity.
Qed.

(** A successful load: the render pass runs on the loaded data; whatever
    its end, the call returns normally with the button enabled. *)
Lemma toggleLanguage_load_success (net : network) (s : state) (c : toggleCtl)
    (data : value) (ws : list write) (tm : list (nat * task)) (o : outcome unit) :
  langToggle s = Some c ->
  net (dataFileOf (otherLang (currentLang s))) = Response true (Some data) ->
  (∀ t, sameView (loaded data (otherLang (currentLang s)) s) t ->
        renderAll t = (o, commit ws tm t)) ->
  ∃ s' label,
    toggleLanguage net s = (Ok tt, s')
    ∧ appData s' = data
    ∧ currentLang s' = otherLang (currentLang s)
    ∧ markup s' = markup s
    ∧ props s' = applyWrites ws (props s)
    ∧ langToggle s' = Some (enabled c label).
Proof.
  intros Hc Hnet Hrend. rewrite (toggleLanguage_enter net s c Hc).
  set (s1 := set_langToggle (Some (busy c)) s).
  set (newLang := otherLang (currentLang s)) in *.
  unfold tryCatchFinally.
  assert (Hload : loadLanguage net newLang s1 = (Ok tt, loaded data newLang s1)).
  { pose proof (loadLanguage_cases net newLang s1) as Hl. by rewrite Hnet in Hl. }
  rewrite (bind_run _ _ _ _ _ Hload).
  assert (Hv : sameView (loaded data newLang s) (loaded data newLang s1)) by done.
  rewrite (bind_run _ _ _ _ _ (Hrend (loaded data newLang s1) Hv)).
  clear Hrend Hload Hnet.
  unfold onToggle, setLangText, consoleError, alert, modify, mbind, M_bind,
    setDisabled, setOpacity.
  destruct o as [[]|e]; cbn -[applyWrites String.eqb].
  - destruct (langText c) as [old|]; cbn -[applyWrites String.eqb].
    + eexists _, _. split; [reflexivity|]. by cbn.
    + eexists _, _. split; [reflexivity|]. by cbn.
  - eexists _, _. split; [reflexivity|]. by cbn.
Qed.

(** C6: with the toggle button in the page, every [toggleLanguage] call
    returns normally and leaves the button enabled at full opacity; when
    the load fails, the failure notice is raised, the active locale, the
    active data set and the document language stay as they were, and no
    render pass runs: the DOM store and the timers are untouched and the
    button keeps its label. *)
Theorem toggleLanguage_reenables (net : network) (s : state) (c : toggleCtl) :
  langToggle s = Some c ->
  ∃ s' c',
    toggleLanguage net s = (Ok tt, s')
    ∧ langToggle s' = Some c'
    ∧ disabled c' = false
    ∧ opacity c' = "1"
    ∧ (loadFails (net (dataFileOf (otherLang (currentLang s)))) ->
       alerts s' = (alerts s ++ [switchFailedNotice])%list
       ∧ currentLang s' = currentLang s
       ∧ appData s' = appData s
       ∧ htmlLang s' = htmlLang s
       ∧ props s' = props s
       ∧ timers s' = timers s
       ∧ markup s' = markup s
       ∧ langText c' = langText c).
Proof.
  intros Hc.
  destruct (net (dataFileOf (otherLang (currentLang s)))) as [|[] [data|]] eqn:Hnet.
  2: { destruct (renderAll_rend (loaded data (otherLang (currentLang s)) s))
         as (ws & tm & o & Hrun & _).
       destruct (toggleLanguage_load_success net s c data ws tm o Hc Hnet Hrun)
         as (s' & label & Hs' & _ & _ & _ & _ & Ht).
       exists s', (enabled c label). do 4 (split; [done|]).
       intros [|]; discriminate. }
  all: destruct (toggleLanguage_load_failure net s c Hc) as [e He];
    [rewrite Hnet; cbn; auto|].
  all: eexists _, (enabled c (langText c)); split; [exact He|]; by cbn.
Qed.

Lemma toggleLanguage_reenables_witness :
  ∃ s' c',
    toggleLanguage (always (Response false None)) samplePage = (Ok tt, s')
    ∧ langToggle s' = Some c'
    ∧ disabled c' = false
    ∧ opacity c' = "1"
    ∧ (loadFails (always (Response false None)
                    (dataFileOf (otherLang (currentLang samplePage)))) ->
       alerts s' = (alerts samplePage ++ [switchFailedNotice])%list
       ∧ currentLang s' = currentLang samplePage
       ∧ appData s' = appData samplePage
       ∧ htmlLang s' = htmlLang samplePage
       ∧ props s' = props samplePage
       ∧ timers s' = timers samplePage
       ∧ markup s' = markup samplePage
       ∧ langText c' = langText sampleToggle).
Proof.
  apply (toggleLanguage_reenables (always (Response false None)) samplePage sampleToggle).
  reflexivity.
Defined.

(** ** Toggling twice *)

Lemma navText_labelled (data nav : value) (link : navLink) :
  getField data "nav" = Ok nav ->
  (is_Some (navText nav link) ↔ navLabelled data link).
Proof.
  intros Hnav. unfold navText, navLabelled. split.
  - destruct (getField nav (propKey (dataNav link))) as [v|] eqn:Hv;
      [|by intros [? ?]].
    destruct (truthy v) eqn:Ht; [|by intros [? ?]]. intros _. by exists nav, v.
  - intros (nav' & v & Hnav' & Hv & Ht).
    assert (nav' = nav) as -> by congruence. by rewrite Hv, Ht.
Qed.

Lemma navWrites_elem (nav : value) (l : list navLink) :
  ∀ k x, x ∈ (navWrites nav k l).*1 ↔
    ∃ i link, l !! i = Some link ∧ is_Some (navText nav link)
              ∧ x = (NavLink (k + i), "textContent").
Proof.
  induction l as [|link l IH]; intros k x.
  - split; [by intros ?%elem_of_nil|]. by intros (i & link & ? & _).
  - rewrite navWrites_cons. split.
    + intros Hx.
      assert (Hrest : x ∈ (navWrites nav (S k) l).*1 ->
                ∃ i link0, (link :: l) !! i = Some link0 ∧ is_Some (navText nav link0)
                           ∧ x = (NavLink (k + i), "textContent")).
      { intros (i & link0 & Hi & Hs & ->)%IH. exists (S i), link0.
        replace (k + S i) with (S k + i) by lia. done. }
      destruct (navText nav link) as [t|] eqn:Ht; [|auto].
      rewrite fmap_cons, elem_of_cons in Hx. destruct Hx as [->|Hx]; [|auto].
      exists 0, link. rewrite Ht. replace (k + 0) with k by lia. by eauto.
    + intros (i & link0 & Hi & Hs & ->).
      destruct i as [|i].
      * injection Hi as ->. destruct Hs as [t Ht]. rewrite Ht.
        rewrite fmap_cons. replace (k + 0) with k by lia. apply elem_of_cons. by left.
      * assert (Hin : (NavLink (k + S i), "textContent") ∈ (navWrites nav (S k) l).*1).
        { apply IH. exists i, link0.
          replace (k + S i) with (S k + i) by lia. done. }
        destruct (navText nav link); [|done].
        rewrite fmap_cons. apply elem_of_cons. by right.
Qed.

Lemma navTargets_mono (data data' : value) (mk : layout) :
  (∀ i link, navLinks mk !! i = Some link ->
             navLabelled data' link -> navLabelled data link) ->
  navTargets data' mk ⊆ navTargets data mk.
Proof.
  intros Hmono x. unfold navTargets.
  destruct (getField data' "nav") as [nav'|] eqn:Hnav'; [|by intros ?%elem_of_nil].
  intros (i & link & Hi & Hs & ->)%navWrites_elem.
  apply (navText_labelled data' nav' link Hnav') in Hs.
  destruct (Hmono i link Hi Hs) as (nav & v & Hnav & Hv & Ht).
  rewrite Hnav. apply navWrites_elem. exists i, link.
  split; [done|]. split; [|done].
  apply (navText_labelled data nav link Hnav). by exists nav, v.
Qed.

Lemma otherLang_involutive (lang : string) :
  lang = "cn" ∨ lang = "en" -> otherLang (otherLang lang) = lang.
Proof. by intros [-> | ->]. Qed.

(** C5 as stated does not hold: with both fetches successful and both data
    sets unchanged, a nav link that the first locale's data leaves unlabelled
    (an empty [home] label) keeps, after the round trip, the label the other
    locale gave it. *)
Lemma toggle_twice_keeps_foreign_label :
  ¬ (∀ (net1 net2 : network) (s0 s1 : state) (c : toggleCtl) (data data' : value),
        currentLang s0 = "cn" ∨ currentLang s0 = "en" ->
        appData s0 = data ->
        renderAll s0 = (Ok tt, s1) ->
        langToggle s0 = Some c ->
        net1 (dataFileOf (otherLang (currentLang s0))) = Response true (Some data') ->
        net2 (dataFileOf (currentLang s0)) = Response true (Some data) ->
        ∃ s2 s3,
          toggleLanguage net1 s1 = (Ok tt, s2)
          ∧ toggleLanguage net2 s2 = (Ok tt, s3)
          ∧ props s3 = props s1).
Proof.
  intros Hclaim.
  pose (cn := sampleData EmptyString "安").
  pose (en := sampleData "Home" "Ann").
  pose (s0 := loaded cn "cn" samplePage).
  pose (s1 := (renderAll s0).2).
  assert (Hok : (renderAll s0).1 = Ok tt) by (vm_compute; reflexivity).
  pose proof (run_pair renderAll s0 (Ok tt) Hok) as Hrender.
  assert (Hnet1 : serving cn en (dataFileOf (otherLang (currentLang s0)))
                  = Response true (Some en)) by (vm_compute; reflexivity).
  assert (Hnet2 : serving cn en (dataFileOf (currentLang s0))
                  = Response true (Some cn)) by (vm_compute; reflexivity).
  destruct (Hclaim (serving cn en) (serving cn en) s0 s1 sampleToggle cn en
              (or_introl eq_refl) eq_refl Hrender eq_refl Hnet1 Hnet2)
    as (s2 & s3 & H1 & H2 & Hprops).
  assert (s2 = (toggleLanguage (serving cn en) s1).2) as -> by (by rewrite H1).
  assert (s3 = (toggleLanguage (serving cn en) (toggleLanguage (serving cn en) s1).2).2)
    as -> by (by rewrite H2).
  apply (f_equal (fun p : store => p !! (NavLink 0, "textContent"))) in Hprops.
  vm_compute in Hprops. discriminate Hprops.
Qed.

(** C5, amended: from a page rendered to completion for locale [L], two
    toggles whose fetches succeed, the second returning the data set the
    page was rendered from, restore every property of the DOM store,
    provided every nav link that takes a label from the other locale's data
    also takes one from [L]'s data. *)
Theorem toggle_twice_restores (net1 net2 : network) (s0 s1 : state)
    (c : toggleCtl) (data data' : value) :
  currentLang s0 = "cn" ∨ currentLang s0 = "en" ->
  appData s0 = data ->
  renderAll s0 = (Ok tt, s1) ->
  langToggle s0 = Some c ->
  net1 (dataFileOf (otherLang (currentLang s0))) = Response true (Some data') ->
  net2 (dataFileOf (currentLang s0)) = Response true (Some data) ->
  (∀ i link, navLinks (markup s0) !! i = Some link ->
             navLabelled data' link -> navLabelled data link) ->
  ∃ s2 s3,
    toggleLanguage net1 s1 = (Ok tt, s2)
    ∧ toggleLanguage net2 s2 = (Ok tt, s3)
    ∧ props s3 = props s1
    ∧ currentLang s3 = currentLang s0
    ∧ appData s3 = data.
Proof.
  intros Hlang Hdata Hrender Hc Hnet1 Hnet2 Hnav.
  destruct (renderAll_rend s0) as (ws & tm & o & Hrun & Hsub & Hall).
  pose proof (Hrun s0 (sameView_refl s0)) as Hrun0.
  rewrite Hrender in Hrun0. injection Hrun0 as <- ->.
  set (lang := currentLang s0) in *.
  set (s1 := commit ws tm s0).
  destruct (renderAll_rend (loaded data' (otherLang lang) s1))
    as (ws' & tm' & o' & Hrun' & Hsub' & _).
  destruct (toggleLanguage_load_success net1 s1 c data' ws' tm' o' Hc Hnet1 Hrun')
    as (s2 & label & Hs2 & Hd2 & Hl2 & Hm2 & Hp2 & Ht2).
  assert (Hback : otherLang (currentLang s2) = lang).
  { rewrite Hl2. by apply otherLang_involutive. }
  assert (Hrun2 : ∀ t, sameView (loaded data (otherLang (currentLang s2)) s2) t ->
                       renderAll t = (Ok tt, commit ws tm t)).
  { intros t (Hd & Hl & Hm). apply Hrun. cbn in Hd, Hl, Hm. rewrite Hback in Hl.
    split; [congruence|]. split; [done|]. by rewrite <- Hm, Hm2. }
  rewrite <- Hback in Hnet2.
  destruct (toggleLanguage_load_success net2 s2 (enabled c label) data ws tm (Ok tt)
              Ht2 Hnet2 Hrun2)
    as (s3 & label' & Hs3 & Hd3 & Hl3 & Hm3 & Hp3 & Ht3).
  exists s2, s3. split; [done|]. split; [done|].
  split; [|split; [by rewrite Hl3|done]].
  rewrite Hp3, Hp2. cbn [props s1 commit set_timers set_props].
  apply applyWrites_absorb.
  intros x Hx. apply Hall; [by eexists|].
  apply Hsub' in Hx. cbn [appData markup loaded set_htmlLang set_currentLang
                           set_appData s1 commit set_timers set_props] in Hx.
  unfold renderTargets in *. apply elem_of_app in Hx. apply elem_of_app.
  destruct Hx as [Hx|Hx]; [left|by right].
  rewrite Hdata. by apply (navTargets_mono data data' (markup s0) Hnav).
Qed.

Lemma toggle_twice_restores_witness :
  let cn := sampleData "首页" "安" in
  let en := sampleData "Home" "Ann" in
  let s0 := loaded cn "cn" samplePage in
  let s1 := (renderAll s0).2 in
  ∃ s2 s3,
    toggleLanguage (serving cn en) s1 = (Ok tt, s2)
    ∧ toggleLanguage (serving cn en) s2 = (Ok tt, s3)
    ∧ props s3 = props s1
    ∧ currentLang s3 = currentLang s0
    ∧ appData s3 = cn.
Proof.
  intros cn en s0 s1.
  apply (toggle_twice_restores (serving cn en) (serving cn en) s0 s1 sampleToggle cn en).
  - by left.
  - reflexivity.
  - refine (run_pair renderAll s0 (Ok tt) _). vm_compute. reflexivity.
  - reflexivity.
  - vm_compute. reflexivity.
  - vm_compute. reflexivity.
  - intros i link Hi _.
    destruct i as [|[|[|i]]]; [..|discriminate Hi]; injection Hi as <-.
    + exists (fieldOf cn "nav"), (VStr "首页"). vm_compute. done.
    + exists (fieldOf cn "nav"), (VStr "About"). vm_compute. done.
    + exists (fieldOf cn "nav"), (VStr "Skills"). vm_compute. done.
Defined.

(** ** Running the render passes *)

Lemma getField_readable (v : value) (k : string) :
  readable v = true -> getField v k = Ok (fieldOf v k).
Proof.
  intros H. apply getField_fieldOf. unfold readable in H.
  by destruct (nullish v); cbn in H.
Qed.

Lemma getField_unreadable (v : value) (k : string) :
  readable v = false -> getField v k = Throw TypeError.
Proof.
  intros H. apply getField_throws. unfold readable in H.
  by destruct (nullish v); cbn in H.
Qed.

Lemma commit_start (s : state) : s = commit [] [] s.
Proof. by rewrite commit_nil. Qed.

Lemma assign_commit (k : target) (v : string) (ws : list write) (tm : list (nat * task))
    (s : state) :
  assign k v (commit ws tm s) = commit (ws ++ [(k, v)]) tm s.
Proof.
  unfold assign, commit, set_props, set_timers. cbn. by rewrite applyWrites_app.
Qed.

Lemma otherItem_ok (entry : string * value) :
  isOk (otherItem entry) = converts entry.2.
Proof. unfold otherItem, toString. by destruct (converts entry.2). Qed.

Lemma otherItem_error (entry : string * value) (e : error) :
  otherItem entry = Throw e -> e = TypeError.
Proof. unfold otherItem, toString. destruct (converts entry.2); [done|]. by intros [= <-]. Qed.

Lemma otherItems_cases (l1 l2 l3 l4 : string) (v1 v2 v3 v4 : value) :
  cat <$> mapM otherItem (zip [l1; l2; l3; l4] [v1; v2; v3; v4])
  = if forallb converts [v1; v2; v3; v4]
    then Ok (okVal (cat <$> mapM otherItem (zip [l1; l2; l3; l4] [v1; v2; v3; v4])))
    else Throw TypeError.
Proof.
  cbn [zip zip_with mapM forallb]. unfold otherItem, toString.
  cbn [fst snd].
  by destruct (converts v1), (converts v2), (converts v3), (converts v4).
Qed.

Lemma otherItems_ok (l1 l2 l3 l4 : string) (v1 v2 v3 v4 : value) :
  forallb converts [v1; v2; v3; v4] = true ->
  cat <$> mapM otherItem (zip [l1; l2; l3; l4] [v1; v2; v3; v4])
  = Ok (okVal (cat <$> mapM otherItem (zip [l1; l2; l3; l4] [v1; v2; v3; v4]))).
Proof. intros H. rewrite otherItems_cases at 1. by rewrite H. Qed.

Lemma otherItems_throw (l1 l2 l3 l4 : string) (v1 v2 v3 v4 : value) :
  forallb converts [v1; v2; v3; v4] = false ->
  cat <$> mapM otherItem (zip [l1; l2; l3; l4] [v1; v2; v3; v4]) = Throw TypeError.
Proof. intros H. rewrite otherItems_cases. by rewrite H. Qed.

Section steps.
  Context {B : Type} (f : unit -> M B).
  Context (ws : list write) (tm : list (nat * task)) (s : state).

Lemma assignById_ok (id p v : string) :
  hasId (markup s) id = true ->
  assignById id p (Ok v) (commit ws tm s)
  = (Ok tt, commit (ws ++ [((ById id, p), v)]) tm s).
Proof.
  intros H%bool_decide_eq_true. rewrite <- assign_commit.
  unfold assignById, getElementById. rewrite bind_gets.
  cbn [markup commit set_timers set_props]. by rewrite decide_True.
Qed.

Lemma assignById_missing (id p v : string) :
  hasId (markup s) id = false ->
  assignById id p (Ok v) (commit ws tm s) = (Throw TypeError, commit ws tm s).
Proof.
  intros H%bool_decide_eq_false. unfold assignById, getElementById.
  rewrite bind_gets. cbn [markup commit set_timers set_props].
  by rewrite decide_False.
Qed.

Lemma assignById_throw (id p : string) (e : error) (t : state) :
  assignById id p (Throw e) t = (Throw e, t).
Proof. done. Qed.

Lemma bind_assignById_ok (id p v : string) :
  hasId (markup s) id = true ->
  (assignById id p (Ok v) ≫= f) (commit ws tm s)
  = f tt (commit (ws ++ [((ById id, p), v)]) tm s).
Proof. intros H. unfold mbind, M_bind. by rewrite assignById_ok. Qed.

Lemma bind_assignById_missing (id p v : string) :
  hasId (markup s) id = false ->
  (assignById id p (Ok v) ≫= f) (commit ws tm s) = (Throw TypeError, commit ws tm s).
Proof. intros H. unfold mbind, M_bind. by rewrite assignById_missing. Qed.

Lemma bind_assignById_throw (id p : string) (e : error) (t : state) :
  (assignById id p (Throw e) ≫= f) t = (Throw e, t).
Proof. done. Qed.

Lemma setProp_item_ok (c : nat) (mk : nat -> node) (i : nat) (p v : string) :
  bool_decide (i < c)%nat = true ->
  setProp (item c mk i) p v (commit ws tm s)
  = (Ok tt, commit (ws ++ [((mk i, p), v)]) tm s).
Proof.
  intros H%bool_decide_eq_true. rewrite <- assign_commit.
  unfold item. by rewrite decide_True.
Qed.

Lemma setProp_item_missing (c : nat) (mk : nat -> node) (i : nat) (p v : string) (t : state) :
  bool_decide (i < c)%nat = false ->
  setProp (item c mk i) p v t = (Throw TypeError, t).
Proof.
  intros H%bool_decide_eq_false. unfold item. by rewrite decide_False.
Qed.

Lemma bind_setProp_item_ok (c : nat) (mk : nat -> node) (i : nat) (p v : string) :
  bool_decide (i < c)%nat = true ->
  (setProp (item c mk i) p v ≫= f) (commit ws tm s)
  = f tt (commit (ws ++ [((mk i, p), v)]) tm s).
Proof. intros H. unfold mbind, M_bind. by rewrite setProp_item_ok. Qed.

Lemma bind_setProp_item_missing (c : nat) (mk : nat -> node) (i : nat) (p v : string)
    (t : state) :
  bool_decide (i < c)%nat = false ->
  (setProp (item c mk i) p v ≫= f) t = (Throw TypeError, t).
Proof. intros H. unfold mbind, M_bind. by rewrite setProp_item_missing. Qed.

Lemma bind_setProp_el_ok (id p v : string) :
  hasId (markup s) id = true ->
  (setProp (if decide (id ∈ ids (markup s)) then Some (ById id) else None) p v ≫= f)
    (commit ws tm s)
  = f tt (commit (ws ++ [((ById id, p), v)]) tm s).
Proof.
  intros H%bool_decide_eq_true. rewrite <- assign_commit. by rewrite decide_True.
Qed.

Lemma bind_setProp_el_missing (id p v : string) (mk : layout) (t : state) :
  hasId mk id = false ->
  (setProp (if decide (id ∈ ids mk) then Some (ById id) else None) p v ≫= f) t
  = (Throw TypeError, t).
Proof. intros H%bool_decide_eq_false. by rewrite decide_False. Qed.

Lemma setProp_some (n : node) (p v : string) :
  setProp (Some n) p v (commit ws tm s) = (Ok tt, commit (ws ++ [((n, p), v)]) tm s).
Proof. by rewrite <- assign_commit. Qed.

Lemma setTimeout_commit (t : task) (delay : nat) :
  setTimeout t delay (commit ws tm s) = (Ok tt, commit ws (tm ++ [(delay, t)]) s).
Proof.
  unfold setTimeout, modify, commit, set_timers, set_props. cbn.
  by rewrite app_assoc.
Qed.

Lemma mret_run (t : state) : (mret tt : M unit) t = (Ok tt, t).
Proof. done. Qed.
End steps.

Lemma markup_commit ws tm s : markup (commit ws tm s) = markup s.
Proof. done. Qed.
Lemma appData_commit ws tm s : appData (commit ws tm s) = appData s.
Proof. done. Qed.
Lemma currentLang_commit ws tm s : currentLang (commit ws tm s) = currentLang s.
Proof. done. Qed.

Ltac view H := rewrite ?markup_commit, ?appData_commit, ?currentLang_commit in H.

(** Rewrites the locale test and the subsection-title test with the case
    at hand. *)
Ltac branch H :=
  repeat match type of H with
         | context [String.eqb ?l "cn"] =>
             change (String.eqb l "cn") with (isCn l) in H
         end;
  repeat match goal with
         | E : isCn ?l = _ |- _ =>
             match type of H with context [isCn l] => rewrite E in H end
         | E : subsectionTitle ?m = _ |- _ =>
             match type of H with context [subsectionTitle m] => rewrite E in H end
         end.

(** Evaluates the outcome expression [o] under the facts at hand. *)
Ltac simp_outcome o H :=
  let E := fresh "E" in
  eassert (E : o = _) by
    (repeat first
       [ rewrite getField_readable by assumption
       | rewrite getField_unreadable by assumption
       | rewrite toString_ok by assumption
       | rewrite toString_throw by assumption
       | rewrite toText_ok by assumption
       | rewrite toText_throw by assumption
       | rewrite obind_ok | rewrite obind_throw
       | rewrite ofmap_ok | rewrite ofmap_throw ];
     reflexivity);
  lazymatch type of E with
  | ?a = ?b => tryif constr_eq a b then fail else (rewrite E in H; clear E)
  end.

Ltac step H :=
  cbv beta zeta in H;
  lazymatch type of H with
  | _ = ((if _ then _ else _) ≫= _) _ => progress branch H
  | _ = (if _ then _ else _) _ => progress branch H
  | _ = ((_ ≫= _) ≫= _) _ => rewrite bind_assoc in H
  | _ = (gets _ ≫= _) _ => rewrite bind_gets in H; cbv beta in H; view H
  | _ = (getElementById _ ≫= _) _ => unfold getElementById at 1 in H
  | _ = (mret _ ≫= _) _ => rewrite bind_ret in H
  | _ = (liftO (Ok _) ≫= _) _ => rewrite bind_liftO_ok in H
  | _ = (liftO (Throw _) ≫= _) _ => rewrite bind_liftO_throw in H
  | _ = (liftO (cat <$> mapM otherItem _) ≫= _) _ =>
      first [ rewrite otherItems_ok in H by assumption
            | rewrite otherItems_throw in H by assumption ]
  | _ = (liftO ?o ≫= _) _ => simp_outcome o H
  | _ = (assignById _ _ (Ok _) ≫= _) _ =>
      first [ rewrite bind_assignById_ok in H by assumption
            | rewrite bind_assignById_missing in H by assumption ]
  | _ = (assignById _ _ (Throw _) ≫= _) _ => rewrite bind_assignById_throw in H
  | _ = (assignById _ _ ?o ≫= _) _ => simp_outcome o H
  | _ = (setProp (item _ _ _) _ _ ≫= _) _ =>
      first [ rewrite bind_setProp_item_ok in H by assumption
            | rewrite bind_setProp_item_missing in H by assumption ]
  | _ = (setProp (if decide _ then _ else _) _ _ ≫= _) _ =>
      first [ rewrite bind_setProp_el_ok in H by assumption
            | rewrite bind_setProp_el_missing in H by assumption ]
  | _ = (setTimeout _ _ ≫= _) _ =>
      unfold mbind at 1, M_bind at 1 in H; rewrite setTimeout_commit in H
  | _ = assignById _ _ (Ok _) _ =>
      first [ rewrite assignById_ok in H by assumption
            | rewrite assignById_missing in H by assumption ]
  | _ = assignById _ _ (Throw _) _ => rewrite assignById_throw in H
  | _ = assignById _ _ ?o _ => simp_outcome o H
  | _ = setProp (item _ _ _) _ _ _ =>
      first [ rewrite setProp_item_ok in H by assumption
            | rewrite setProp_item_missing in H by assumption ]
  | _ = setProp (Some _) _ _ _ => rewrite setProp_some in H
  | _ = setTimeout _ _ _ => rewrite setTimeout_commit in H
  | _ = mret _ _ => rewrite mret_run in H
  end.

Ltac leftmost b :=
  lazymatch b with
  | (?x && _)%bool => leftmost x
  | _ => b
  end.

Ltac next_atom H :=
  lazymatch goal with
  | |- if ?b then _ else _ =>
      let a := leftmost b in
      lazymatch a with
      | isOk ?o => revert H; destruct o eqn:?; intros H; cbn [isOk okVal andb]
      | _ => destruct a eqn:?; cbn [andb]
      end
  end.

Ltac finish H :=
  lazymatch type of H with
  | _ = (Ok _, _) => branch H; exact H
  | _ = (Throw _, _) =>
      eexists _, _, _; split; [exact H|];
      split; cbn [app]; eexists; reflexivity
  end.

Ltac drive H := repeat step H; first [ finish H | next_atom H; drive H ].

Ltac pass_run m s :=
  let r := fresh "r" in
  let H := fresh "Hrun" in
  set (r := m s);
  assert (H : r = m s) by reflexivity;
  clearbody r; unfold m in H; rewrite (commit_start s) in H;
  drive H.

Lemma renderHero_run (s : state) :
  passRuns renderHero s (heroReady (appData s) (markup s))
    (heroWrites (appData s) (currentLang s)) [].
Proof.
  unfold passRuns, heroReady, heroWrites.
  destruct (isCn (currentLang s)) eqn:Hcn; pass_run renderHero s.
Qed.

Lemma renderAbout_run (s : state) :
  passRuns renderAbout s (aboutReady (appData s) (markup s)) (aboutWrites (appData s)) [].
Proof. unfold passRuns, aboutReady, aboutWrites. cbv zeta. pass_run renderAbout s. Qed.

Lemma renderSkills_run (s : state) :
  passRuns renderSkills s (skillsReady (appData s) (markup s)) (skillsWrites (appData s))
    [(100, AnimateProgressBars)].
Proof. unfold passRuns, skillsReady, skillsWrites. pass_run renderSkills s. Qed.

Lemma renderProjects_run (s : state) :
  passRuns renderProjects s (projectsReady (appData s) (currentLang s) (markup s))
    (projectsWrites (appData s) (currentLang s)) [].
Proof. unfold passRuns, projectsReady, projectsWrites. pass_run renderProjects s. Qed.

Lemma renderEducation_run (s : state) :
  passRuns renderEducation s (educationReady (appData s) (markup s))
    (educationWrites (appData s) (currentLang s) (markup s)) [].
Proof.
  unfold passRuns, educationReady, educationWrites. cbv zeta.
  destruct (isCn (currentLang s)) eqn:Hcn;
    destruct (subsectionTitle (markup s)) eqn:Htitle;
    pass_run renderEducation s.
Qed.

Lemma renderContact_run (s : state) :
  passRuns renderContact s (contactReady (appData s) (markup s))
    (contactWrites (appData s) (currentLang s)) [].
Proof.
  unfold passRuns, contactReady, contactWrites, otherLabelsOf. cbv zeta.
  destruct (isCn (currentLang s)) eqn:Hcn; pass_run renderContact s.
Qed.

Lemma renderFooter_run (s : state) :
  passRuns renderFooter s (footerReady (appData s) (markup s)) (footerWrites (appData s)) [].
Proof. unfold passRuns, footerReady, footerWrites. cbv zeta. pass_run renderFooter s. Qed.

Lemma renderNav_pass (s : state) :
  passRuns renderNav s (navReady (appData s) (markup s))
    (navWritesOf (appData s) (markup s)) [].
Proof.
  unfold passRuns, navReady, navWritesOf. rewrite renderNav_run.
  destruct (readable (appData s)) eqn:Hd; cbn [andb].
  2: { rewrite (getField_unreadable _ _ Hd).
       exists TypeError, [], []. split; [by rewrite commit_nil|].
       split; apply prefix_nil. }
  rewrite (getField_readable _ _ Hd).
  set (nav := fieldOf (appData s) "nav").
  set (links := navLinks (markup s)).
  assert (Hthrow : ∀ e, navOutcome nav links = Throw e ->
            ∃ e ws' tm',
              (navOutcome nav links, commit (navWrites nav 0 (navHandled nav links)) [] s)
              = (Throw e, commit ws' tm' s)
              ∧ ws' `prefix_of` navWrites nav 0 links ∧ tm' `prefix_of` []).
  { intros e He. exists e, (navWrites nav 0 (navHandled nav links)), [].
    rewrite He. split; [done|]. split; [apply navHandled_prefix|done]. }
  destruct (forallb (navConverts nav) links) eqn:Hc.
  - destruct links as [|link rest] eqn:Hl; [done|].
    destruct (readable nav) eqn:Hn; cbn [andb].
    + unfold readable in Hn. destruct (nullish nav) eqn:Hnull; [done|].
      rewrite navOutcome_ok by done. by rewrite navHandled_all.
    + apply (Hthrow TypeError). unfold navOutcome. unfold readable in Hn.
      by destruct (nullish nav).
  - rewrite andb_false_r.
    destruct links as [|link rest] eqn:Hl; [done|].
    destruct (navOutcome nav (link :: rest)) as [[]|e] eqn:Ho; [|by apply (Hthrow e)].
    unfold navOutcome in Ho. destruct (nullish nav); [done|]. by rewrite Hc in Ho.
Qed.

Lemma passRuns_seq (m1 m2 : M unit) (s : state) (r1 r2 : bool)
    (w1 w2 : list write) (t1 t2 : list (nat * task)) :
  passRuns m1 s r1 w1 t1 ->
  passRuns m2 (commit w1 t1 s) r2 w2 t2 ->
  passRuns (m1;; m2) s (r1 && r2) (w1 ++ w2) (t1 ++ t2).
Proof.
  unfold passRuns. intros H1 H2. destruct r1; cbn [andb].
  - rewrite (bind_run _ _ _ _ _ H1). destruct r2.
    + by rewrite H2, commit_commit.
    + destruct H2 as (e & ws' & tm' & H2 & Hw & Ht).
      exists e, (w1 ++ ws')%list, (t1 ++ tm')%list.
      rewrite H2, commit_commit. split; [done|].
      split; by apply prefix_app.
  - destruct H1 as (e & ws' & tm' & H1 & Hw & Ht).
    exists e, ws', tm'. rewrite (bind_run _ _ _ _ _ H1).
    split; [done|]. split; by apply prefix_app_r.
Qed.

Lemma renderAll_run (s : state) :
  passRuns renderAll s (renderReady (appData s) (currentLang s) (markup s))
    (renderWrites (appData s) (currentLang s) (markup s))
    [(100, AnimateProgressBars)].
Proof.
  unfold renderAll, renderReady, renderWrites, fixedWrites.
  change [(100, AnimateProgressBars)]
    with ([] ++ [] ++ [] ++ [(100, AnimateProgressBars)] ++ [] ++ [] ++ [] ++ [])%list.
  apply passRuns_seq; [apply renderNav_pass|].
  apply passRuns_seq; [exact (renderHero_run _)|].
  apply passRuns_seq; [exact (renderAbout_run _)|].
  apply passRuns_seq; [exact (renderSkills_run _)|].
  apply passRuns_seq; [exact (renderProjects_run _)|].
  apply passRuns_seq; [exact (renderEducation_run _)|].
  apply passRuns_seq; [exact (renderContact_run _)|].
  exact (renderFooter_run _).
Qed.

Lemma renderAll_ok (s s' : state) :
  renderAll s = (Ok tt, s') ->
  renderReady (appData s) (currentLang s) (markup s) = true
  ∧ s' = commit (renderWrites (appData s) (currentLang s) (markup s))
           [(100, AnimateProgressBars)] s.
Proof.
  intros H. pose proof (renderAll_run s) as Hrun. unfold passRuns in Hrun.
  destruct (renderReady _ _ _).
  - rewrite H in Hrun. by injection Hrun as <-.
  - destruct Hrun as (e & ws' & tm' & Hrun & _). rewrite H in Hrun. discriminate.
Qed.

(** ** What a render pass shows *)

Lemma applyWrites_lookup_nodup (ws : list write) (k : target) (v : string) :
  ∀ p : store, NoDup ws.*1 -> (k, v) ∈ ws -> applyWrites ws p !! k = Some v.
Proof.
  induction ws as [|w ws IH]; intros p Hnd Hin; [by apply elem_of_nil in Hin|].
  rewrite fmap_cons, NoDup_cons in Hnd. destruct Hnd as [Hw Hnd].
  rewrite applyWrites_cons. apply elem_of_cons in Hin as [<-|Hin].
  - cbn [fst snd] in *. rewrite applyWrites_frame by done. apply lookup_insert_eq.
  - by apply IH.
Qed.

Lemma applyWrites_lookup_cases (ws : list write) (k : target) :
  ∀ p : store,
    applyWrites ws p !! k = p !! k
    ∨ ∃ v, (k, v) ∈ ws ∧ applyWrites ws p !! k = Some v.
Proof.
  induction ws as [|w ws IH] using rev_ind; intros p; [by left|].
  rewrite applyWrites_app, applyWrites_cons. cbn [applyWrites foldl].
  destruct (decide (w.1 = k)) as [<-|Hne].
  - right. exists w.2. rewrite lookup_insert_eq. split; [|done].
    apply elem_of_app. right. destruct w. apply list_elem_of_here.
  - rewrite lookup_insert_ne by done. destruct (IH p) as [Hsame|(v & Hin & Hv)].
    + by left.
    + right. exists v. split; [|done]. apply elem_of_app. by left.
Qed.

Lemma fixedWrites_nodup (data : value) (lang : string) (mk : layout) :
  NoDup (fixedWrites data lang mk).*1.
Proof.
  unfold fixedWrites, educationWrites.
  destruct (subsectionTitle mk); apply (bool_decide_unpack _); by vm_compute.
Qed.

Lemma renderAll_fixed_lookup (s s' : state) (k : target) (v : string) :
  renderAll s = (Ok tt, s') ->
  (k, v) ∈ fixedWrites (appData s) (currentLang s) (markup s) ->
  props s' !! k = Some v.
Proof.
  intros [_ ->]%renderAll_ok Hin. cbn [props commit set_timers set_props].
  unfold renderWrites. rewrite applyWrites_app.
  apply applyWrites_lookup_nodup; [apply fixedWrites_nodup|done].
Qed.

Ltac in_writes :=
  cbv [fixedWrites heroWrites aboutWrites skillsWrites projectsWrites educationWrites
       contactWrites footerWrites app];
  repeat first
    [ apply list_elem_of_here
    | apply list_elem_of_further
    | apply elem_of_app; right ].

Ltac shown H := apply (renderAll_fixed_lookup _ _ _ _ H); in_writes.

Lemma isOk_okVal (o : outcome string) : isOk o = true -> o = Ok (okVal o).
Proof. by destruct o. Qed.

Lemma replaceHttps_ok (v : value) :
  isOk (replaceHttps v) = true ->
  ∃ url, v = VStr url ∧ okVal (replaceHttps v) = removeFirst "https://" url.
Proof. destruct v; try done. intros _. by eexists. Qed.

Lemma mapM_Forall2 {A B : Type} (f : A -> outcome B) (l : list A) (k : list B) :
  mapM f l = Ok k ↔ Forall2 (fun x y => f x = Ok y) l k.
Proof.
  revert k. induction l as [|x l IH]; intros k; cbn [mapM].
  - split; [intros [= <-]; constructor | by intros ->%Forall2_nil_inv_l].
  - split.
    + destruct (f x) as [y|] eqn:Hx; [|done].
      destruct (mapM f l) as [ys|] eqn:Hl; [|done].
      intros [= <-]. constructor; [done|]. by apply IH.
    + intros (y & ys & Hx & Hl & ->)%Forall2_cons_inv_l.
      rewrite Hx. apply IH in Hl. by rewrite Hl.
Qed.

Lemma mapJoin_ok (v : value) (f : value -> outcome string) (html : string) :
  mapJoin v f = Ok html ↔
  ∃ items frags, v = VArr items
                 ∧ Forall2 (fun x y => f x = Ok y) items frags
                 ∧ html = cat frags.
Proof.
  split.
  - destruct v; try done. cbn [mapJoin].
    destruct (mapM f items) as [frags|] eqn:Hm; [|done].
    intros [= <-]. exists items, frags. split; [done|]. split; [|done].
    by apply mapM_Forall2.
  - intros (items & frags & -> & Hm%mapM_Forall2 & ->). cbn [mapJoin]. by rewrite Hm.
Qed.

Ltac atoms_all :=
  cbv zeta in *;
  repeat match goal with
         | H' : (_ && _)%bool = true |- _ => apply andb_prop in H' as [? ?]
         end.

Lemma renderReady_parts (data : value) (lang : string) (mk : layout) :
  renderReady data lang mk = true ->
  navReady data mk = true ∧ heroReady data mk = true ∧ aboutReady data mk = true
  ∧ skillsReady data mk = true ∧ projectsReady data lang mk = true
  ∧ educationReady data mk = true ∧ contactReady data mk = true
  ∧ footerReady data mk = true.
Proof. unfold renderReady. intros H. atoms_all. tauto. Qed.

(** X1: [renderAll] runs to its end exactly when the data set and the
    markup pass [renderReady]: every value the passes read properties from
    is readable, every value assigned as text or link and every label a
    nav link takes converts to a string, every mapped list is an array
    whose fragments render, the website is a string, and the page has the
    elements the passes assign to. *)
Theorem renderAll_completes_iff (s : state) :
  (∃ s', renderAll s = (Ok tt, s'))
  ↔ renderReady (appData s) (currentLang s) (markup s) = true.
Proof.
  pose proof (renderAll_run s) as Hrun. unfold passRuns in Hrun. split.
  - intros [s' H]. by apply renderAll_ok in H as [? _].
  - intros Hr. rewrite Hr in Hrun. eauto.
Qed.

Lemma renderAll_sample_runs :
  renderAll sampleLoaded = (Ok tt, (renderAll sampleLoaded).2).
Proof. refine (run_pair renderAll sampleLoaded (Ok tt) _). by vm_compute. Qed.

Lemma renderAll_truncated_throws :
  renderAll sampleTruncated = (Throw TypeError, (renderAll sampleTruncated).2).
Proof. refine (run_pair renderAll sampleTruncated (Throw TypeError) _). by vm_compute. Qed.

(** X2: a [renderAll] that runs to its end found every one of the
    seventeen element ids it assigns to, at least two hero buttons and at
    least four contact headings. *)
Theorem renderAll_needs_dom_contract (s s' : state) :
  renderAll s = (Ok tt, s') ->
  Forall (fun id => id ∈ ids (markup s)) requiredIds
  ∧ (2 ≤ heroBtns (markup s))%nat
  ∧ (4 ≤ contactTitles (markup s))%nat.
Proof.
  intros [Hr _]%renderAll_ok.
  apply renderReady_parts in Hr as (_ & Hh & Ha & Hs & Hp & He & Hc & Hf).
  unfold heroReady in Hh. unfold aboutReady in Ha. unfold skillsReady in Hs.
  unfold projectsReady in Hp. unfold educationReady in He.
  unfold contactReady in Hc. unfold footerReady in Hf. unfold hasId in *.
  atoms_all.
  repeat match goal with
         | H : bool_decide _ = true |- _ => apply bool_decide_eq_true in H
         end.
  split; [|split; lia].
  unfold requiredIds. repeat (apply Forall_cons; split; [assumption|]).
  apply Forall_nil_2.
Qed.

Lemma renderAll_needs_dom_contract_witness :
  Forall (fun id => id ∈ ids sampleLayout) requiredIds
  ∧ (2 ≤ heroBtns sampleLayout)%nat
  ∧ (4 ≤ contactTitles sampleLayout)%nat.
Proof.
  exact (renderAll_needs_dom_contract sampleLoaded _ renderAll_sample_runs).
Defined.

(** X3: after a [renderAll] that runs to its end, the text and link
    targets of the hero, about, contact and footer sections hold the
    corresponding fields of the profile: texts with [null] and [undefined]
    shown as the empty string, the GitHub link always labelled
    'GGyongfeng', and the website link labelled with the URL less its first
    'https://'. *)
Theorem renderAll_shows_profile (s s' : state) :
  renderAll s = (Ok tt, s') ->
  let profile := fieldOf (appData s) "profile" in
  let contact := fieldOf profile "contact" in
  let shown := fun id p => props s' !! (ById id, p) in
  shown "avatar" "src" = Some (toStr (fieldOf profile "avatar"))
  ∧ shown "name" "textContent" = Some (textOf (fieldOf profile "name"))
  ∧ shown "title" "textContent" = Some (textOf (fieldOf profile "title"))
  ∧ shown "intro" "textContent" = Some (textOf (fieldOf profile "intro"))
  ∧ shown "bio" "textContent" = Some (textOf (fieldOf profile "bio"))
  ∧ shown "contact-email" "textContent" = Some (textOf (fieldOf contact "email"))
  ∧ shown "contact-phone" "textContent" = Some (textOf (fieldOf contact "phone"))
  ∧ shown "contact-github" "href" = Some (toStr (fieldOf contact "github"))
  ∧ shown "contact-github" "textContent" = Some "GGyongfeng"
  ∧ shown "contact-website" "href" = Some (toStr (fieldOf contact "website"))
  ∧ (∃ url, fieldOf contact "website" = VStr url
            ∧ shown "contact-website" "textContent" = Some (removeFirst "https://" url))
  ∧ shown "footer-github" "href" = Some (toStr (fieldOf contact "github"))
  ∧ shown "footer-website" "href" = Some (toStr (fieldOf contact "website")).
Proof.
  intros H profile contact shown. unfold shown.
  repeat split; try (by shown H).
  pose proof H as [Hr _]%renderAll_ok.
  apply renderReady_parts in Hr as (_ & _ & _ & _ & _ & _ & Hc & _).
  unfold contactReady in Hc. atoms_all.
  match goal with
  | Hw : isOk (replaceHttps _) = true |- _ =>
      destruct (replaceHttps_ok _ Hw) as (url & Hurl & Htext)
  end.
  exists url. split; [done|]. rewrite <- Htext. by shown H.
Qed.

Lemma renderAll_shows_profile_witness :
  let shown := fun id p => props (renderAll sampleLoaded).2 !! (ById id, p) in
  shown "name" "textContent" = Some "Ann"
  ∧ shown "contact-github" "textContent" = Some "GGyongfeng"
  ∧ shown "contact-website" "href" = Some "https://example.org"
  ∧ shown "footer-website" "href" = Some "https://example.org".
Proof.
  destruct (renderAll_shows_profile sampleLoaded _ renderAll_sample_runs)
    as (_ & Hname & _ & _ & _ & _ & _ & _ & Hgithub & Hhref & _ & _ & Hfooter).
  exact (conj Hname (conj Hgithub (conj Hhref Hfooter))).
Defined.

(** X4: the captions that do not come from the data set follow a two-way
    test of the locale code: 'cn' gives the Chinese captions and every
    other code the English ones; a page without a subsection title gets
    none assigned. *)
Theorem renderAll_captions_by_locale (s s' : state) :
  renderAll s = (Ok tt, s') ->
  let cn := String.eqb (currentLang s) "cn" in
  let text := fun n => props s' !! (n, "textContent") in
  text (HeroBtn 0) = Some (if cn then "查看项目" else "View Projects")
  ∧ text (HeroBtn 1) = Some (if cn then "联系我" else "Contact Me")
  ∧ text (ContactTitle 0) = Some (if cn then "邮箱" else "Email")
  ∧ text (ContactTitle 1) = Some (if cn then "电话" else "Phone")
  ∧ text (ContactTitle 2) = Some "GitHub"
  ∧ text (ContactTitle 3) = Some (if cn then "网站" else "Website")
  ∧ text SubsectionTitle =
      if subsectionTitle (markup s)
      then Some (if cn then "校园经历" else "Campus Experience")
      else props s !! (SubsectionTitle, "textContent").
Proof.
  intros H cn text. unfold text, cn.
  repeat split; try (by shown H).
  destruct (subsectionTitle (markup s)) eqn:Ht.
  - apply (renderAll_fixed_lookup _ _ _ _ H).
    cbv [fixedWrites heroWrites aboutWrites skillsWrites projectsWrites educationWrites
         contactWrites footerWrites]. rewrite Ht. cbv [app].
    repeat first [ apply list_elem_of_here | apply list_elem_of_further ].
  - apply renderAll_ok in H as [_ ->]. cbn [props commit set_timers set_props].
    unfold renderWrites. rewrite applyWrites_app.
    rewrite applyWrites_frame.
    + apply applyWrites_frame. unfold navWritesOf.
      intros (j & Hj & _)%navWrites_targets. discriminate Hj.
    + unfold fixedWrites, educationWrites. rewrite Ht.
      apply (bool_decide_unpack _). by vm_compute.
Qed.

Lemma renderAll_captions_by_locale_witness :
  let text := fun n => props (renderAll sampleLoaded).2 !! (n, "textContent") in
  text (HeroBtn 0) = Some "View Projects"
  ∧ text (ContactTitle 3) = Some "Website"
  ∧ text SubsectionTitle = Some "Campus Experience".
Proof.
  destruct (renderAll_captions_by_locale sampleLoaded _ renderAll_sample_runs)
    as (Hbtn & _ & _ & _ & _ & Hweb & Hsub).
  exact (conj Hbtn (conj Hweb Hsub)).
Defined.

(** X5: after a [renderAll] that runs to its end, each list container
    holds the fragments of its entries in data order, joined without a
    separator; the mapped value is an array and every entry rendered. *)
Theorem renderAll_lists_in_data_order (s s' : state) :
  renderAll s = (Ok tt, s') ->
  let data := appData s in
  let rendered := fun (id : string) (v : value) (f : value -> outcome string) =>
    ∃ items frags, v = VArr items
                   ∧ Forall2 (fun x y => f x = Ok y) items frags
                   ∧ props s' !! (ById id, "innerHTML") = Some (cat frags) in
  rendered "tags" (fieldOf (fieldOf data "profile") "tags") tagSpan
  ∧ rendered "skills-grid" (fieldOf data "skills") skillCard
  ∧ rendered "projects-timeline" (fieldOf data "projects") (projectCard (currentLang s))
  ∧ rendered "education-list" (fieldOf (fieldOf data "education") "education") educationItem
  ∧ rendered "campus-list" (fieldOf (fieldOf data "education") "campus") campusItem.
Proof.
  intros H data rendered. unfold rendered, data.
  pose proof H as [Hr _]%renderAll_ok.
  apply renderReady_parts in Hr as (_ & _ & Ha & Hs & Hp & He & _ & _).
  unfold aboutReady in Ha. unfold skillsReady in Hs. unfold projectsReady in Hp.
  unfold educationReady in He. atoms_all.
  assert (Hlist : ∀ id v f,
            isOk (mapJoin v f) = true ->
            props s' !! (ById id, "innerHTML") = Some (okVal (mapJoin v f)) ->
            ∃ items frags, v = VArr items
                           ∧ Forall2 (fun x y => f x = Ok y) items frags
                           ∧ props s' !! (ById id, "innerHTML") = Some (cat frags)).
  { intros id v f Hok Hshown. apply isOk_okVal in Hok.
    apply mapJoin_ok in Hok as (items & frags & -> & Hall & Hcat).
    exists items, frags. by rewrite Hshown, Hcat. }
  repeat split; (apply Hlist; [assumption|by shown H]).
Qed.

Lemma renderAll_lists_in_data_order_witness :
  ∃ items frags,
    fieldOf (sampleData "Home" "Ann") "projects" = VArr items
    ∧ Forall2 (fun x y => projectCard "en" x = Ok y) items frags
    ∧ props (renderAll sampleLoaded).2 !! (ById "projects-timeline", "innerHTML")
        = Some (cat frags).
Proof.
  destruct (renderAll_lists_in_data_order sampleLoaded _ renderAll_sample_runs)
    as (_ & _ & Hprojects & _).
  exact Hprojects.
Defined.

(** X6: a [renderAll] that throws has made a prefix of the assignments of
    the complete pass and changed nothing else but, possibly, registered
    the progress-bar timer; so every property of the DOM store either keeps
    its value or holds the value the complete pass assigns to it. *)
Theorem renderAll_interrupted_old_or_new (s s' : state) (e : error) :
  renderAll s = (Throw e, s') ->
  ∃ ws tm,
    s' = commit ws tm s
    ∧ ws `prefix_of` renderWrites (appData s) (currentLang s) (markup s)
    ∧ tm `prefix_of` [(100, AnimateProgressBars)]
    ∧ ∀ k, props s' !! k = props s !! k
           ∨ ∃ v, (k, v) ∈ renderWrites (appData s) (currentLang s) (markup s)
                  ∧ props s' !! k = Some v.
Proof.
  intros H. pose proof (renderAll_run s) as Hrun. unfold passRuns in Hrun.
  destruct (renderReady _ _ _).
  { rewrite H in Hrun. discriminate. }
  destruct Hrun as (e' & ws & tm & Hrun & Hws & Htm).
  rewrite H in Hrun. injection Hrun as _ ->.
  exists ws, tm. repeat split; [done..|].
  intros k. cbn [props commit set_timers set_props].
  destruct (applyWrites_lookup_cases ws k (props s)) as [Hsame|(v & Hin & Hv)];
    [by left|].
  right. exists v. split; [|done]. by apply (elem_of_prefix ws).
Qed.

Lemma renderAll_interrupted_old_or_new_witness :
  ∃ ws tm,
    (renderAll sampleTruncated).2 = commit ws tm sampleTruncated
    ∧ ws `prefix_of` renderWrites (appData sampleTruncated) "en" sampleLayout
    ∧ tm `prefix_of` [(100, AnimateProgressBars)]
    ∧ ∀ k, props (renderAll sampleTruncated).2 !! k = props sampleTruncated !! k
           ∨ ∃ v, (k, v) ∈ renderWrites (appData sampleTruncated) "en" sampleLayout
                  ∧ props (renderAll sampleTruncated).2 !! k = Some v.
Proof.
  exact (renderAll_interrupted_old_or_new sampleTruncated _ TypeError
           renderAll_truncated_throws).
Defined.

(** X7: whatever its end, [renderAll] changes only the DOM store and the
    timer queue: the data set, the locale, the document language, the
    markup, the nav classes, the toggle button, the scroll position, the
    alerts and the console are untouched, timers are only added, and a
    store property outside the render targets keeps its value. *)
Theorem renderAll_touches_only_targets (s : state) :
  let s' := (renderAll s).2 in
  appData s' = appData s ∧ currentLang s' = currentLang s
  ∧ htmlLang s' = htmlLang s ∧ markup s' = markup s
  ∧ navClasses s' = navClasses s ∧ langToggle s' = langToggle s
  ∧ scrollY s' = scrollY s ∧ alerts s' = alerts s ∧ console s' = console s
  ∧ timers s `prefix_of` timers s'
  ∧ ∀ k, k ∉ renderTargets (appData s) (markup s) -> props s' !! k = props s !! k.
Proof.
  destruct (renderAll_rend s) as (ws & tm & o & Hrun & Hsub & _).
  rewrite (Hrun s (sameView_refl s)). cbn.
  repeat split; [by apply prefix_app_r|].
  intros k Hk. apply applyWrites_frame. intros Hin. by apply Hk, Hsub.
Qed.

(** X8: before any data set is loaded ([appData] is [null]), and whenever
    the data set is [null] or [undefined], [renderAll] throws a TypeError
    at its first read and leaves the state as it was. *)
Theorem renderAll_before_load (s : state) :
  readable (appData s) = false -> renderAll s = (Throw TypeError, s).
Proof.
  intros Hd. unfold renderAll.
  assert (Hnav : renderNav s = (Throw TypeError, s)).
  { rewrite renderNav_run. by rewrite (getField_unreadable _ _ Hd). }
  by rewrite (bind_run _ _ _ _ _ Hnav).
Qed.

Lemma renderAll_before_load_witness :
  renderAll samplePage = (Throw TypeError, samplePage).
Proof. apply (renderAll_before_load samplePage). reflexivity. Defined.

(** X9: a [renderAll] that ran to its end runs to its end again from the
    state it left; each run registers one more progress-bar timer of 100 ms
    and cancels none, and the DOM store after the second run is that after
    the first. *)
Theorem renderAll_again (s s1 : state) :
  renderAll s = (Ok tt, s1) ->
  ∃ s2, renderAll s1 = (Ok tt, s2)
        ∧ timers s1 = (timers s ++ [(100, AnimateProgressBars)])%list
        ∧ timers s2 = (timers s ++ [(100, AnimateProgressBars); (100, AnimateProgressBars)])%list
        ∧ props s2 = props s1.
Proof.
  intros [Hr ->]%renderAll_ok.
  set (s1 := commit _ _ s).
  pose proof (renderAll_run s1) as Hrun. unfold passRuns in Hrun.
  change (renderReady (appData s1) (currentLang s1) (markup s1))
    with (renderReady (appData s) (currentLang s) (markup s)) in Hrun.
  rewrite Hr in Hrun. eexists. split; [exact Hrun|].
  unfold s1. cbn [timers props commit set_timers set_props appData currentLang markup].
  split; [done|]. split; [by rewrite <- app_assoc|].
  apply applyWrites_idem.
Qed.

Lemma renderAll_again_witness :
  ∃ s2, renderAll (renderAll sampleLoaded).2 = (Ok tt, s2)
        ∧ timers (renderAll sampleLoaded).2 = [(100, AnimateProgressBars)]
        ∧ timers s2 = [(100, AnimateProgressBars); (100, AnimateProgressBars)]
        ∧ props s2 = props (renderAll sampleLoaded).2.
Proof.
  exact (renderAll_again sampleLoaded _ renderAll_sample_runs).
Defined.

(** X10: [renderSkills] and [renderProjects] are all-or-nothing: when one
    of them throws (the list is missing or not an array, an entry does not
    render, the container is not in the page), the state is as it was. *)
Theorem list_passes_all_or_nothing (s : state) :
  (∀ e s', renderSkills s = (Throw e, s') -> s' = s)
  ∧ (∀ e s', renderProjects s = (Throw e, s') -> s' = s).
Proof.
  split; intros e s'.
  - unfold renderSkills. rewrite bind_gets.
    destruct (getField (appData s) "skills") as [skills|e1];
      [rewrite bind_liftO_ok | by intros [= _ <-]].
    destruct (mapJoin skills skillCard) as [html|e2];
      [rewrite bind_liftO_ok | by intros [= _ <-]].
    unfold assignById, getElementById. unfold mbind at 1, M_bind at 1.
    rewrite bind_gets, bind_liftO_ok.
    case_decide; [discriminate|]. by intros [= _ <-].
  - unfold renderProjects. rewrite bind_gets.
    destruct (getField (appData s) "projects") as [projects|e1];
      [rewrite bind_liftO_ok | by intros [= _ <-]].
    rewrite bind_gets.
    destruct (mapJoin projects (projectCard (currentLang s))) as [html|e2];
      [rewrite bind_liftO_ok | by intros [= _ <-]].
    unfold assignById, getElementById. rewrite bind_gets, bind_liftO_ok.
    case_decide; [discriminate|]. by intros [= _ <-].
Qed.










(** ** More on the loader and the locale toggle *)

(** X12: the error [loadLanguage] raises tells the failure: a request that
    is not answered rejects with a TypeError; an answer that is not OK
    gives the Error 'Failed to load _data/data-<lang>.json', whether or not
    its body is JSON (the status is tested before the body is read); an OK
    answer whose body does not parse gives a SyntaxError. *)
Theorem loadLanguage_error_kinds (net : network) (lang : string) (s : state) :
  match net ("_data/data-" ++ lang ++ ".json") with
  | NetworkFailure => loadLanguage net lang s = (Throw TypeError, s)
  | Response false _ =>
      loadLanguage net lang s =
        (Throw (JsError ("Failed to load _data/data-" ++ lang ++ ".json")), s)
  | Response true None => loadLanguage net lang s = (Throw SyntaxError, s)
  | Response true (Some data) => (loadLanguage net lang s).1 = Ok tt
  end.
Proof.
  change ("_data/data-" ++ lang ++ ".json") with (dataFileOf lang).
  unfold loadLanguage, fetch, json.
  by destruct (net (dataFileOf lang)) as [|[] [data|]].
Qed.

Lemma toggleLanguage_render (net : network) (s : state) (c : toggleCtl) (data : value) :
  langToggle s = Some c ->
  net (dataFileOf (otherLang (currentLang s))) = Response true (Some data) ->
  let newLang := otherLang (currentLang s) in
  let s1 := loaded data newLang (set_langToggle (Some (busy c)) s) in
  toggleLanguage net s =
    tryCatchFinally
      (renderAll;;
       onToggle (setLangText (if String.eqb newLang "cn" then "EN" else "中文")))
      (fun e => consoleError "Failed to switch language:" e;; alert switchFailedNotice)
      (onToggle (setDisabled false);; onToggle (setOpacity "1"))
      s1.
Proof.
  intros Hc Hnet. cbv zeta. rewrite (toggleLanguage_enter net s c Hc).
  set (newLang := otherLang (currentLang s)) in *.
  set (s0 := set_langToggle (Some (busy c)) s).
  set (s1 := loaded data newLang s0).
  assert (Hload : loadLanguage net newLang s0 = (Ok tt, s1)).
  { pose proof (loadLanguage_cases net newLang s0) as Hl. by rewrite Hnet in Hl. }
  unfold tryCatchFinally. by rewrite (bind_run _ _ _ _ _ Hload).
Qed.

(** X13: a switch that goes through.  With the button and its label
    element in the page, the other locale's file answered with a document
    and that document renderable on the page, [toggleLanguage] makes the
    other locale and its document the active ones, sets the document
    language, applies the assignments of the render pass, registers the
    progress-bar timer, labels the button with the locale left behind
    ('中文' after leaving 'cn', 'EN' otherwise) and raises no notice. *)
Theorem toggleLanguage_switches (net : network) (s : state) (c : toggleCtl)
    (data : value) (old : string) :
  langToggle s = Some c ->
  langText c = Some old ->
  net (dataFileOf (otherLang (currentLang s))) = Response true (Some data) ->
  renderReady data (otherLang (currentLang s)) (markup s) = true ->
  ∃ s', toggleLanguage net s = (Ok tt, s')
    ∧ currentLang s' = otherLang (currentLang s)
    ∧ appData s' = data
    ∧ htmlLang s' = (if String.eqb (currentLang s) "cn" then "en" else "zh-CN")
    ∧ props s' =
        applyWrites (renderWrites data (otherLang (currentLang s)) (markup s)) (props s)
    ∧ timers s' = (timers s ++ [(100, AnimateProgressBars)])%list
    ∧ langToggle s' =
        Some (enabled c (Some (if String.eqb (currentLang s) "cn" then "中文" else "EN")))
    ∧ alerts s' = alerts s
    ∧ console s' = console s.
Proof.
  intros Hc Hold Hnet Hready.
  rewrite (toggleLanguage_render net s c data Hc Hnet). cbv zeta.
  set (newLang := otherLang (currentLang s)) in *.
  set (s1 := loaded data newLang (set_langToggle (Some (busy c)) s)).
  pose proof (renderAll_run s1) as Hrun. unfold passRuns in Hrun.
  change (renderReady (appData s1) (currentLang s1) (markup s1))
    with (renderReady data newLang (markup s)) in Hrun.
  rewrite Hready in Hrun.
  change (renderWrites (appData s1) (currentLang s1) (markup s1))
    with (renderWrites data newLang (markup s)) in Hrun.
  unfold tryCatchFinally. rewrite (bind_run _ _ _ _ _ Hrun).
  unfold onToggle, setLangText, setDisabled, setOpacity, mbind, M_bind.
  cbn [langToggle commit set_timers set_props set_langToggle loaded set_htmlLang
       set_currentLang set_appData s1 busy langText].
  rewrite Hold. cbn [langToggle set_langToggle].
  eexists. split; [reflexivity|].
  cbn [currentLang appData htmlLang props timers langToggle alerts console
       set_langToggle set_timers set_props set_htmlLang set_currentLang set_appData].
  clear Hrun Hnet Hready. subst s1 newLang. unfold otherLang, enabled, loaded, commit.
  destruct (String.eqb (currentLang s) "cn"); by cbn -[renderWrites applyWrites].
Qed.

(** X14: a switch that fails after the load.  When the other locale's file
    is loaded but the render pass throws or the button has no label
    element, [toggleLanguage] logs the error and raises the failure notice
    with the new locale, its document and the document language already in
    place; the button keeps its label and is enabled again. *)
Theorem toggleLanguage_late_failure (net : network) (s : state) (c : toggleCtl)
    (data : value) :
  langToggle s = Some c ->
  net (dataFileOf (otherLang (currentLang s))) = Response true (Some data) ->
  renderReady data (otherLang (currentLang s)) (markup s) = false
  ∨ langText c = None ->
  ∃ s' e, toggleLanguage net s = (Ok tt, s')
    ∧ alerts s' = (alerts s ++ [switchFailedNotice])%list
    ∧ console s' = (console s ++ [("Failed to switch language:", e)])%list
    ∧ currentLang s' = otherLang (currentLang s)
    ∧ appData s' = data
    ∧ htmlLang s' = (if String.eqb (currentLang s) "cn" then "en" else "zh-CN")
    ∧ langToggle s' = Some (enabled c (langText c)).
Proof.
  intros Hc Hnet Hlate.
  rewrite (toggleLanguage_render net s c data Hc Hnet). cbv zeta.
  set (newLang := otherLang (currentLang s)) in *.
  set (s1 := loaded data newLang (set_langToggle (Some (busy c)) s)).
  pose proof (renderAll_run s1) as Hrun. unfold passRuns in Hrun.
  change (renderReady (appData s1) (currentLang s1) (markup s1))
    with (renderReady data newLang (markup s)) in Hrun.
  assert (Hlang : htmlLang s1 = if String.eqb (currentLang s) "cn" then "en" else "zh-CN").
  { unfold s1, newLang, otherLang. cbn. by destruct (String.eqb (currentLang s) "cn"). }
  unfold tryCatchFinally.
  destruct (renderReady data newLang (markup s)).
  - destruct Hlate as [|Hnone]; [done|].
    rewrite (bind_run _ _ _ _ _ Hrun).
    unfold onToggle, setLangText, setDisabled, setOpacity, consoleError, alert,
      modify, mbind, M_bind.
    cbn [langToggle commit set_timers set_props set_langToggle loaded set_htmlLang
         set_currentLang set_appData s1 busy langText].
    rewrite Hnone. cbn [langToggle set_langToggle set_alerts set_console].
    eexists _, _. split; [reflexivity|].
    cbn [currentLang appData htmlLang langToggle alerts console
         set_langToggle set_timers set_props set_alerts set_console].
    rewrite <- Hlang. clear Hrun Hnet Hlang. subst s1 newLang.
    cbn -[renderWrites applyWrites otherLang]. by rewrite ?Hnone.
  - destruct Hrun as (e & ws & tm & Hrun & _).
    rewrite (bind_run _ _ _ _ _ Hrun).
    unfold onToggle, setDisabled, setOpacity, consoleError, alert, modify, mbind, M_bind.
    cbn [langToggle commit set_timers set_props set_langToggle loaded set_htmlLang
         set_currentLang set_appData s1 busy langText set_alerts set_console].
    eexists _, e. split; [reflexivity|].
    cbn [currentLang appData htmlLang langToggle alerts console
         set_langToggle set_timers set_props set_alerts set_console].
    rewrite <- Hlang. clear Hrun Hnet Hlang. subst s1 newLang.
    by cbn -[applyWrites otherLang].
Qed.

(** X15: on a page without the toggle button, [toggleLanguage] throws a
    TypeError, whatever the network answers, and leaves the whole state as
    it was: the locale, the data set and the DOM store are unchanged,
    nothing is logged and no notice is raised. *)
Theorem toggleLanguage_without_button (net : network) (s : state) :
  langToggle s = None -> toggleLanguage net s = (Throw TypeError, s).
Proof.
  intros Hnone. unfold toggleLanguage. rewrite bind_gets.
  assert (H : onToggle (setDisabled true) s = (Throw TypeError, s))
    by (unfold onToggle; by rewrite Hnone).
  by rewrite (bind_run _ _ _ _ _ H).
Qed.

Lemma toggleLanguage_switches_witness :
  ∃ s', toggleLanguage (serving (sampleData "首页" "安") (sampleData "Home" "Ann"))
          samplePage = (Ok tt, s')
    ∧ currentLang s' = "en"
    ∧ htmlLang s' = "en"
    ∧ langToggle s' = Some (enabled sampleToggle (Some "中文"))
    ∧ alerts s' = [].
Proof.
  destruct (toggleLanguage_switches
              (serving (sampleData "首页" "安") (sampleData "Home" "Ann"))
              samplePage sampleToggle (sampleData "Home" "Ann") "EN")
    as (s' & Hrun & Hlang & _ & Htag & _ & _ & Hbtn & Halerts & _).
  - reflexivity.
  - reflexivity.
  - vm_compute. reflexivity.
  - vm_compute. reflexivity.
  - exists s'. exact (conj Hrun (conj Hlang (conj Htag (conj Hbtn Halerts)))).
Defined.

Lemma toggleLanguage_late_failure_witness :
  ∃ s' e, toggleLanguage (always (Response true (Some (VObj [])))) samplePage = (Ok tt, s')
    ∧ alerts s' = [switchFailedNotice]
    ∧ console s' = [("Failed to switch language:", e)]
    ∧ currentLang s' = "en"
    ∧ appData s' = VObj [].
Proof.
  destruct (toggleLanguage_late_failure (always (Response true (Some (VObj []))))
              samplePage sampleToggle (VObj []))
    as (s' & e & Hrun & Halerts & Hconsole & Hlang & Hdata & _).
  - reflexivity.
  - reflexivity.
  - left. vm_compute. reflexivity.
  - exists s', e. exact (conj Hrun (conj Halerts (conj Hconsole (conj Hlang Hdata)))).
Defined.

Lemma toggleLanguage_without_button_witness :
  toggleLanguage (always NetworkFailure) (set_langToggle None samplePage)
  = (Throw TypeError, set_langToggle None samplePage).
Proof.
  apply (toggleLanguage_without_button (always NetworkFailure)
           (set_langToggle None samplePage)).
  reflexivity.
Defined.

(** ** More on the active navigation link *)

Lemma updateActiveNavLink_run (s : state) :
  ∃ c', updateActiveNavLink s = (Ok tt, set_navClasses c' s)
    ∧ ∀ j, c' !! j =
        match navLinks (markup s) !! j with
        | Some link =>
            Some (activeClassList (currentSection (scrollY s) (sections (markup s)))
                    link (default [] (navClasses s !! j)))
        | None => navClasses s !! j
        end.
Proof.
  destruct (forEach_links_classes
              (currentSection (scrollY s) (sections (markup s)))
              (navLinks (markup s)) 0 s) as (c' & Hrun & Hc').
  exists c'. split; [exact Hrun|].
  intros j. rewrite Hc'. rewrite decide_True by lia.
  by replace (j - 0) with j by lia.
Qed.

Lemma activeClassList_idem (current : value) (link : navLink) (cl : list string) :
  activeClassList current link (activeClassList current link cl)
  = activeClassList current link cl.
Proof.
  unfold activeClassList.
  set (cl' := filter (fun c => c ≠ "active") cl).
  assert (Hno : "active" ∉ cl') by (unfold cl'; rewrite list_elem_of_filter; tauto).
  assert (Hfix : filter (fun c => c ≠ "active") cl' = cl').
  { unfold cl'. apply list_filter_filter_l. tauto. }
  destruct (strictEqStr _ _); [|by rewrite Hfix].
  rewrite (decide_False (P := "active" ∈ cl')) by done.
  rewrite filter_app, Hfix. cbn. rewrite app_nil_r.
  by rewrite decide_False.
Qed.

(** X16: [updateActiveNavLink] is idempotent: a second call at the same
    scroll position leaves the state the first call produced. *)
Theorem updateActiveNavLink_idempotent (s : state) :
  (updateActiveNavLink;; updateActiveNavLink) s = updateActiveNavLink s.
Proof.
  destruct (updateActiveNavLink_run s) as (c1 & Hrun1 & Hc1).
  rewrite (bind_run _ _ _ _ _ Hrun1), Hrun1.
  destruct (updateActiveNavLink_run (set_navClasses c1 s)) as (c2 & Hrun2 & Hc2).
  rewrite Hrun2. f_equal.
  assert (c2 = c1) as ->; [|done].
  apply map_eq. intros j. rewrite Hc2. cbn. rewrite Hc1.
  destruct (navLinks (markup s) !! j) as [link|]; [|done].
  cbn. by rewrite activeClassList_idem.
Qed.

Lemma last_filter_position {A : Type} (P : A -> Prop) `{!∀ x, Decision (P x)}
    (l : list A) (x : A) :
  last (filter P l) = Some x ->
  ∃ j, l !! j = Some x ∧ P x ∧ ∀ i y, (j < i)%nat -> l !! i = Some y -> ¬ P y.
Proof.
  induction l as [|z l IH] using rev_ind; [done|].
  rewrite filter_app, filter_cons, filter_nil.
  destruct (decide (P z)) as [Hz|Hz].
  - rewrite last_snoc. intros [= ->]. exists (length l).
    split; [by rewrite lookup_app_r, Nat.sub_diag by lia|]. split; [done|].
    intros i y Hi Hy. apply lookup_lt_Some in Hy. rewrite length_app in Hy.
    cbn in Hy. lia.
  - rewrite app_nil_r. intros (j & Hj & Hx & Hafter)%IH.
    exists j. split; [by apply lookup_app_l_Some|]. split; [done|].
    intros i y Hi Hy. apply lookup_app_Some in Hy as [Hy|[_ Hy]].
    + by apply (Hafter i).
    + apply list_lookup_singleton_Some in Hy as [_ <-]. done.
Qed.

(** X17: on a page whose sections come in ascending order of their top
    offsets, the section [updateActiveNavLink] takes as current is, among
    the sections the scroll position has reached (top offset less 100),
    one of greatest offset; when none is reached the current id is the
    empty string. *)
Theorem currentSection_greatest_offset (y : Z) (secs : list section) :
  (∀ i j a b, (i ≤ j)%nat -> secs !! i = Some a -> secs !! j = Some b ->
              (offsetTop a ≤ offsetTop b)%Z) ->
  (∃ sec, sec ∈ secs
          ∧ qualifies y sec = true
          ∧ currentSection y secs = attr (sectionId sec)
          ∧ ∀ sec', sec' ∈ secs -> qualifies y sec' = true ->
                    (offsetTop sec' ≤ offsetTop sec)%Z)
  ∨ (currentSection y secs = VStr EmptyString
     ∧ ∀ sec, sec ∈ secs -> qualifies y sec = false).
Proof.
  intros Hsorted. rewrite currentSection_last.
  destruct (last (filter (fun sec => qualifies y sec = true) secs)) as [sec|] eqn:Hlast.
  - left. apply last_filter_position in Hlast as (j & Hj & Hq & Hafter).
    exists sec. split; [by eapply list_elem_of_lookup_2|]. do 2 (split; [done|]).
    intros sec' [i Hi]%list_elem_of_lookup_1 Hq'.
    destruct (decide (i ≤ j)%nat) as [Hle|Hgt]; [by apply (Hsorted i j)|].
    destruct (Hafter i sec'); [lia|done..].
  - right. split; [done|]. intros sec Hin.
    apply last_None in Hlast.
    destruct (qualifies y sec) eqn:Hq; [|done].
    assert (Hf : sec ∈ filter (fun sec => qualifies y sec = true) secs)
      by (by apply list_elem_of_filter).
    rewrite Hlast in Hf. by apply elem_of_nil in Hf.
Qed.

Lemma currentSection_greatest_offset_witness :
  (∃ sec, sec ∈ sections sampleLayout
          ∧ qualifies 590 sec = true
          ∧ currentSection 590 (sections sampleLayout) = attr (sectionId sec)
          ∧ ∀ sec', sec' ∈ sections sampleLayout -> qualifies 590 sec' = true ->
                    (offsetTop sec' ≤ offsetTop sec)%Z)
  ∨ (currentSection 590 (sections sampleLayout) = VStr EmptyString
     ∧ ∀ sec, sec ∈ sections sampleLayout -> qualifies 590 sec = false).
Proof.
  apply (currentSection_greatest_offset 590 (sections sampleLayout)).
  intros i j a b Hij Ha Hb.
  destruct i as [|[|[|i]]], j as [|[|[|j]]]; cbn in Ha, Hb; try lia;
    try discriminate; injection Ha as <-; injection Hb as <-; cbn; lia.
Defined.

(** ** The page around the render targets *)

Lemma bindP_run {A B : Type} (m : MP A) (f : A -> MP B) (p p1 : page) (o : outcome A) :
  m p = (o, p1) ->
  (m ≫= f) p = match o with Ok a => f a p1 | Throw e => (Throw e, p1) end.
Proof. intros H. unfold mbind, MP_bind. by rewrite H. Qed.

Lemma bindP_gets {A B : Type} (g : page -> A) (f : A -> MP B) (p : page) :
  (getsP g ≫= f) p = f (g p) p.
Proof. done. Qed.

Lemma onCore_run {A : Type} (m : M A) (p : page) (o : outcome A) (s : state) :
  m (core p) = (o, s) -> onCore m p = (o, set_core s p).
Proof. intros H. unfold onCore. by rewrite H. Qed.

Lemma set_core_core (p : page) : set_core (core p) p = p.
Proof. by destruct p. Qed.

Lemma forEachP_app {A : Type} (l1 l2 : list A) (f : A -> MP unit) (p : page) :
  forEachP (l1 ++ l2) f p =
    match forEachP l1 f p with
    | (Ok _, p1) => forEachP l2 f p1
    | (Throw e, p1) => (Throw e, p1)
    end.
Proof.
  revert p. induction l1 as [|x l1 IH]; intros p; [done|].
  cbn [app forEachP]. unfold mbind, MP_bind.
  destruct (f x p) as [[[]|e] p1]; [apply IH|done].
Qed.

(** *** Tokens *)

Lemma tokensAdd_elem (t c : string) (cl : list string) :
  c ∈ tokensAdd t cl ↔ c = t ∨ c ∈ cl.
Proof.
  unfold tokensAdd. case_decide as Hin.
  - split; [auto|]. by intros [->|].
  - rewrite elem_of_app, list_elem_of_singleton. tauto.
Qed.

Lemma tokensRemove_elem (t c : string) (cl : list string) :
  c ∈ tokensRemove t cl ↔ c ≠ t ∧ c ∈ cl.
Proof. unfold tokensRemove. by rewrite list_elem_of_filter. Qed.

Lemma tokensToggle_elem (t c : string) (cl : list string) :
  c ∈ tokensToggle t cl ↔ (c = t ∧ t ∉ cl) ∨ (c ≠ t ∧ c ∈ cl).
Proof.
  unfold tokensToggle. case_decide as Hin.
  - rewrite tokensRemove_elem. split; [tauto|]. intros [[-> ?]|]; tauto.
  - rewrite elem_of_app, list_elem_of_singleton.
    split.
    + intros [Hc| ->]; [|tauto]. right. split; [|done]. by intros ->.
    + tauto.
Qed.

Lemma tokensAdd_idem (t : string) (cl : list string) :
  tokensAdd t (tokensAdd t cl) = tokensAdd t cl.
Proof.
  unfold tokensAdd at 1. rewrite decide_True; [done|].
  apply tokensAdd_elem. by left.
Qed.

(** *** Listeners *)

Lemma addEventListener_closure (t : eventTarget) (type : string) (f : listener)
    (p : page) :
  f ≠ ToggleLanguage ->
  addEventListener (Some t) type f p
  = (Ok tt, set_listeners (listeners p ++ [(t, type, f)]) p).
Proof.
  intros Hf. unfold addEventListener, modifyP.
  rewrite decide_False; [done|]. tauto.
Qed.

Lemma forEachP_register {A : Type} (l : list A) (f : A -> MP unit)
    (reg : A -> registration) (p : page) :
  (∀ x q, f x q = (Ok tt, set_listeners (listeners q ++ [reg x]) q)) ->
  forEachP l f p = (Ok tt, set_listeners (listeners p ++ map reg l) p).
Proof.
  intros Hf. revert p. induction l as [|x l IH]; intros p.
  - cbn. rewrite app_nil_r. by destruct p.
  - cbn [forEachP map]. rewrite (bindP_run _ _ _ _ _ (Hf x p)), IH.
    cbn. by rewrite <- app_assoc.
Qed.

Lemma imap_registrations (f : listener) (l : list navLink) :
  map (fun x : nat * navLink => (OnNavLink x.1, "click", f)) (imap pair l)
  = imap (fun i _ => (OnNavLink i, "click", f)) l.
Proof.
  change (map ?g ?l) with (g <$> l). rewrite fmap_imap. by apply imap_ext.
Qed.

(** What [initializeEventListeners] does, by the two elements it needs. *)
Lemma initializeEventListeners_run (p : page) :
  initializeEventListeners p =
    match langToggle (core p) with
    | None => (Throw TypeError, p)
    | Some _ =>
        if hasId (markup (core p)) "nav-toggle"
        then (Ok tt,
              set_listeners
                (listeners p ++ toggleWiring p ++ closureWiring (core p) (anchors p)) p)
        else (Throw TypeError, set_listeners (listeners p ++ toggleWiring p) p)
    end.
Proof.
  unfold initializeEventListeners. rewrite bindP_gets.
  destruct (langToggle (core p)) as [c|]; [|done].
  cbn [fmap option_fmap option_map].
  assert (H1 : addEventListener (Some (OnElement "lang-toggle")) "click" ToggleLanguage p
               = (Ok tt, set_listeners (listeners p ++ toggleWiring p) p)).
  { unfold addEventListener, modifyP, toggleWiring.
    fold toggleRegistration.
    destruct (decide (toggleRegistration ∈ listeners p)) as [Hin|Hout].
    - rewrite decide_True by done. rewrite app_nil_r. by destruct p.
    - rewrite decide_False; [done|]. tauto. }
  rewrite (bindP_run _ _ _ _ _ H1). clear H1.
  set (p1 := set_listeners _ p).
  unfold elementById. rewrite !bindP_gets.
  change (markup (core p1)) with (markup (core p)).
  unfold hasId. fold (found (core p) "nav-menu").
  destruct (decide ("nav-toggle" ∈ ids (markup (core p)))) as [Hin|Hout].
  2: { by rewrite bool_decide_eq_false_2. }
  rewrite bool_decide_eq_true_2 by done.
  cbn [fmap option_fmap option_map].
  set (navMenu := found (core p) "nav-menu").
  rewrite (bindP_run _ _ _ _ _
             (addEventListener_closure _ _ (ToggleMenu (Some "nav-toggle") navMenu) p1
                ltac:(done))).
  set (p2 := set_listeners _ p1).
  rewrite bindP_gets.
  assert (Hlinks :
    forEachP (imap pair (navLinks (markup (core p2))))
      (fun '(i, link) =>
         addEventListener (Some (OnNavLink i)) "click"
           (CloseMenu (Some "nav-toggle") navMenu)) p2
    = (Ok tt,
       set_listeners
         (listeners p2 ++
          map (fun x : nat * navLink =>
                 (OnNavLink x.1, "click", CloseMenu (Some "nav-toggle") navMenu))
              (imap pair (navLinks (markup (core p2))))) p2)).
  { apply forEachP_register. intros [i link] q. by apply addEventListener_closure. }
  rewrite (bindP_run _ _ _ _ _ Hlinks). clear Hlinks.
  set (p3 := set_listeners _ p2).
  rewrite (bindP_run _ _ _ _ _
             (addEventListener_closure OnWindow "scroll" ScrollStyling p3 ltac:(done))).
  set (p4 := set_listeners _ p3).
  rewrite bindP_gets.
  assert (Hanchors :
    forEachP (seq 0 (anchors p4))
      (fun i => addEventListener (Some (OnAnchor i)) "click" SmoothScroll) p4
    = (Ok tt,
       set_listeners
         (listeners p4 ++ map (fun i => (OnAnchor i, "click", SmoothScroll))
                            (seq 0 (anchors p4))) p4)).
  { apply forEachP_register. intros i q. by apply addEventListener_closure. }
  rewrite Hanchors. clear Hanchors.
  f_equal. unfold p4, p3, p2, p1, closureWiring, set_listeners. cbn.
  rewrite imap_registrations. f_equal.
  by rewrite <- !app_assoc.
Qed.

(** *** The appearance animation *)

Lemma addScrollAnimations_from (n k : nat) (p : page) :
  ∃ st,
    forEachP (seq k n)
      (fun i =>
         setStyle i "opacity" "0";;
         setStyle i "transform" "translateY(30px)";;
         setStyle i "transition" "opacity 0.6s ease, transform 0.6s ease";;
         observe i) p
    = (Ok tt, set_observed (observed p ++ seq k n) (set_styles st p))
    ∧ ∀ i prop,
        st !! (i, prop) =
          if decide (k ≤ i < k + n)%nat
          then match hiddenValue prop with
               | Some v => Some v
               | None => styles p !! (i, prop)
               end
          else styles p !! (i, prop).
Proof.
  revert k p. induction n as [|n IH]; intros k p.
  - exists (styles p). split.
    + cbn. rewrite app_nil_r. by destruct p.
    + intros i prop. by rewrite decide_False by lia.
  - cbn [seq forEachP].
    set (st1 := <[(k, "transition") := "opacity 0.6s ease, transform 0.6s ease"]>
                  (<[(k, "transform") := "translateY(30px)"]>
                     (<[(k, "opacity") := "0"]> (styles p)))).
    set (p1 := set_observed (observed p ++ [k]) (set_styles st1 p)).
    destruct (IH (S k) p1) as (st & Hrun & Hst).
    exists st. split.
    + assert (Hstep :
        (setStyle k "opacity" "0";;
         setStyle k "transform" "translateY(30px)";;
         setStyle k "transition" "opacity 0.6s ease, transform 0.6s ease";;
         observe k) p = (Ok tt, p1)) by done.
      rewrite (bindP_run _ _ _ _ _ Hstep), Hrun. f_equal.
      unfold p1, set_observed, set_styles. cbn. by rewrite <- app_assoc.
    + intros i prop. rewrite Hst. unfold p1, st1. cbn [styles set_observed set_styles].
      destruct (decide (i = k)) as [->|Hne].
      * rewrite decide_False by lia. rewrite decide_True by lia.
        unfold hiddenValue.
        destruct (String.eqb prop "opacity") eqn:H1;
          [apply String.eqb_eq in H1 as ->;
           by rewrite !lookup_insert_ne, lookup_insert_eq by congruence|].
        destruct (String.eqb prop "transform") eqn:H2;
          [apply String.eqb_eq in H2 as ->;
           by rewrite lookup_insert_ne, lookup_insert_eq by congruence|].
        destruct (String.eqb prop "transition") eqn:H3;
          [apply String.eqb_eq in H3 as ->; by rewrite lookup_insert_eq|].
        apply String.eqb_neq in H1, H2, H3.
        rewrite !lookup_insert_ne; [done|congruence..].
      * rewrite !lookup_insert_ne by congruence.
        destruct (decide (S k ≤ i < S k + n)%nat);
          [by rewrite decide_True by lia | by rewrite decide_False by lia].
Qed.

Lemma addScrollAnimations_run (p : page) :
  ∃ st,
    addScrollAnimations p
    = (Ok tt, set_observed (observed p ++ seq 0 (sectionEls p)) (set_styles st p))
    ∧ ∀ i prop,
        st !! (i, prop) =
          if decide (i < sectionEls p)%nat
          then match hiddenValue prop with
               | Some v => Some v
               | None => styles p !! (i, prop)
               end
          else styles p !! (i, prop).
Proof.
  destruct (addScrollAnimations_from (sectionEls p) 0 p) as (st & Hrun & Hst).
  exists st. split; [exact Hrun|].
  intros i prop. rewrite Hst.
  destruct (decide (i < sectionEls p)%nat);
    [by rewrite decide_True by lia | by rewrite decide_False by lia].
Qed.

Lemma onIntersection_entries (entries : list (nat * bool)) (p : page) :
  ∃ st,
    onIntersection entries p = (Ok tt, set_styles st p)
    ∧ ∀ i prop,
        st !! (i, prop) =
          if bool_decide ((i, true) ∈ entries)
          then match shownValue prop with
               | Some v => Some v
               | None => styles p !! (i, prop)
               end
          else styles p !! (i, prop).
Proof.
  unfold onIntersection. revert p.
  induction entries as [|[j b] entries IH]; intros p.
  - exists (styles p). split; [by destruct p|].
    intros i prop. rewrite bool_decide_eq_false_2; [done|]. apply not_elem_of_nil.
  - cbn [forEachP].
    set (st1 := if b then <[(j, "transform") := "translateY(0)"]>
                            (<[(j, "opacity") := "1"]> (styles p))
                else styles p).
    destruct (IH (set_styles st1 p)) as (st & Hrun & Hst).
    exists st. split.
    + assert (Hstep :
        (if b then setStyle j "opacity" "1";; setStyle j "transform" "translateY(0)"
         else mret tt) p = (Ok tt, set_styles st1 p)).
      { unfold st1. destruct b; [done|]. by destruct p. }
      by rewrite (bindP_run _ _ _ _ _ Hstep), Hrun.
    + intros i prop. rewrite Hst. cbn [styles set_styles].
      assert (Hhead : st1 !! (i, prop) =
                if bool_decide ((i, true) = (j, b))
                then match shownValue prop with
                     | Some v => Some v
                     | None => styles p !! (i, prop)
                     end
                else styles p !! (i, prop)).
      { unfold st1. destruct b.
        - destruct (decide (i = j)) as [->|Hne].
          + rewrite bool_decide_eq_true_2 by done. unfold shownValue.
            destruct (String.eqb prop "opacity") eqn:H1;
              [apply String.eqb_eq in H1 as ->;
               by rewrite lookup_insert_ne, lookup_insert_eq by congruence|].
            destruct (String.eqb prop "transform") eqn:H2;
              [apply String.eqb_eq in H2 as ->; by rewrite lookup_insert_eq|].
            apply String.eqb_neq in H1, H2.
            rewrite !lookup_insert_ne; [done|congruence..].
          + rewrite bool_decide_eq_false_2 by congruence.
            by rewrite !lookup_insert_ne by congruence.
        - by rewrite bool_decide_eq_false_2 by congruence. }
      destruct (bool_decide ((i, true) ∈ entries)) eqn:Hin.
      * rewrite (bool_decide_eq_true_2 ((i, true) ∈ (j, b) :: entries)).
        2: { apply bool_decide_eq_true in Hin. by apply list_elem_of_further. }
        destruct (shownValue prop); [done|]. rewrite Hhead.
        by destruct (bool_decide _).
      * rewrite Hhead. apply bool_decide_eq_false in Hin.
        destruct (bool_decide ((i, true) = (j, b))) eqn:Heq.
        -- apply bool_decide_eq_true in Heq.
           rewrite bool_decide_eq_true_2; [done|]. rewrite Heq. apply list_elem_of_here.
        -- apply bool_decide_eq_false in Heq.
           rewrite bool_decide_eq_false_2; [done|].
           intros [?|?]%elem_of_cons; done.
Qed.

Lemma onIntersection_app (l1 l2 : list (nat * bool)) (p : page) :
  onIntersection (l1 ++ l2) p = (onIntersection l1;; onIntersection l2) p.
Proof. unfold onIntersection. rewrite forEachP_app. done. Qed.

Lemma onIntersection_batches (batches : list (list (nat * bool))) (p : page) :
  forEachP batches onIntersection p = onIntersection (concat batches) p.
Proof.
  revert p. induction batches as [|b batches IH]; intros p; [done|].
  cbn [forEachP concat]. rewrite onIntersection_app. unfold mbind, MP_bind.
  destruct (onIntersection b p) as [[[]|e] p1]; [|done]. apply IH.
Qed.

(** *** Class lists *)

Lemma onClassList_run (id : string) (f : list string -> list string) (p : page) :
  onClassList (Some id) f p
  = (Ok tt, set_classes (<[id := f (classesAt p id)]> (classes p)) p).
Proof. done. Qed.

Lemma classesAt_insert (p : page) (id id' : string) (cl : list string) :
  classesAt (set_classes (<[id := cl]> (classes p)) p) id'
  = if decide (id = id') then cl else classesAt p id'.
Proof.
  unfold classesAt. cbn. case_decide as H.
  - subst. by rewrite lookup_insert_eq.
  - by rewrite lookup_insert_ne.
Qed.

Lemma isActive_toggle (p : page) (id id' : string) :
  isActive (set_classes (<[id := tokensToggle "active" (classesAt p id)]> (classes p)) p) id'
  = if decide (id = id') then negb (isActive p id') else isActive p id'.
Proof.
  unfold isActive. rewrite classesAt_insert. case_decide as H; [subst|done].
  destruct (decide ("active" ∈ classesAt p id')) as [Hin|Hout].
  - rewrite (bool_decide_eq_true_2 _ Hin). apply bool_decide_eq_false_2.
    rewrite tokensToggle_elem. tauto.
  - rewrite (bool_decide_eq_false_2 _ Hout). apply bool_decide_eq_true_2.
    rewrite tokensToggle_elem. tauto.
Qed.

Lemma isActive_remove (p : page) (id id' : string) :
  isActive (set_classes (<[id := tokensRemove "active" (classesAt p id)]> (classes p)) p) id'
  = if decide (id = id') then false else isActive p id'.
Proof.
  unfold isActive. rewrite classesAt_insert. case_decide as H; [subst|done].
  apply bool_decide_eq_false_2. rewrite tokensRemove_elem. tauto.
Qed.

Lemma menuListener_run (c : menuClick) (p : page) :
  ∃ p', menuListener c p = (Ok tt, p')
    ∧ isActive p' "nav-toggle"
      = match c with ClickTrigger => negb (isActive p "nav-toggle") | ClickLink => false end
    ∧ isActive p' "nav-menu"
      = match c with ClickTrigger => negb (isActive p "nav-menu") | ClickLink => false end
    ∧ (∀ id t, t ≠ "active" -> t ∈ classesAt p' id ↔ t ∈ classesAt p id)
    ∧ p' = set_classes (classes p') p.
Proof.
  destruct c; cbn [menuListener]; unfold toggleMenu, closeMenu.
  - rewrite (bindP_run _ _ _ _ _ (onClassList_run _ _ p)).
    set (p1 := set_classes _ p). rewrite onClassList_run.
    eexists. split; [reflexivity|]. repeat split.
    + rewrite isActive_toggle, decide_False by done.
      unfold p1. by rewrite isActive_toggle, decide_True.
    + rewrite isActive_toggle, decide_True by done.
      unfold p1. by rewrite isActive_toggle, decide_False.
    + rewrite classesAt_insert. case_decide as H1; [subst id|].
      * rewrite tokensToggle_elem. unfold p1. rewrite classesAt_insert.
        rewrite decide_False by done. tauto.
      * unfold p1. rewrite classesAt_insert. case_decide as H2; [subst id|tauto].
        rewrite tokensToggle_elem. tauto.
    + rewrite classesAt_insert. case_decide as H1; [subst id|].
      * rewrite tokensToggle_elem. unfold p1. rewrite classesAt_insert.
        rewrite decide_False by done. tauto.
      * unfold p1. rewrite classesAt_insert. case_decide as H2; [subst id|tauto].
        rewrite tokensToggle_elem. tauto.
  - rewrite (bindP_run _ _ _ _ _ (onClassList_run _ _ p)).
    set (p1 := set_classes _ p). rewrite onClassList_run.
    eexists. split; [reflexivity|]. repeat split.
    + rewrite isActive_remove, decide_False by done.
      unfold p1. by rewrite isActive_remove, decide_True.
    + by rewrite isActive_remove, decide_True.
    + rewrite classesAt_insert. case_decide as H1; [subst id|].
      * rewrite tokensRemove_elem. unfold p1. rewrite classesAt_insert.
        rewrite decide_False by done. tauto.
      * unfold p1. rewrite classesAt_insert. case_decide as H2; [subst id|tauto].
        rewrite tokensRemove_elem. tauto.
    + rewrite classesAt_insert. case_decide as H1; [subst id|].
      * rewrite tokensRemove_elem. unfold p1. rewrite classesAt_insert.
        rewrite decide_False by done. tauto.
      * unfold p1. rewrite classesAt_insert. case_decide as H2; [subst id|tauto].
        rewrite tokensRemove_elem. tauto.
Qed.

(** X18: the menu and its trigger stay in step.  On a page with both
    elements, starting with the class [active] on both or on neither, any
    run of trigger clicks and nav-link clicks completes, leaves [active] on
    both or on neither, and the menu is open exactly as the clicks say: a
    trigger click flips it and a nav-link click closes it.  The other
    class tokens of every element are kept and nothing but class lists
    changes. *)
Theorem menu_clicks_in_step (clicks : list menuClick) (p : page) :
  isActive p "nav-toggle" = isActive p "nav-menu" ->
  ∃ p', forEachP clicks menuListener p = (Ok tt, p')
    ∧ isActive p' "nav-toggle" = menuOpen clicks (isActive p "nav-menu")
    ∧ isActive p' "nav-menu" = menuOpen clicks (isActive p "nav-menu")
    ∧ (∀ id t, t ≠ "active" -> t ∈ classesAt p' id ↔ t ∈ classesAt p id)
    ∧ p' = set_classes (classes p') p.
Proof.
  revert p. induction clicks as [|c clicks IH]; intros p Hsync.
  - exists p. repeat split; try done. by destruct p.
  - destruct (menuListener_run c p) as (p1 & Hrun1 & Ht1 & Hm1 & Hk1 & Hp1).
    destruct (IH p1) as (p' & Hrun & Ht & Hm & Hk & Hp').
    { rewrite Ht1, Hm1, Hsync. done. }
    exists p'. cbn [forEachP]. rewrite (bindP_run _ _ _ _ _ Hrun1).
    split; [exact Hrun|]. cbn [menuOpen foldl].
    rewrite Ht, Hm, Hm1. do 2 (split; [done|]). split.
    + intros id t Hne. rewrite (Hk id t Hne). by apply Hk1.
    + rewrite Hp', Hp1. done.
Qed.

Lemma menu_clicks_in_step_witness :
  ∃ p', forEachP [ClickTrigger; ClickTrigger; ClickTrigger; ClickLink; ClickTrigger]
          menuListener samplePageFull = (Ok tt, p')
    ∧ isActive p' "nav-toggle" = true
    ∧ isActive p' "nav-menu" = true.
Proof.
  destruct (menu_clicks_in_step
              [ClickTrigger; ClickTrigger; ClickTrigger; ClickLink; ClickTrigger]
              samplePageFull)
    as (p' & Hrun & Htrigger & Hmenu & _).
  - reflexivity.
  - exists p'. exact (conj Hrun (conj Htrigger Hmenu)).
Defined.

(** X19: the scroll listener.  On a page with the [#nav] bar it puts the
    class [scrolled] on the bar exactly when the scroll position is above
    50, keeps the bar's other tokens and the class lists of the other
    elements, and then updates the active nav link; on a page without the
    bar it throws a TypeError before anything is changed, so the active
    nav link is not updated either. *)
Theorem onScroll_styles_nav (p : page) :
  if decide ("nav" ∈ ids (markup (core p))) then
    ∃ p', onScroll p = (Ok tt, p')
      ∧ ("scrolled" ∈ classesAt p' "nav" ↔ (50 < scrollY (core p))%Z)
      ∧ (∀ t, t ≠ "scrolled" -> t ∈ classesAt p' "nav" ↔ t ∈ classesAt p "nav")
      ∧ (∀ id, id ≠ "nav" -> classesAt p' id = classesAt p id)
      ∧ core p' = (updateActiveNavLink (core p)).2
  else onScroll p = (Throw TypeError, p).
Proof.
  unfold onScroll, elementById. rewrite bindP_gets.
  assert (Hy : onCore (gets scrollY) p = (Ok (scrollY (core p)), p))
    by (unfold onCore, gets; cbn; by destruct p).
  destruct (decide ("nav" ∈ ids (markup (core p)))) as [Hin|Hout].
  2: { rewrite (bindP_run _ _ _ _ _ Hy). by destruct (scrollY (core p) >? 50)%Z. }
  - rewrite (bindP_run _ _ _ _ _ Hy). clear Hy.
    destruct (updateActiveNavLink_run (core p)) as (c' & Hnav & _).
    set (cl := if (scrollY (core p) >? 50)%Z
               then tokensAdd "scrolled" (classesAt p "nav")
               else tokensRemove "scrolled" (classesAt p "nav")).
    set (p1 := set_classes (<["nav" := cl]> (classes p)) p).
    assert (Hstep :
      (if (scrollY (core p) >? 50)%Z then onClassList (Some "nav") (tokensAdd "scrolled")
       else onClassList (Some "nav") (tokensRemove "scrolled")) p = (Ok tt, p1)).
    { unfold p1, cl. by destruct (scrollY (core p) >? 50)%Z. }
    rewrite (bindP_run _ _ _ _ _ Hstep). clear Hstep.
    rewrite (onCore_run updateActiveNavLink p1 _ _ Hnav).
    eexists. split; [reflexivity|].
    rewrite Hnav. cbn [core set_core snd].
    change (classesAt (set_core ?s p1) ?id) with (classesAt p1 id).
    unfold p1. split; [|split; [|split; [|done]]].
    + rewrite classesAt_insert, decide_True by done. unfold cl.
      destruct (Z.gtb_spec (scrollY (core p)) 50) as [Hgt|Hle].
      * rewrite tokensAdd_elem. split; [lia|auto].
      * rewrite tokensRemove_elem. split; [tauto|lia].
    + intros t Ht. rewrite classesAt_insert, decide_True by done. unfold cl.
      destruct (scrollY (core p) >? 50)%Z.
      * rewrite tokensAdd_elem. tauto.
      * rewrite tokensRemove_elem. tauto.
    + intros id Hid. by rewrite classesAt_insert, decide_False.
Qed.

(** X20: a section becomes visible once and stays so.  After
    [addScrollAnimations] and any batches of observer entries, each
    [.section] element has opacity '1' and no offset if one of the batches
    reported it intersecting, and opacity '0' with the 30px offset
    otherwise; its transition is set in both cases.  Neither the set-up nor
    the observer callback throws. *)
Theorem sections_revealed_once_seen (p : page) (batches : list (list (nat * bool)))
    (i : nat) :
  (i < sectionEls p)%nat ->
  ∃ p1 p2,
    addScrollAnimations p = (Ok tt, p1)
    ∧ forEachP batches onIntersection p1 = (Ok tt, p2)
    ∧ styles p2 !! (i, "opacity") = Some (if seen batches i then "1" else "0")
    ∧ styles p2 !! (i, "transform")
      = Some (if seen batches i then "translateY(0)" else "translateY(30px)")
    ∧ styles p2 !! (i, "transition") = Some "opacity 0.6s ease, transform 0.6s ease".
Proof.
  intros Hi.
  destruct (addScrollAnimations_run p) as (st1 & Hrun1 & Hst1).
  set (p1 := set_observed _ _) in Hrun1.
  destruct (onIntersection_entries (concat batches) p1) as (st2 & Hrun2 & Hst2).
  exists p1, (set_styles st2 p1). split; [exact Hrun1|].
  split; [by rewrite onIntersection_batches|].
  cbn [styles set_styles]. rewrite !Hst2. fold (seen batches i).
  unfold p1. cbn [styles set_observed set_styles]. rewrite !Hst1.
  rewrite !decide_True by done.
  by destruct (seen batches i).
Qed.

Lemma sections_revealed_once_seen_witness :
  ∃ p1 p2,
    addScrollAnimations samplePageFull = (Ok tt, p1)
    ∧ forEachP [[(0, false); (1, false)]; [(0, true)]; [(0, false)]] onIntersection p1
      = (Ok tt, p2)
    ∧ styles p2 !! (0, "opacity") = Some "1"
    ∧ styles p2 !! (0, "transform") = Some "translateY(0)"
    ∧ styles p2 !! (0, "transition") = Some "opacity 0.6s ease, transform 0.6s ease".
Proof.
  apply (sections_revealed_once_seen samplePageFull
           [[(0, false); (1, false)]; [(0, true)]; [(0, false)]] 0).
  cbn. lia.
Defined.

(** X21: the overlay timer.  When it fires with the [#loading] element
    captured, the class [hidden] is added to the element and its other
    tokens are kept; a second firing changes nothing, so registering the
    timer twice does no harm.  With no element captured the callback
    throws a TypeError and changes nothing. *)
Theorem overlayTimeout_hides (loading : option string) (p : page) :
  match loading with
  | Some id =>
      ∃ p', overlayTimeout loading p = (Ok tt, p')
        ∧ (∀ t, t ∈ classesAt p' id ↔ t = "hidden" ∨ t ∈ classesAt p id)
        ∧ (∀ id', id' ≠ id -> classesAt p' id' = classesAt p id')
        ∧ overlayTimeout loading p' = (Ok tt, p')
  | None => overlayTimeout loading p = (Throw TypeError, p)
  end.
Proof.
  destruct loading as [id|]; [|done].
  unfold overlayTimeout. rewrite onClassList_run.
  eexists. split; [reflexivity|]. split; [|split].
  - intros t. rewrite classesAt_insert, decide_True by done. apply tokensAdd_elem.
  - intros id' Hne. by rewrite classesAt_insert, decide_False.
  - rewrite onClassList_run. rewrite classesAt_insert, decide_True by done.
    rewrite tokensAdd_idem. cbn. by rewrite insert_insert_eq.
Qed.

(** *** The start-up handler *)

Lemma hideLoading_run (p : page) :
  hideLoading p
  = (Ok tt, set_overlayTimers (overlayTimers p ++ [(300, found (core p) "loading")]) p).
Proof. done. Qed.

Lemma startup_catch (e : error) (p : page) :
  (onCore (consoleError "Failed to initialize app:" e);; hideLoading) p
  = (Ok tt, startupFailed e p).
Proof. done. Qed.

Lemma onDOMContentLoaded_run (net : network) (p : page) :
  match startupData net (core p) with
  | None => ∃ e, onDOMContentLoaded net p = (Ok tt, startupFailed e p)
  | Some data =>
      let lang := currentLang (core p) in
      let s1 := loaded data lang (core p) in
      if renderReady data lang (markup (core p)) then
        let p1 :=
          set_overlayTimers (overlayTimers p ++ [(300, found (core p) "loading")])
            (set_core (commit (renderWrites data lang (markup (core p)))
                         [(100, AnimateProgressBars)] s1) p) in
        match langToggle (core p) with
        | None => onDOMContentLoaded net p = (Ok tt, startupFailed TypeError p1)
        | Some _ =>
            if hasId (markup (core p)) "nav-toggle"
            then
              ∃ st,
                onDOMContentLoaded net p =
                  (Ok tt,
                   set_observed (observed p ++ seq 0 (sectionEls p))
                     (set_styles st
                        (set_listeners
                           (listeners p ++ toggleWiring p
                            ++ closureWiring (core p) (anchors p)) p1)))
                ∧ ∀ i prop,
                    st !! (i, prop) =
                      if decide (i < sectionEls p)%nat
                      then match hiddenValue prop with
                           | Some v => Some v
                           | None => styles p !! (i, prop)
                           end
                      else styles p !! (i, prop)
            else
              onDOMContentLoaded net p =
                (Ok tt,
                 startupFailed TypeError
                   (set_listeners (listeners p ++ toggleWiring p) p1))
        end
      else
        ∃ e ws tm, onDOMContentLoaded net p = (Ok tt, startupFailed e (set_core (commit ws tm s1) p))
  end.
Proof.
  unfold onDOMContentLoaded, tryCatch, startupData.
  set (s := core p).
  assert (Hlang : onCore (gets currentLang) p = (Ok (currentLang s), p))
    by (unfold onCore, gets; cbn; by destruct p).
  rewrite (bindP_run _ _ _ _ _ Hlang). clear Hlang.
  pose proof (loadLanguage_cases net (currentLang s) s) as Hload.
  destruct (net (dataFileOf (currentLang s))) as [|[] [data|]].
  1,3-5: destruct Hload as [e Hload]; exists e;
    rewrite (bindP_run _ _ _ _ _ (onCore_run _ p _ _ Hload));
    rewrite (set_core_core p : set_core s p = p); apply startup_catch.
  fold (loaded data (currentLang s) s) in Hload.
  cbv zeta. set (s1 := loaded data (currentLang s) s) in *.
  rewrite (bindP_run _ _ _ _ _ (onCore_run _ p _ _ Hload)). clear Hload.
  set (p0 := set_core s1 p).
  pose proof (renderAll_run s1) as Hrun. unfold passRuns in Hrun.
  change (renderReady (appData s1) (currentLang s1) (markup s1))
    with (renderReady data (currentLang s) (markup s)) in Hrun.
  change (renderWrites (appData s1) (currentLang s1) (markup s1))
    with (renderWrites data (currentLang s) (markup s)) in Hrun.
  destruct (renderReady data (currentLang s) (markup s)).
  2: { destruct Hrun as (e & ws & tm & Hrun & _). exists e, ws, tm.
       rewrite (bindP_run _ _ _ _ _ (onCore_run _ p0 _ _ Hrun)).
       apply startup_catch. }
  rewrite (bindP_run _ _ _ _ _ (onCore_run _ p0 _ _ Hrun)). clear Hrun.
  set (sR := commit _ _ s1).
  rewrite (bindP_run _ _ _ _ _ (hideLoading_run _)).
  set (p1 := set_overlayTimers _ _).
  pose proof (initializeEventListeners_run p1) as Hinit.
  change (langToggle (core p1)) with (langToggle s) in Hinit.
  change (markup (core p1)) with (markup s) in Hinit.
  change (listeners p1) with (listeners p) in Hinit.
  change (toggleWiring p1) with (toggleWiring p) in Hinit.
  change (closureWiring (core p1) (anchors p1))
    with (closureWiring s (anchors p)) in Hinit.
  destruct (langToggle s) as [c|].
  2: { rewrite (bindP_run _ _ _ _ _ Hinit). apply startup_catch. }
  destruct (hasId (markup s) "nav-toggle").
  2: { rewrite (bindP_run _ _ _ _ _ Hinit). apply startup_catch. }
  rewrite (bindP_run _ _ _ _ _ Hinit). clear Hinit.
  set (p2 := set_listeners _ p1).
  destruct (addScrollAnimations_run p2) as (st & Hanim & Hst).
  exists st. split; [by rewrite Hanim|exact Hst].
Qed.

(** X22: the start-up handler never throws and raises no notice.  It logs
    one error unless the load, the render pass and the wiring all went
    through, and it registers the overlay timer for the [#loading] element
    once, or twice when the render pass went through and the wiring threw
    for want of the toggle button or the menu trigger. *)
Theorem onDOMContentLoaded_dismisses_overlay (net : network) (p : page) :
  ∃ p', onDOMContentLoaded net p = (Ok tt, p')
    ∧ overlayTimers p'
      = (overlayTimers p
         ++ replicate (if startupRenders net (core p) && negb (wirable (core p))
                       then 2 else 1)
              (300, found (core p) "loading"))%list
    ∧ alerts (core p') = alerts (core p)
    ∧ if startupRenders net (core p) && wirable (core p)
      then console (core p') = console (core p)
      else ∃ e, console (core p')
                = (console (core p) ++ [("Failed to initialize app:", e)])%list.
Proof.
  pose proof (onDOMContentLoaded_run net p) as Hrun.
  unfold startupRenders, wirable.
  destruct (startupData net (core p)) as [data|].
  2: { destruct Hrun as [e Hrun]. eexists. split; [exact Hrun|].
       cbn [andb]. repeat split. by exists e. }
  cbv zeta in Hrun.
  destruct (renderReady data (currentLang (core p)) (markup (core p))).
  2: { destruct Hrun as (e & ws & tm & Hrun). eexists. split; [exact Hrun|].
       cbn [andb]. repeat split. by exists e. }
  destruct (langToggle (core p)) as [c|].
  2: { eexists. split; [exact Hrun|]. cbn [andb negb].
       split; [cbn; by rewrite <- app_assoc|]. split; [done|]. by exists TypeError. }
  destruct (hasId (markup (core p)) "nav-toggle").
  - destruct Hrun as (st & Hrun & _). eexists. split; [exact Hrun|]. done.
  - eexists. split; [exact Hrun|]. cbn [andb negb].
    split; [cbn; by rewrite <- app_assoc|]. split; [done|]. by exists TypeError.
Qed.

(** X23: a start-up that goes through.  When the file of the default
    locale is answered with a document that renders on the page and the
    page has the toggle button and the menu trigger, the handler leaves the
    document loaded and rendered, registers [toggleLanguage], the menu
    listeners, one closing listener per nav link, the scroll listener and
    one listener per in-page anchor, in this order, and hands every
    [.section] element to the observer with opacity '0'. *)
Theorem onDOMContentLoaded_wires (net : network) (p : page) (data : value) :
  startupData net (core p) = Some data ->
  renderReady data (currentLang (core p)) (markup (core p)) = true ->
  wirable (core p) = true ->
  toggleRegistration ∉ listeners p ->
  ∃ p', onDOMContentLoaded net p = (Ok tt, p')
    ∧ core p'
      = commit (renderWrites data (currentLang (core p)) (markup (core p)))
          [(100, AnimateProgressBars)] (loaded data (currentLang (core p)) (core p))
    ∧ listeners p' = (listeners p ++ wiring (core p) (anchors p))%list
    ∧ observed p' = (observed p ++ seq 0 (sectionEls p))%list
    ∧ (∀ i, (i < sectionEls p)%nat -> styles p' !! (i, "opacity") = Some "0")
    ∧ classes p' = classes p.
Proof.
  intros Hdata Hready Hwire Hfresh.
  pose proof (onDOMContentLoaded_run net p) as Hrun.
  rewrite Hdata in Hrun. cbv zeta in Hrun. rewrite Hready in Hrun.
  unfold wirable in Hwire.
  destruct (langToggle (core p)) as [c|]; [|done]. rewrite Hwire in Hrun.
  destruct Hrun as (st & Hrun & Hst).
  eexists. split; [exact Hrun|].
  cbn [core listeners observed styles classes set_observed set_styles set_listeners
       set_overlayTimers set_core].
  split; [done|]. split.
  { unfold toggleWiring, wiring. by rewrite decide_False. }
  split; [done|]. split; [|done].
  intros i Hi. rewrite Hst. by rewrite decide_True.
Qed.

Lemma onDOMContentLoaded_wires_witness :
  ∃ p', onDOMContentLoaded (serving (sampleData "首页" "安") (sampleData "Home" "Ann"))
          samplePageFull = (Ok tt, p')
    ∧ listeners p' = wiring (core samplePageFull) 5
    ∧ observed p' = [0; 1].
Proof.
  destruct (onDOMContentLoaded_wires
              (serving (sampleData "首页" "安") (sampleData "Home" "Ann"))
              samplePageFull (sampleData "首页" "安"))
    as (p' & Hrun & _ & Hlisteners & Hobserved & _).
  - vm_compute. reflexivity.
  - vm_compute. reflexivity.
  - vm_compute. reflexivity.
  - apply not_elem_of_nil.
  - exists p'. exact (conj Hrun (conj Hlisteners Hobserved)).
Defined.

(** X24: a start-up that fails.  When the load, the render pass or the
    wiring fails, no section is hidden or observed and no class list
    changes; the only listener that can have been registered is
    [toggleLanguage], and only after a render pass that went through.
    When it is the load that fails, the data set, the locale and the DOM
    store are as served. *)
Theorem onDOMContentLoaded_failure (net : network) (p : page) :
  startupRenders net (core p) && wirable (core p) = false ->
  ∃ p', onDOMContentLoaded net p = (Ok tt, p')
    ∧ styles p' = styles p
    ∧ observed p' = observed p
    ∧ classes p' = classes p
    ∧ (∀ r, r ∈ listeners p' ->
            r ∈ listeners p
            ∨ (r = toggleRegistration ∧ startupRenders net (core p) = true))
    ∧ (startupData net (core p) = None ->
       appData (core p') = appData (core p)
       ∧ currentLang (core p') = currentLang (core p)
       ∧ props (core p') = props (core p)
       ∧ listeners p' = listeners p).
Proof.
  pose proof (onDOMContentLoaded_run net p) as Hrun.
  unfold startupRenders, wirable.
  destruct (startupData net (core p)) as [data|].
  2: { intros _. destruct Hrun as [e Hrun]. eexists. split; [exact Hrun|].
       repeat split; auto. }
  cbv zeta in Hrun.
  destruct (renderReady data (currentLang (core p)) (markup (core p))).
  2: { intros _. destruct Hrun as (e & ws & tm & Hrun). eexists. split; [exact Hrun|].
       do 3 (split; [done|]). split; [|done]. intros r Hr. by left. }
  cbn [andb]. destruct (langToggle (core p)) as [c|].
  2: { intros _. eexists. split; [exact Hrun|].
       do 3 (split; [done|]). split; [|done]. intros r Hr. by left. }
  intros Hid. rewrite Hid in Hrun. eexists. split; [exact Hrun|].
  do 3 (split; [done|]). split; [|done].
  intros r Hr. cbn in Hr. apply elem_of_app in Hr as [Hr|Hr]; [by left|].
  right. split; [|done]. unfold toggleWiring in Hr.
  case_decide; [by apply elem_of_nil in Hr|]. by apply list_elem_of_singleton in Hr.
Qed.

Lemma onDOMContentLoaded_failure_witness :
  ∃ p', onDOMContentLoaded (always (Response false None)) samplePageFull = (Ok tt, p')
    ∧ observed p' = []
    ∧ listeners p' = []
    ∧ appData (core p') = VNull.
Proof.
  destruct (onDOMContentLoaded_failure (always (Response false None)) samplePageFull)
    as (p' & Hrun & _ & Hobserved & _ & _ & Hload).
  - reflexivity.
  - destruct (Hload eq_refl) as (Hdata & _ & _ & Hlisteners).
    exists p'. exact (conj Hrun (conj Hobserved (conj Hlisteners Hdata))).
Defined.
